(** * everest: regularized pixel-level decorrelation

    A shallow embedding of the regression / cross-validation / outlier
    engine of [everest/detrender.py] and of the kernel code of
    [everest/gp.py], and the properties of the specification that were
    checked against it.

    Conventions of the embedding.
    - A NumPy [float64] is a value of [f64]: a rational number or one of the
      IEEE special values NaN, -inf, +inf.  Arithmetic on finite values is
      exact (no rounding, no overflow) and there is a single zero, except
      where a rounded result decides a test of the code: there the
      operation is followed by [round64], the rounding of IEEE 754 binary64
      (the fractional tolerance of [optimize_lambda]).
    - A Python exception is a value of [exn]; a call that may raise returns
      a [result].
    - A 2-d array is its column count together with its list of rows.
    - Library code outside the repository (numpy.linalg, george, scipy) and
      repository modules that are not part of the sources at hand
      (basecamp.py, pld.py, math.py) are taken as section variables.
    - The calls on the [matplotlib] axes are a section variable too, which
      returns or raises; the local variables they read are computed as the
      code computes them.  Calls of the logger are left out. *)

From Stdlib Require Import ZArith QArith Qabs Qround List Bool Lia Lqa PeanoNat Sorted.
Import ListNotations.

Set Implicit Arguments.

Close Scope Q_scope.

(* ================================================================== *)
(** ** Exceptions *)

Inductive exn : Type :=
| IndexError
| ValueError
| ZeroDivisionError
| LinAlgError
| TypeError
| AssertionError
| UnboundLocalError.

Inductive result (A : Type) : Type :=
| Ok (a : A)
| Raise (e : exn).

Arguments Ok {A} a.
Arguments Raise {A} e.

Definition rbind {A B} (x : result A) (f : A -> result B) : result B :=
  match x with
  | Ok a => f a
  | Raise e => Raise e
  end.

Declare Scope res_scope.
Delimit Scope res_scope with res.
Notation "x <- c ;; k" := (rbind c (fun x => k))
  (at level 61, c at next level, right associativity) : res_scope.
Notation "' p <- c ;; k" := (rbind c (fun v => match v with p => k end))
  (at level 61, p pattern, c at next level, right associativity) : res_scope.
Notation "c ;;; k" := (rbind c (fun _ => k))
  (at level 61, right associativity) : res_scope.

(* ================================================================== *)
(** ** Floating-point values *)

Inductive f64 : Type :=
| NaN
| NInf
| Fin (q : Q)
| PInf.

Definition is_nan (x : f64) : bool :=
  match x with NaN => true | _ => false end.

Definition fneg (x : f64) : f64 :=
  match x with
  | NaN => NaN
  | NInf => PInf
  | PInf => NInf
  | Fin q => Fin (- q)%Q
  end.

Definition fadd (x y : f64) : f64 :=
  match x, y with
  | NaN, _ | _, NaN => NaN
  | PInf, NInf | NInf, PInf => NaN
  | PInf, _ | _, PInf => PInf
  | NInf, _ | _, NInf => NInf
  | Fin a, Fin b => Fin (a + b)%Q
  end.

Definition fsub (x y : f64) : f64 := fadd x (fneg y).

(** Sign of a non-NaN value: [Lt] negative, [Eq] zero, [Gt] positive. *)
Definition fsign (x : f64) : comparison :=
  match x with
  | NaN => Eq
  | NInf => Lt
  | PInf => Gt
  | Fin q => (q ?= 0)%Q
  end.

Definition inf_of_sign (s : comparison) : f64 :=
  match s with Lt => NInf | Gt => PInf | Eq => NaN end.

Definition sign_mul (s t : comparison) : comparison :=
  match s, t with
  | Eq, _ | _, Eq => Eq
  | Lt, Lt | Gt, Gt => Gt
  | _, _ => Lt
  end.

Definition fmul (x y : f64) : f64 :=
  match x, y with
  | NaN, _ | _, NaN => NaN
  | Fin a, Fin b => Fin (a * b)%Q
  | _, _ => inf_of_sign (sign_mul (fsign x) (fsign y))
  end.

(** Division as NumPy does it on [float64]: a division by zero is not an
    exception, it gives an infinity (or NaN for 0/0). *)
Definition fdiv (x y : f64) : f64 :=
  match x, y with
  | NaN, _ | _, NaN => NaN
  | Fin a, Fin b =>
      if Qeq_bool b 0%Q
      then inf_of_sign (fsign x)
      else Fin (a / b)%Q
  | Fin _, _ => Fin 0%Q
  | _, Fin b =>
      if Qeq_bool b 0%Q then x else inf_of_sign (sign_mul (fsign x) (fsign y))
  | _, _ => NaN
  end.

Definition fle (x y : f64) : bool :=
  match x, y with
  | NaN, _ | _, NaN => false
  | NInf, _ => true
  | _, PInf => true
  | Fin a, Fin b => Qle_bool a b
  | _, _ => false
  end.

Definition flt (x y : f64) : bool :=
  match x, y with
  | NaN, _ | _, NaN => false
  | Fin a, Fin b => negb (Qle_bool b a)
  | NInf, NInf | PInf, PInf => false
  | NInf, _ => true
  | _, PInf => true
  | _, _ => false
  end.

Definition feq (x y : f64) : bool :=
  match x, y with
  | Fin a, Fin b => Qeq_bool a b
  | NInf, NInf | PInf, PInf => true
  | _, _ => false
  end.

(** Python's [!=]: true as soon as one side is NaN. *)
Definition fne (x y : f64) : bool := negb (feq x y).

Definition fpow2 (x : f64) : f64 := fmul x x.

Declare Scope f64_scope.
Delimit Scope f64_scope with f64.
Infix "+" := fadd : f64_scope.
Infix "-" := fsub : f64_scope.
Infix "*" := fmul : f64_scope.
Infix "/" := fdiv : f64_scope.
Infix "<=?" := fle : f64_scope.
Infix "<?" := flt : f64_scope.

(** A strictly positive finite value. *)
Definition pos_finite (x : f64) : Prop :=
  match x with Fin q => (0 < q)%Q | _ => False end.

(* ================================================================== *)
(** ** Rounding to [float64] *)

(** [2 ** s] for an integer [s] of either sign. *)
Definition pow2 (s : Z) : Q :=
  if (0 <=? s)%Z then inject_Z (2 ^ s) else 1 # Z.to_pos (2 ^ (- s)).

(** The integer nearest to [n / d], the even one of the two at a tie
    ([0 <= n], [0 < d]). *)
Definition round_half_even (n d : Z) : Z :=
  let q := (n / d)%Z in
  match (2 * (n mod d) ?= d)%Z with
  | Lt => q
  | Gt => (q + 1)%Z
  | Eq => if Z.even q then q else (q + 1)%Z
  end.

(** The exponent [e] with [2 ** e <= n / d < 2 ** (e + 1)]
    ([0 < n], [0 < d]). *)
Definition ilog2 (n d : Z) : Z :=
  let e := (Z.log2 n - Z.log2 d)%Z in
  if (0 <=? e)%Z
  then (if (d * 2 ^ e <=? n)%Z then e else e - 1)%Z
  else (if (d <=? n * 2 ^ (- e))%Z then e else e - 1)%Z.

(** The binary64 value nearest to [n / d] ([0 < n], [0 < d]), ties to
    even: 53 significant bits, the unit in the last place no smaller than
    [2 ** -1074] (subnormal numbers), [+inf] from [2 ** 1024] on. *)
Definition round64_pos (n d : Z) : f64 :=
  let e := ilog2 n d in
  let s := Z.max (e - 52) (-1074) in
  let m := if (0 <=? s)%Z then round_half_even n (d * 2 ^ s)
           else round_half_even (n * 2 ^ (- s)) d in
  if (0 <=? s)%Z && (2 ^ 1024 <=? m * 2 ^ s)%Z then PInf
  else Fin (Qred (inject_Z m * pow2 s)).

(** The [float64] that an operation with the exact result [q] returns. *)
Definition round64 (q : Q) : f64 :=
  match Qnum q with
  | Z0 => Fin 0
  | Zpos n => round64_pos (Zpos n) (Zpos (Qden q))
  | Zneg n => fneg (round64_pos (Zpos n) (Zpos (Qden q)))
  end.

Definition rounded (x : f64) : f64 :=
  match x with Fin q => round64 q | _ => x end.

(** [x - y] and [x / y] as [float64] computes them. *)
Definition fsub64 (x y : f64) : f64 := rounded (fsub x y).
Definition fdiv64 (x y : f64) : f64 := rounded (fdiv x y).

(** Not NaN and not negative. *)
Definition nonneg_float (x : f64) : Prop :=
  x = PInf \/ exists r, x = Fin r /\ (0 <= r)%Q.

(* ================================================================== *)
(** ** Arrays *)

(** A 2-d [ndarray]: [shape = (length rows, ncols)]. *)
Record ndarray2 : Type := mk_ndarray2 {
  ncols : nat;
  rows : list (list f64)
}.

Definition rectangular (M : ndarray2) : Prop :=
  Forall (fun r => length r = ncols M) (rows M).

(** [np.array(l)] for a list of equally long lists. *)
Definition np_array (l : list (list f64)) : ndarray2 :=
  mk_ndarray2 (match l with [] => 0 | r :: _ => length r end) l.

(** [len(M)] *)
Definition len2 (M : ndarray2) : nat := length (rows M).

(** [M[:,n]] *)
Definition column (M : ndarray2) (n : nat) : list f64 :=
  map (fun r => nth n r NaN) (rows M).

(** [np.argmin]: the first index of the smallest entry. *)
Fixpoint argmin_from (bi : nat) (best : f64) (i : nat) (c : list f64) : nat :=
  match c with
  | [] => bi
  | x :: t =>
      if flt x best then argmin_from i x (S i) t
      else argmin_from bi best (S i) t
  end.

Definition argmin (c : list f64) : result nat :=
  match c with
  | [] => Raise ValueError
  | x :: t => Ok (argmin_from 0 x 1 t)
  end.

(** [np.nanargmin]: NaNs are replaced by +inf before [argmin]; an all-NaN
    slice raises [ValueError]. *)
Definition replace_nan (c : list f64) : list f64 :=
  map (fun x => if is_nan x then PInf else x) c.

Definition nanargmin (c : list f64) : result nat :=
  match c with
  | [] => Raise ValueError
  | _ => if forallb is_nan c then Raise ValueError
         else argmin (replace_nan c)
  end.

(** [np.where(c)[0]]: the positions of the true entries, ascending. *)
Fixpoint where_from (i : nat) (c : list bool) : list nat :=
  match c with
  | [] => []
  | b :: t => if b then i :: where_from (S i) t else where_from (S i) t
  end.

Definition np_where (c : list bool) : list nat := where_from 0 c.

(** [l[-1]] *)
Definition last_item {A} (l : list A) : result A :=
  match rev l with
  | [] => Raise IndexError
  | x :: _ => Ok x
  end.

(* ================================================================== *)
(** ** Python sequences *)

(** The position a Python index [i] designates in a sequence of length
    [n]: negative indices count from the end. *)
Definition py_index (n : nat) (i : Z) : option nat :=
  if (0 <=? i)%Z && (i <? Z.of_nat n)%Z then Some (Z.to_nat i)
  else if (- Z.of_nat n <=? i)%Z && (i <? 0)%Z
       then Some (Z.to_nat (Z.of_nat n + i))
       else None.

(** [l[i]] *)
Definition getitem {A} (l : list A) (i : Z) : result A :=
  match py_index (length l) i with
  | Some k => match nth_error l k with
              | Some x => Ok x
              | None => Raise IndexError
              end
  | None => Raise IndexError
  end.

(** [l[k] = v] at a position in range (out of range: unchanged). *)
Fixpoint list_set {A} (l : list A) (k : nat) (v : A) : list A :=
  match l, k with
  | [], _ => []
  | _ :: t, 0 => v :: t
  | x :: t, S k' => x :: list_set t k' v
  end.

(** [l[i] = v] *)
Definition setitem {A} (l : list A) (i : Z) (v : A) : result (list A) :=
  match py_index (length l) i with
  | Some k => Ok (list_set l k v)
  | None => Raise IndexError
  end.

(** [np.arange(start, stop, step)] for a positive step. *)
Definition np_arange (start stop step : Q) : list Q :=
  map (fun k => (start + inject_Z (Z.of_nat k) * step)%Q)
      (seq 0 (Z.to_nat (Qceiling ((stop - start) / step)))).

(** [np.arange(0, n)] *)
Definition arange_nat (n : nat) : list nat := seq 0 n.

(* ================================================================== *)
(** ** More of NumPy *)

Definition fabs (x : f64) : f64 :=
  match x with
  | NaN => NaN
  | NInf | PInf => PInf
  | Fin q => Fin (Qabs q)
  end.

(** [np.sort] on values without NaN. *)
Fixpoint insert_sorted (x : f64) (l : list f64) : list f64 :=
  match l with
  | [] => [x]
  | y :: t => if fle x y then x :: l else y :: insert_sorted x t
  end.

Definition np_sort (l : list f64) : list f64 := fold_right insert_sorted [] l.

(** [np.median] on values without NaN; [NaN] for an empty array. *)
Definition np_median (l : list f64) : f64 :=
  match l with
  | [] => NaN
  | _ =>
      let s := np_sort l in
      let n := length s in
      if Nat.even n
      then ((nth (n / 2 - 1) s NaN + nth (n / 2) s NaN) / Fin 2)%f64
      else nth (n / 2) s NaN
  end.

(** [np.nanmedian] *)
Definition nanmedian (l : list f64) : f64 :=
  np_median (filter (fun x => negb (is_nan x)) l).

(** [np.nanmean] *)
Definition nanmean (l : list f64) : f64 :=
  let s := filter (fun x => negb (is_nan x)) l in
  match s with
  | [] => NaN
  | _ => (fold_left fadd s (Fin 0) / Fin (inject_Z (Z.of_nat (length s))))%f64
  end.

(** The positions designated by an index array, all of them in range. *)
Fixpoint positions (n : nat) (idx : list Z) : result (list nat) :=
  match idx with
  | [] => Ok []
  | i :: t =>
      match py_index n i with
      | Some k => (ks <- positions n t ;; Ok (k :: ks))%res
      | None => Raise IndexError
      end
  end.

Fixpoint drop_positions {A} (i : nat) (ks : list nat) (x : list A) : list A :=
  match x with
  | [] => []
  | a :: t =>
      if existsb (Nat.eqb i) ks then drop_positions (S i) ks t
      else a :: drop_positions (S i) ks t
  end.

(** [np.delete(x, idx, axis = 0)] *)
Definition np_delete {A} (x : list A) (idx : list Z) : result (list A) :=
  (ks <- positions (length x) idx ;; Ok (drop_positions 0 ks x))%res.

(** [x[idx]] for an index array [idx]. *)
Fixpoint take {A} (x : list A) (idx : list Z) : result (list A) :=
  match idx with
  | [] => Ok []
  | i :: t => (a <- getitem x i ;; r <- take x t ;; Ok (a :: r))%res
  end.

(** [np.array_equal] on integer arrays. *)
Fixpoint array_equal (a b : list Z) : bool :=
  match a, b with
  | [], [] => true
  | x :: a', y :: b' => (x =? y)%Z && array_equal a' b'
  | _, _ => false
  end.

(** [np.argmax] of a boolean array: the first true position, 0 if none. *)
Definition argmax_bool (c : list bool) : result nat :=
  match c with
  | [] => Raise ValueError
  | _ => match np_where c with
         | [] => Ok 0
         | k :: _ => Ok k
         end
  end.

(** Elementwise operations on 1-d arrays of one length. *)
Fixpoint map2 {A B C} (f : A -> B -> C) (a : list A) (b : list B) : list C :=
  match a, b with
  | x :: a', y :: b' => f x y :: map2 f a' b'
  | _, _ => []
  end.

Definition vec_op (f : f64 -> f64 -> f64) (a b : list f64)
  : result (list f64) :=
  if length a =? length b then Ok (map2 f a b) else Raise ValueError.

(* ================================================================== *)
(** ** Linear algebra on arrays *)

(** [M[i,j]] *)
Definition entry (M : ndarray2) (i j : nat) : f64 :=
  nth j (nth i (rows M) []) NaN.

Definition same_shape (a b : ndarray2) : bool :=
  (len2 a =? len2 b) && (ncols a =? ncols b).

(** [l * a] for a scalar [l]. *)
Definition mat_scale (l : f64) (a : ndarray2) : ndarray2 :=
  mk_ndarray2 (ncols a) (map (map (fmul l)) (rows a)).

(** [a + b] for two arrays of one shape. *)
Definition mat_add (a b : ndarray2) : result ndarray2 :=
  if same_shape a b
  then Ok (mk_ndarray2 (ncols a) (map2 (map2 fadd) (rows a) (rows b)))
  else Raise ValueError.

(** The value of [np.sum(list, axis = 0)]: the scalar [0.0] for an empty
    list, an array otherwise. *)
Inductive ndarray : Type :=
| Scalar (x : f64)
| Matrix (M : ndarray2).

Fixpoint sum_from (acc : ndarray2) (l : list ndarray2) : result ndarray2 :=
  match l with
  | [] => Ok acc
  | m :: t => (acc' <- mat_add acc m ;; sum_from acc' t)%res
  end.

Definition np_sum_axis0 (l : list ndarray2) : result ndarray :=
  match l with
  | [] => Ok (Scalar (Fin 0))
  | m :: t => (s <- sum_from m t ;; Ok (Matrix s))%res
  end.

(** [mK + A], where [A] may be the scalar of an empty sum. *)
Definition add_nd (mK : ndarray2) (A : ndarray) : result ndarray2 :=
  match A with
  | Scalar s =>
      Ok (mk_ndarray2 (ncols mK) (map (map (fun x => fadd x s)) (rows mK)))
  | Matrix a => mat_add mK a
  end.

(** The inner product of two 1-d arrays. *)
Definition dot1 (u v : list f64) : f64 :=
  fold_left fadd (map2 fmul u v) (Fin 0).

(** [np.dot(B, W)] for a 2-d [B] and a 1-d [W]. *)
Definition mat_vec (B : ndarray2) (W : list f64) : result (list f64) :=
  if ncols B =? length W
  then Ok (map (fun r => dot1 r W) (rows B))
  else Raise ValueError.

Definition dot_nd (B : ndarray) (W : list f64) : result (list f64) :=
  match B with
  | Scalar s => Ok (map (fmul s) W)
  | Matrix b => mat_vec b W
  end.

(** [np.diag(v)] *)
Definition np_diag (v : list f64) : ndarray2 :=
  let n := length v in
  mk_ndarray2 n
    (map (fun i => map (fun j => if i =? j then nth i v NaN else Fin 0)
                       (seq 0 n))
         (seq 0 n)).

(** [K += G] in place: [G] must have the shape of [K], or be 1 x 1. *)
Definition iadd (K G : ndarray2) : result ndarray2 :=
  if same_shape K G then mat_add K G
  else if (len2 G =? 1) && (ncols G =? 1)
  then add_nd K (Scalar (entry G 0 0))
  else Raise ValueError.

(* ================================================================== *)
(** ** The [Detrender] object *)

(** The attributes of a [Detrender] that the engine reads and writes.  A
    cell of the regularization table [lam] is [None] until it is computed. *)
Record Detrender : Type := mk_Detrender {
  lambda_arr : list f64;
  leps : f64;
  osigma : f64;
  oiter : Z;
  cdivs : Z;
  giter : nat;
  optimize_gp : bool;
  kernel_params : option (list f64);
  bpad : Z;
  breakpoints : list Z;
  pld_order : Z;
  lam_idx : Z;
  lam : list (list (option f64));
  cdpp6_arr : list f64;
  cdppr_arr : list f64;
  cdppv_arr : list f64;
  cdpp6 : f64;
  cdppv : f64;
  time : list f64;
  fraw : list f64;
  fraw_err : list f64;
  model : list f64;
  nanmask : list Z;
  badmask : list Z;
  transitmask : list Z;
  outmask : list Z
}.

(** Attribute assignments. *)
Definition set_model (self : Detrender) (v : list f64) : Detrender :=
  {| lambda_arr := lambda_arr self; leps := leps self;
     osigma := osigma self; oiter := oiter self; cdivs := cdivs self;
     giter := giter self; optimize_gp := optimize_gp self;
     kernel_params := kernel_params self; bpad := bpad self;
     breakpoints := breakpoints self; pld_order := pld_order self;
     lam_idx := lam_idx self; lam := lam self; cdpp6_arr := cdpp6_arr self;
     cdppr_arr := cdppr_arr self; cdppv_arr := cdppv_arr self;
     cdpp6 := cdpp6 self; cdppv := cdppv self; time := time self;
     fraw := fraw self; fraw_err := fraw_err self; model := v;
     nanmask := nanmask self; badmask := badmask self;
     transitmask := transitmask self; outmask := outmask self |}.

Definition set_outmask (self : Detrender) (v : list Z) : Detrender :=
  {| lambda_arr := lambda_arr self; leps := leps self;
     osigma := osigma self; oiter := oiter self; cdivs := cdivs self;
     giter := giter self; optimize_gp := optimize_gp self;
     kernel_params := kernel_params self; bpad := bpad self;
     breakpoints := breakpoints self; pld_order := pld_order self;
     lam_idx := lam_idx self; lam := lam self; cdpp6_arr := cdpp6_arr self;
     cdppr_arr := cdppr_arr self; cdppv_arr := cdppv_arr self;
     cdpp6 := cdpp6 self; cdppv := cdppv self; time := time self;
     fraw := fraw self; fraw_err := fraw_err self; model := model self;
     nanmask := nanmask self; badmask := badmask self;
     transitmask := transitmask self; outmask := v |}.

Definition set_lam (self : Detrender) (v : list (list (option f64))) : Detrender :=
  {| lambda_arr := lambda_arr self; leps := leps self;
     osigma := osigma self; oiter := oiter self; cdivs := cdivs self;
     giter := giter self; optimize_gp := optimize_gp self;
     kernel_params := kernel_params self; bpad := bpad self;
     breakpoints := breakpoints self; pld_order := pld_order self;
     lam_idx := lam_idx self; lam := v; cdpp6_arr := cdpp6_arr self;
     cdppr_arr := cdppr_arr self; cdppv_arr := cdppv_arr self;
     cdpp6 := cdpp6 self; cdppv := cdppv self; time := time self;
     fraw := fraw self; fraw_err := fraw_err self; model := model self;
     nanmask := nanmask self; badmask := badmask self;
     transitmask := transitmask self; outmask := outmask self |}.

Definition set_cdppv_arr (self : Detrender) (v : list f64) : Detrender :=
  {| lambda_arr := lambda_arr self; leps := leps self;
     osigma := osigma self; oiter := oiter self; cdivs := cdivs self;
     giter := giter self; optimize_gp := optimize_gp self;
     kernel_params := kernel_params self; bpad := bpad self;
     breakpoints := breakpoints self; pld_order := pld_order self;
     lam_idx := lam_idx self; lam := lam self; cdpp6_arr := cdpp6_arr self;
     cdppr_arr := cdppr_arr self; cdppv_arr := v; cdpp6 := cdpp6 self;
     cdppv := cdppv self; time := time self; fraw := fraw self;
     fraw_err := fraw_err self; model := model self;
     nanmask := nanmask self; badmask := badmask self;
     transitmask := transitmask self; outmask := outmask self |}.

Definition set_kernel_params (self : Detrender) (v : option (list f64)) : Detrender :=
  {| lambda_arr := lambda_arr self; leps := leps self;
     osigma := osigma self; oiter := oiter self; cdivs := cdivs self;
     giter := giter self; optimize_gp := optimize_gp self;
     kernel_params := v; bpad := bpad self; breakpoints := breakpoints self;
     pld_order := pld_order self; lam_idx := lam_idx self; lam := lam self;
     cdpp6_arr := cdpp6_arr self; cdppr_arr := cdppr_arr self;
     cdppv_arr := cdppv_arr self; cdpp6 := cdpp6 self; cdppv := cdppv self;
     time := time self; fraw := fraw self; fraw_err := fraw_err self;
     model := model self; nanmask := nanmask self; badmask := badmask self;
     transitmask := transitmask self; outmask := outmask self |}.

Definition set_lam_idx (self : Detrender) (v : Z) : Detrender :=
  {| lambda_arr := lambda_arr self; leps := leps self;
     osigma := osigma self; oiter := oiter self; cdivs := cdivs self;
     giter := giter self; optimize_gp := optimize_gp self;
     kernel_params := kernel_params self; bpad := bpad self;
     breakpoints := breakpoints self; pld_order := pld_order self;
     lam_idx := v; lam := lam self; cdpp6_arr := cdpp6_arr self;
     cdppr_arr := cdppr_arr self; cdppv_arr := cdppv_arr self;
     cdpp6 := cdpp6 self; cdppv := cdppv self; time := time self;
     fraw := fraw self; fraw_err := fraw_err self; model := model self;
     nanmask := nanmask self; badmask := badmask self;
     transitmask := transitmask self; outmask := outmask self |}.

Definition set_cdpp6_arr (self : Detrender) (v : list f64) : Detrender :=
  {| lambda_arr := lambda_arr self; leps := leps self;
     osigma := osigma self; oiter := oiter self; cdivs := cdivs self;
     giter := giter self; optimize_gp := optimize_gp self;
     kernel_params := kernel_params self; bpad := bpad self;
     breakpoints := breakpoints self; pld_order := pld_order self;
     lam_idx := lam_idx self; lam := lam self; cdpp6_arr := v;
     cdppr_arr := cdppr_arr self; cdppv_arr := cdppv_arr self;
     cdpp6 := cdpp6 self; cdppv := cdppv self; time := time self;
     fraw := fraw self; fraw_err := fraw_err self; model := model self;
     nanmask := nanmask self; badmask := badmask self;
     transitmask := transitmask self; outmask := outmask self |}.

Definition set_cdpp6 (self : Detrender) (v : f64) : Detrender :=
  {| lambda_arr := lambda_arr self; leps := leps self;
     osigma := osigma self; oiter := oiter self; cdivs := cdivs self;
     giter := giter self; optimize_gp := optimize_gp self;
     kernel_params := kernel_params self; bpad := bpad self;
     breakpoints := breakpoints self; pld_order := pld_order self;
     lam_idx := lam_idx self; lam := lam self; cdpp6_arr := cdpp6_arr self;
     cdppr_arr := cdppr_arr self; cdppv_arr := cdppv_arr self; cdpp6 := v;
     cdppv := cdppv self; time := time self; fraw := fraw self;
     fraw_err := fraw_err self; model := model self;
     nanmask := nanmask self; badmask := badmask self;
     transitmask := transitmask self; outmask := outmask self |}.

Definition set_cdppv (self : Detrender) (v : f64) : Detrender :=
  {| lambda_arr := lambda_arr self; leps := leps self;
     osigma := osigma self; oiter := oiter self; cdivs := cdivs self;
     giter := giter self; optimize_gp := optimize_gp self;
     kernel_params := kernel_params self; bpad := bpad self;
     breakpoints := breakpoints self; pld_order := pld_order self;
     lam_idx := lam_idx self; lam := lam self; cdpp6_arr := cdpp6_arr self;
     cdppr_arr := cdppr_arr self; cdppv_arr := cdppv_arr self;
     cdpp6 := cdpp6 self; cdppv := v; time := time self; fraw := fraw self;
     fraw_err := fraw_err self; model := model self;
     nanmask := nanmask self; badmask := badmask self;
     transitmask := transitmask self; outmask := outmask self |}.

(** Modelled from the spec: the [flux] property of basecamp.py, which is
    not among the sources; the detrended flux is the raw flux minus the
    fitted model. *)
Definition flux (self : Detrender) : result (list f64) :=
  vec_op fsub (fraw self) (model self).

(** The [breakpoints] keyword: [True], a list of cadences, or anything
    else. *)
Inductive bkpts_arg : Type :=
| BkTrue
| BkList (l : list Z)
| BkOther.

(** The keyword arguments of the constructor that reach the engine; [None]
    stands for an absent keyword. *)
Record kwargs : Type := mk_kwargs {
  kw_lambda_arr : option (list f64);
  kw_leps : option f64;
  kw_osigma : option f64;
  kw_oiter : option Z;
  kw_cdivs : option Z;
  kw_giter : option nat;
  kw_optimize_gp : option bool;
  kw_kernel_params : option (list f64);
  kw_bpad : option Z;
  kw_breakpoints : option bkpts_arg;
  kw_pld_order : option Z
}.

(** [kwargs.get(key, default)] *)
Definition kw_get {A} (v : option A) (default : A) : A :=
  match v with Some x => x | None => default end.

Section Init.

(** NumPy's [10 ** x] on [float64]. *)
Variable pow10 : Q -> f64.

(** [Breakpoints(ID, cadence)] of the mission module. *)
Variable mission_breakpoints : list Z.

(** [10 ** np.arange(0,18,0.5)] *)
Definition default_lambda_arr : list f64 :=
  map pow10 (np_arange 0 18 (1 # 2)).

(** Lines 147-149:
    [self.lambda_arr = kwargs.get('lambda_arr', 10 ** np.arange(0,18,0.5))]
    [if self.lambda_arr[0] != 0: self.lambda_arr = np.append(0, self.lambda_arr)] *)
Definition init_lambda_arr (kw : option (list f64)) : result (list f64) :=
  let lambda_arr := kw_get kw default_lambda_arr in
  (x <- getitem lambda_arr 0 ;;
   if fne x (Fin 0) then Ok (Fin 0 :: lambda_arr) else Ok lambda_arr)%res.

(** The table as the constructor leaves it:
    [[[1e5] + [None for i in range(pld_order - 1)] for b in range(nseg)]] *)
Definition init_lam (pld_order : Z) (nseg : nat) : list (list (option f64)) :=
  repeat (Some (Fin 100000) :: repeat None (Z.to_nat (pld_order - 1))) nseg.

(** [Detrender.__init__], the part that sets the engine's attributes. *)
Definition Detrender_init (kw : kwargs) : result Detrender :=
  (lambda_arr <- init_lambda_arr (kw_lambda_arr kw) ;;
   let breakpoints :=
     match kw_get (kw_breakpoints kw) BkTrue with
     | BkTrue => mission_breakpoints ++ [999999%Z]
     | BkList bkpts => bkpts ++ [999999%Z]
     | BkOther => [999999%Z]
     end in
   let nseg := length breakpoints in
   let pld_order := kw_get (kw_pld_order kw) 3%Z in
   if negb (pld_order >? 0)%Z then Raise AssertionError
   else
     Ok {| lambda_arr := lambda_arr;
           leps := kw_get (kw_leps kw) (round64 (5 # 100));
           osigma := kw_get (kw_osigma kw) (Fin 5);
           oiter := kw_get (kw_oiter kw) 10%Z;
           cdivs := kw_get (kw_cdivs kw) 3%Z;
           giter := kw_get (kw_giter kw) 3;
           optimize_gp := kw_get (kw_optimize_gp kw) true;
           kernel_params := kw_kernel_params kw;
           bpad := kw_get (kw_bpad kw) 100%Z;
           breakpoints := breakpoints;
           pld_order := pld_order;
           lam_idx := (-1)%Z;
           lam := init_lam pld_order nseg;
           cdpp6_arr := repeat NaN nseg;
           cdppr_arr := repeat NaN nseg;
           cdppv_arr := repeat NaN nseg;
           cdpp6 := NaN;
           cdppv := NaN;
           time := [];
           fraw := [];
           fraw_err := [];
           model := [];
           nanmask := [];
           badmask := [];
           transitmask := [];
           outmask := [] |})%res.

End Init.

(* ================================================================== *)
(** ** A small light curve for examples *)

(** Four cadences in one segment, the third one far off. *)
Definition small_self : Detrender :=
  {| lambda_arr := [Fin 0; Fin 1; Fin 100000];
     leps := round64 (5 # 100); osigma := Fin 5; oiter := 3%Z; cdivs := 3%Z;
     giter := 1; optimize_gp := false;
     kernel_params := Some [Fin 1; Fin 1; Fin 30];
     bpad := 100%Z; breakpoints := [3%Z]; pld_order := 2%Z; lam_idx := 0%Z;
     lam := [[Some (Fin 100000); None]];
     cdpp6_arr := [NaN]; cdppr_arr := [NaN]; cdppv_arr := [NaN];
     cdpp6 := NaN; cdppv := NaN;
     time := [Fin 0; Fin 1; Fin 2; Fin 3];
     fraw := [Fin 10; Fin 10; Fin 50; Fin 10];
     fraw_err := [Fin 1; Fin 1; Fin 1; Fin 1];
     model := [Fin 0; Fin 0; Fin 0; Fin 0];
     nanmask := []; badmask := []; transitmask := []; outmask := [] |}.

(* ================================================================== *)
(** ** Methods that assign attributes *)

(** A method body: it reads and assigns attributes of [self], and returns
    or raises; an exception leaves the assignments made so far in place. *)
Definition M (A : Type) : Type := Detrender -> result A * Detrender.

Definition mret {A} (a : A) : M A := fun s => (Ok a, s).

Definition mbind {A B} (m : M A) (f : A -> M B) : M B :=
  fun s => match m s with
           | (Ok a, s') => f a s'
           | (Raise e, s') => (Raise e, s')
           end.

Definition mget : M Detrender := fun s => (Ok s, s).

Definition mlift {A} (r : result A) : M A := fun s => (r, s).

Declare Scope m_scope.
Delimit Scope m_scope with M.
Notation "x <- c ;; k" := (mbind c (fun x => k))
  (at level 61, c at next level, right associativity) : m_scope.
Notation "' p <- c ;; k" := (mbind c (fun v => match v with p => k end))
  (at level 61, p pattern, c at next level, right associativity) : m_scope.
Notation "c ;;; k" := (mbind c (fun _ => k))
  (at level 61, right associativity) : m_scope.

(** [for x in xs: body(x)] *)
Fixpoint mfor {A} (xs : list A) (body : A -> M unit) : M unit :=
  match xs with
  | [] => mret tt
  | x :: t => (body x ;;; mfor t body)%M
  end.

(** A [for] loop that also updates local variables [acc]. *)
Fixpoint mfold {A S} (xs : list A) (acc : S) (body : S -> A -> M S) : M S :=
  match xs with
  | [] => mret acc
  | x :: t => (acc' <- body acc x ;; mfold t acc' body)%M
  end.

(** [enumerate(l)] *)
Definition enumerate {A} (l : list A) : list (nat * A) :=
  combine (seq 0 (length l)) l.

(** [self.lam[b][self.lam_idx] = v] *)
Definition assign_lam (b : nat) (v : f64) : M unit :=
  fun s =>
    match nth_error (lam s) b with
    | None => (Raise IndexError, s)
    | Some row =>
        match setitem row (lam_idx s) (Some v) with
        | Raise e => (Raise e, s)
        | Ok row' => (Ok tt, set_lam s (list_set (lam s) b row'))
        end
    end.

(** [self.cdppv_arr[b] = v] *)
Definition assign_cdppv (b : nat) (v : f64) : M unit :=
  fun s =>
    match setitem (cdppv_arr s) (Z.of_nat b) v with
    | Raise e => (Raise e, s)
    | Ok a => (Ok tt, set_cdppv_arr s a)
    end.

(** [self.outmask = inds] *)
Definition assign_outmask (inds : list Z) : M unit :=
  fun s => (Ok tt, set_outmask s inds).

(** Modelled from the spec: [compute()] of basecamp.py, which is not among
    the sources; it recomputes the fitted model from the table, the masks
    and the kernel (the function [compute_model] of the object) and stores
    it in [self.model]. *)
Definition do_compute (compute_model : Detrender -> result (list f64))
  : M unit :=
  fun s => match compute_model s with
           | Ok m => (Ok tt, set_model s m)
           | Raise e => (Raise e, s)
           end.

(* ================================================================== *)
(** ** [Detrender.optimize_lambda] *)

Section OptimizeLambda.

(** [self.leps] *)
Variable leps : f64.

(** [(validation[:,n] - validation[m,n]) / validation[m,n] <= self.leps] *)
Definition within_leps (col : list f64) (m : nat) : list bool :=
  let vm := nth m col NaN in
  map (fun v => fle (fdiv64 (fsub64 v vm) vm) leps) col.

(** One turn of the loop over the columns; the state is [(maxm, minr)]. *)
Definition ol_body (validation : ndarray2) (st : nat * nat) (n : nat)
  : result (nat * nat) :=
  let '(maxm, minr) := st in
  let col := column validation n in
  (m <- nanargmin col ;;
   let maxm := if maxm <? m then m else maxm in
   r <- last_item (np_where (within_leps col m)) ;;
   let minr := if r <? minr then r else minr in
   Ok (maxm, minr))%res.

(** [for n in range(validation.shape[1])] *)
Fixpoint ol_loop (validation : ndarray2) (st : nat * nat) (ns : list nat)
  : result (nat * nat) :=
  match ns with
  | [] => Ok st
  | n :: ns' =>
      (st' <- ol_body validation st n ;; ol_loop validation st' ns')%res
  end.

Definition optimize_lambda (validation : ndarray2) : result nat :=
  let maxm := 0 in
  let minr := len2 validation in
  ('(maxm, minr) <- ol_loop validation (maxm, minr)
                      (seq 0 (ncols validation)) ;;
   Ok (Nat.min maxm minr))%res.

End OptimizeLambda.

(** *** The selection rule in the words of the specification *)

(** [m] is the row index of the minimum scatter of column [c]: the entry is
    a number, no entry is smaller, and it is the first such row. *)
Definition col_min_at (c : list f64) (m : nat) : Prop :=
  m < length c /\
  is_nan (nth m c NaN) = false /\
  (forall j, j < length c ->
     is_nan (nth j c NaN) = true \/ fle (nth m c NaN) (nth j c NaN) = true) /\
  (forall j, j < m ->
     is_nan (nth j c NaN) = true \/ flt (nth m c NaN) (nth j c NaN) = true).

(** Row [i] is within fractional tolerance [leps] of the minimum at [m],
    the ratio being the one that [float64] arithmetic gives. *)
Definition tol_ok (leps : f64) (c : list f64) (m i : nat) : Prop :=
  fle (fdiv64 (fsub64 (nth i c NaN) (nth m c NaN)) (nth m c NaN)) leps = true.

(** [r] is the largest row index within tolerance of the column minimum. *)
Definition last_tol (leps : f64) (c : list f64) (r : nat) : Prop :=
  exists m, col_min_at c m /\ r < length c /\ tol_ok leps c m r /\
            forall i, i < length c -> tol_ok leps c m i -> i <= r.

Definition max_over_columns (P : list f64 -> nat -> Prop)
  (M : ndarray2) (x : nat) : Prop :=
  (exists n, n < ncols M /\ P (column M n) x) /\
  (forall n y, n < ncols M -> P (column M n) y -> y <= x).

Definition min_over_columns (P : list f64 -> nat -> Prop)
  (M : ndarray2) (x : nat) : Prop :=
  (exists n, n < ncols M /\ P (column M n) x) /\
  (forall n y, n < ncols M -> P (column M n) y -> x <= y).

(** Every column has a strictly positive finite minimum. *)
Definition positive_minima (M : ndarray2) : Prop :=
  forall n, n < ncols M ->
    exists m, col_min_at (column M n) m /\ pos_finite (nth m (column M n) NaN).

(** The indices chosen for one segment over successive PLD orders:
    [Detrender.run] calls [cross_validate] once per order, and
    [cross_validate] calls [optimize_lambda] on that order's validation
    matrix.  [optimize_lambda] starts every call from [maxm = 0] and
    [minr = len(validation)]. *)
Definition chosen_per_order (leps : f64) (validations : list ndarray2)
  : list (result nat) :=
  map (optimize_lambda leps) validations.

(* ================================================================== *)
(** ** [gp.GetCovariance] *)

(** [white, amp, tau = kernel_params]: [None] cannot be unpacked, and a
    sequence must have exactly three elements. *)
Definition unpack3 (kernel_params : option (list f64))
  : result (f64 * f64 * f64) :=
  match kernel_params with
  | None => Raise TypeError
  | Some [white; amp; tau] => Ok (white, amp, tau)
  | Some _ => Raise ValueError
  end.

Section Covariance.

(** The value [k(t1, t2)] of george's [Matern32Kernel(metric)]. *)
Variable Matern32Kernel : f64 -> f64 -> f64 -> f64.

(** [george.GP(amp ** 2 * Matern32Kernel(tau ** 2)).get_matrix(time)] *)
Definition gp_get_matrix (amp tau : f64) (time : list f64) : ndarray2 :=
  mk_ndarray2 (length time)
    (map (fun t1 =>
            map (fun t2 =>
                   (fpow2 amp * Matern32Kernel (fpow2 tau) t1 t2)%f64)
                time)
         time).

Definition GetCovariance (kernel_params : option (list f64))
  (time errors : list f64) : result ndarray2 :=
  ('(white, amp, tau) <- unpack3 kernel_params ;;
   let K := np_diag (map fpow2 errors) in
   iadd K (gp_get_matrix amp tau time))%res.

End Covariance.

(* ================================================================== *)
(** ** [gp.GetKernelParams] *)

(** The three [[lower, upper]] pairs handed to the optimizer. *)
Definition bounds_t : Type := list (f64 * f64).

Section KernelParams.

(** [scipy.signal.savgol_filter(x, window, order)] *)
Variable savgol_filter : list f64 -> nat -> nat -> result (list f64).

(** [np.nanstd] *)
Variable nanstd : list f64 -> f64.

(** [Chunks] of math.py. *)
Variable Chunks : list f64 -> Z -> result (list (list f64)).

(** [np.random.randn()] and [np.random.random()] when [k] numbers have
    been drawn from the generator so far. *)
Variable randn : nat -> f64.
Variable random : nat -> f64.

(** [fmin_l_bfgs_b(NegLnLike, iguess, approx_grad = False, bounds = bounds,
    args = (time, flux, errors), maxfun = 200)]: the point found and the
    value of the objective there. *)
Variable fmin_l_bfgs_b :
  list f64 -> bounds_t -> list f64 -> list f64 -> list f64 ->
  result (list f64 * f64).

(** Lines 44-56: the mask is applied, then the points further than 5
    robust sigmas from the smoothed flux are removed. *)
Definition clean_inputs (time flux errors : list f64) (mask : list Z)
  : result (list f64 * list f64 * list f64) :=
  (time <- np_delete time mask ;;
   flux <- np_delete flux mask ;;
   errors <- np_delete errors mask ;;
   sg <- savgol_filter flux 49 2 ;;
   d <- vec_op fsub flux sg ;;
   let f := map (fun x => x + nanmedian flux)%f64 d in
   let med := nanmedian f in
   let MAD := (Fin (14826 # 10000) *
               nanmedian (map (fun x => fabs (x - med)) f))%f64 in
   let mask := map Z.of_nat (np_where
     (map (fun x => flt (med + Fin 5 * MAD) x
                    || flt x (med - Fin 5 * MAD))%f64 f)) in
   time <- np_delete time mask ;;
   flux <- np_delete flux mask ;;
   errors <- np_delete errors mask ;;
   Ok (time, flux, errors))%res.

(** Lines 59-61: [white] and [amp], computed from the cleaned flux. *)
Definition data_white (flux : list f64) : result f64 :=
  (cs <- Chunks flux 13 ;; Ok (nanmedian (map nanstd cs)))%res.

Definition data_amp (flux : list f64) : f64 := nanstd flux.

(** Lines 66-68. *)
Definition make_bounds (white amp : f64) : bounds_t :=
  [ (Fin (1 # 10) * white, Fin 10 * white)%f64;
    (Fin 1, Fin 10000 * amp)%f64;
    (Fin (1 # 2), Fin 100) ].

(** Lines 78-84, the [while] loop for one parameter: [tries] counts the
    draws made, [budget] is what is left of the 101 draws allowed, and [g]
    is [guess[j]], evaluated when a draw is made. *)
Fixpoint jitter (budget tries rng : nat) (cur lo hi : f64) (g : result f64)
  : result (f64 * nat) :=
  if flt cur lo || flt hi cur then
    match budget with
    | 0 => Ok (cur, rng)
    | S budget' =>
        (gj <- g ;;
         let cur := ((Fin 1 + Fin (1 # 2) * randn rng) * gj)%f64 in
         let rng := S rng in
         let tries := S tries in
         if 100 <? tries
         then Ok ((lo + random rng * (hi - lo))%f64, S rng)
         else jitter budget' tries rng cur lo hi g)%res
    end
  else Ok (cur, rng).

(** Lines 76-84: [iguess], one parameter after the other, from
    [[inf, inf, inf]]. *)
Fixpoint randomize (j rng : nat) (bounds : bounds_t) (guess : list f64)
  : result (list f64 * nat) :=
  match bounds with
  | [] => Ok ([], rng)
  | (lo, hi) :: bounds' =>
      ('(x, rng) <- jitter 101 0 rng PInf lo hi
                      (getitem guess (Z.of_nat j)) ;;
       '(xs, rng) <- randomize (S j) rng bounds' guess ;;
       Ok (x :: xs, rng))%res
  end.

(** The variables of the loop over the restarts, and the calls made to
    the optimizer so far, each with its initial point and its bounds. *)
Record restarts : Type := mk_restarts {
  rng_draws : nat;
  llbest : f64;
  xbest : list f64;
  calls : list (list f64 * bounds_t)
}.

(** Lines 73-99: [giter] restarts. *)
Fixpoint restart_loop (giter : nat) (st : restarts) (bounds : bounds_t)
  (guess time flux errors : list f64) : result restarts :=
  match giter with
  | 0 => Ok st
  | S giter' =>
      ('(iguess, rng) <- randomize 0 (rng_draws st) bounds guess ;;
       x <- fmin_l_bfgs_b iguess bounds time flux errors ;;
       let ll := fneg (snd x) in
       let st' :=
         if flt (llbest st) ll
         then mk_restarts rng ll (fst x) (calls st ++ [(iguess, bounds)])
         else mk_restarts rng (llbest st) (xbest st)
                (calls st ++ [(iguess, bounds)]) in
       restart_loop giter' st' bounds guess time flux errors)%res
  end.

Definition GetKernelParams (rng : nat) (time flux errors : list f64)
  (mask : list Z) (giter : nat) (guess : option (list f64))
  : result restarts :=
  ('(time, flux, errors) <- clean_inputs time flux errors mask ;;
   white <- data_white flux ;;
   let amp := data_amp flux in
   let tau := Fin 30 in
   let guess :=
     match guess with
     | None => [white; amp; tau]
     | Some g => g
     end in
   let bounds := make_bounds white amp in
   restart_loop giter (mk_restarts rng NInf guess []) bounds guess
     time flux errors)%res.

End KernelParams.

(** The bounds that the specification describes, around a guess. *)
Definition guess_bounds (guess : f64 * f64 * f64) : bounds_t :=
  let '(white, amp, tau) := guess in
  [ (Fin (1 # 10) * white, Fin 10 * white)%f64;
    (Fin 1, Fin 10000 * amp)%f64;
    (Fin (1 # 2), Fin 100) ].

(** Consecutive pieces of [n] elements, the last one possibly shorter. *)
Fixpoint chunks_of {A} (fuel n : nat) (l : list A) : list (list A) :=
  match fuel, l with
  | 0, _ | _, [] => []
  | S fuel', _ => firstn n l :: chunks_of fuel' n (skipn n l)
  end.

(* ================================================================== *)
(** ** [Detrender.cv_compute] *)

(** [[l * a for l, a in zip(lam_b, A) if l is not None]]; an entry of [A]
    is [None] above the current order, and [float * None] is a
    [TypeError]. *)
Fixpoint weighted (lam_b : list (option f64)) (A : list (option ndarray2))
  : result (list ndarray2) :=
  match lam_b, A with
  | l :: lam', a :: A' =>
      match l with
      | None => weighted lam' A'
      | Some l =>
          match a with
          | None => Raise TypeError
          | Some a => (r <- weighted lam' A' ;; Ok (mat_scale l a :: r))%res
          end
      end
  | _, _ => Ok []
  end.

Section CvCompute.

(** [np.linalg.solve] *)
Variable linalg_solve : ndarray2 -> list f64 -> result (list f64).

Definition cv_compute (self : Detrender) (b : nat)
  (A B : list (option ndarray2)) (mK : ndarray2) (f : list f64)
  : result (list f64) :=
  match nth_error (lam self) b with
  | None => Raise IndexError
  | Some lam_b =>
      (As <- weighted lam_b A ;;
       A <- np_sum_axis0 As ;;
       Bs <- weighted lam_b B ;;
       B <- np_sum_axis0 Bs ;;
       KA <- add_nd mK A ;;
       W <- linalg_solve KA f ;;
       model <- dot_nd B W ;;
       let med := nanmedian model in
       Ok (map (fun x => x - med)%f64 model))%res
  end.

End CvCompute.

(** *** The solver equations in the words of the specification *)

(** The terms [lam[b][n] * M[n][i,j]] of the sum over the orders [n] whose
    [lam[b][n]] is not null, in the order of [n]. *)
Fixpoint lam_terms (lam_b : list (option f64)) (Ms : list (option ndarray2))
  (i j : nat) : list f64 :=
  match lam_b, Ms with
  | Some l :: lam', Some a :: Ms' =>
      (l * entry a i j)%f64 :: lam_terms lam' Ms' i j
  | _ :: lam', _ :: Ms' => lam_terms lam' Ms' i j
  | _, _ => []
  end.

(** A sum of terms, taken from the first one on. *)
Definition sum_terms (l : list f64) : f64 :=
  match l with
  | [] => Fin 0
  | x :: t => fold_left fadd t x
  end.

(** [Sigma_n lam[b][n] * M[n]] as an [nr] x [nc] array. *)
Definition lam_total (nr nc : nat) (lam_b : list (option f64))
  (Ms : list (option ndarray2)) : ndarray2 :=
  mk_ndarray2 nc
    (map (fun i => map (fun j => sum_terms (lam_terms lam_b Ms i j))
                       (seq 0 nc))
         (seq 0 nr)).

(** [K + A] entry by entry. *)
Definition plus_entries (nr nc : nat) (K A : ndarray2) : ndarray2 :=
  mk_ndarray2 nc
    (map (fun i => map (fun j => (entry K i j + entry A i j)%f64) (seq 0 nc))
         (seq 0 nr)).

(** Every order with a non-null [lam[b][n]] has its array, of shape
    [nr] x [nc]. *)
Fixpoint orders_ready (nr nc : nat) (lam_b : list (option f64))
  (Ms : list (option ndarray2)) : Prop :=
  match lam_b, Ms with
  | Some _ :: lam', Some a :: Ms' =>
      len2 a = nr /\ ncols a = nc /\ rectangular a /\
      orders_ready nr nc lam' Ms'
  | Some _ :: _, None :: _ => False
  | None :: lam', _ :: Ms' => orders_ready nr nc lam' Ms'
  | _, _ => True
  end.

(** An [nr] x [nc] array. *)
Definition shaped (nr nc : nat) (a : ndarray2) : Prop :=
  len2 a = nr /\ ncols a = nc /\ rectangular a.

(** The number of orders that enter the sum. *)
Fixpoint active_orders (lam_b : list (option f64)) (Ms : list (option ndarray2))
  : nat :=
  match lam_b, Ms with
  | Some _ :: lam', _ :: Ms' => S (active_orders lam' Ms')
  | None :: lam', _ :: Ms' => active_orders lam' Ms'
  | _, _ => 0
  end.

(** [model - median(model)] *)
Definition recenter (model : list f64) : list f64 :=
  map (fun x => x - nanmedian model)%f64 model.

(** [B . W] row by row. *)
Definition times_vector (B : ndarray2) (W : list f64) : list f64 :=
  map (fun r => dot1 r W) (rows B).

(* ================================================================== *)
(** ** [Detrender.get_outliers] *)

(** How the loop of [get_outliers] was left. *)
Inductive exit_reason : Type :=
| FixedPoint    (* the [while] condition failed *)
| MaxIter       (* "Maximum number of iterations ... exceeded" *)
| Circles.      (* "... is going in circles" *)

Record outliers_exit : Type := mk_outliers_exit {
  history : list (list Z);      (* the local list [outmask] *)
  reason : exit_reason;
  entries : nat                 (* how often the loop body was entered *)
}.

Section GetOutliers.

(** The model computation behind [compute()] of basecamp.py. *)
Variable compute_model : Detrender -> result (list f64).

(** [SavGol] of math.py, a Savitzky-Golay filter. *)
Variable SavGol : list f64 -> list f64.

(** [M = lambda x: np.delete(x, np.concatenate([self.nanmask, self.badmask]), axis = 0)] *)
Definition og_M {A} (self : Detrender) (x : list A) : result (list A) :=
  np_delete x (nanmask self ++ badmask self).

(** [np.array([np.argmax(self.time == t[i]) for i in inds])] *)
Fixpoint project_inds (self : Detrender) (t : list f64) (inds : list nat)
  : result (list Z) :=
  match inds with
  | [] => Ok []
  | i :: rest =>
      (ti <- getitem t (Z.of_nat i) ;;
       k <- argmax_bool (map (fun x => feq x ti) (time self)) ;;
       ks <- project_inds self t rest ;;
       Ok (Z.of_nat k :: ks))%res
  end.

(** Lines 292-306, one pass of the body after the two checks; it returns
    the new outlier set. *)
Definition clip_once (t : list f64) : M (list Z) :=
  (do_compute compute_model ;;;
   self <- mget ;;
   fl <- mlift (flux self) ;;
   mf <- mlift (og_M self fl) ;;
   let f := SavGol mf in
   let med := nanmedian f in
   let MAD := (Fin (14826 # 10000) *
               nanmedian (map (fun x => fabs (x - med)) f))%f64 in
   let inds := np_where
     (map (fun x => flt (med + osigma self * MAD) x
                    || flt x (med - osigma self * MAD))%f64 f) in
   inds <- mlift (project_inds self t inds) ;;
   assign_outmask inds ;;;
   mret inds)%M.

(** The [while] loop: [fuel] bounds the number of times the condition is
    tested; [None] means the fuel ran out.  [entered] counts the times the
    body was entered so far: the body is entered when the condition holds,
    also when it is then left at once by one of the two [break]s. *)
Fixpoint outliers_loop (fuel : nat) (t : list f64) (outmask : list (list Z))
  (entered : nat) (self : Detrender)
  : option (result outliers_exit * Detrender) :=
  match fuel with
  | 0 => None
  | S fuel' =>
      match rev outmask with
      | last :: prev :: earlier =>
          if array_equal prev last
          then Some (Ok (mk_outliers_exit outmask FixedPoint entered), self)
          else if (Z.of_nat (length outmask) - 1 >? oiter self)%Z
          then Some (Ok (mk_outliers_exit outmask MaxIter (S entered)), self)
          else if existsb (array_equal last) (prev :: earlier)
          then Some (Ok (mk_outliers_exit outmask Circles (S entered)), self)
          else
            match clip_once t self with
            | (Raise e, self') => Some (Raise e, self')
            | (Ok inds, self') =>
                outliers_loop fuel' t (outmask ++ [inds]) (S entered) self'
            end
      | _ => Some (Raise IndexError, self)
      end
  end.

Definition get_outliers_fuel (fuel : nat) (self : Detrender)
  : option (result outliers_exit * Detrender) :=
  match og_M self (time self) with
  | Raise e => Some (Raise e, self)
  | Ok t =>
      let outmask := [ [(-1)%Z]; outmask self ] in
      outliers_loop fuel t outmask 0 self
  end.

(** The number of passes through the body that computed a new outlier
    set: the history starts with two entries and gains one per pass. *)
Definition passes (r : outliers_exit) : nat := length (history r) - 2.

(** [get_outliers] as a method, with the fuel that always suffices. *)
Definition get_outliers : M unit :=
  fun self =>
    match get_outliers_fuel (Z.to_nat (oiter self) + 1) self with
    | Some (Ok _, s) => (Ok tt, s)
    | Some (Raise e, s) => (Raise e, s)
    | None => (Raise ValueError, self)
    end.

End GetOutliers.

(** *** The exits of [get_outliers] in the words of the specification *)

(** The newly computed set equals the previous iteration's set. *)
Definition last_two_equal (h : list (list Z)) : Prop :=
  exists pre a, h = pre ++ [a; a].

(** The current set matches an earlier iteration's set. *)
Definition last_matches_earlier (h : list (list Z)) : Prop :=
  exists pre a, h = pre ++ [a] /\ In a pre.

(** The iteration count [len(outmask) - 1] exceeds the cap [o]. *)
Definition over_cap (o : Z) (h : list (list Z)) : Prop :=
  (Z.of_nat (length h) - 1 > o)%Z.

(** One of the three conditions under which the loop is left holds of the
    list [h]. *)
Definition stops_at (o : Z) (h : list (list Z)) : Prop :=
  last_two_equal h \/ over_cap o h \/ last_matches_earlier h.

(** The loop went on to [h] only while none of the three conditions held:
    none holds of a list the loop had before [h] (the proper prefixes of
    [h] with two entries at least). *)
Definition went_on_to (o : Z) (h : list (list Z)) : Prop :=
  forall p post, h = p ++ post -> post <> [] -> 2 <= length p ->
                 ~ stops_at o p.

(** What holds when the loop is left with history [h] for the cap [o]: the
    condition of the exit taken holds and those tested before it do not,
    and the body was entered once per set computed, and once more when the
    loop is left by a [break]. *)
Definition exit_ok (o : Z) (r : result outliers_exit) : Prop :=
  match r with
  | Raise _ => True
  | Ok e =>
      went_on_to o (history e) /\
      (Z.of_nat (passes e) <= Z.max 0 o)%Z /\
      match reason e with
      | FixedPoint =>
          last_two_equal (history e) /\ entries e = passes e
      | MaxIter =>
          ~ last_two_equal (history e) /\ over_cap o (history e) /\
          entries e = S (passes e)
      | Circles =>
          ~ last_two_equal (history e) /\ ~ over_cap o (history e) /\
          last_matches_earlier (history e) /\ entries e = S (passes e)
      end
  end.

(** The small light curve with the cap of the outlier loop at one
    iteration. *)
Definition small_self_capped : Detrender :=
  {| lambda_arr := [Fin 0; Fin 1; Fin 100000];
     leps := round64 (5 # 100); osigma := Fin 5; oiter := 1%Z; cdivs := 3%Z;
     giter := 1; optimize_gp := false;
     kernel_params := Some [Fin 1; Fin 1; Fin 30];
     bpad := 100%Z; breakpoints := [3%Z]; pld_order := 2%Z; lam_idx := 0%Z;
     lam := [[Some (Fin 100000); None]];
     cdpp6_arr := [NaN]; cdppr_arr := [NaN]; cdppv_arr := [NaN];
     cdpp6 := NaN; cdppv := NaN;
     time := [Fin 0; Fin 1; Fin 2; Fin 3];
     fraw := [Fin 10; Fin 10; Fin 50; Fin 10];
     fraw_err := [Fin 1; Fin 1; Fin 1; Fin 1];
     model := [Fin 0; Fin 0; Fin 0; Fin 0];
     nanmask := []; badmask := []; transitmask := []; outmask := [] |}.

(* ================================================================== *)
(** ** [Detrender.cv_precompute] and [Detrender.cross_validate] *)

(** [np.dot(X, Y.T)] *)
Definition mat_mul_T (X Y : ndarray2) : result ndarray2 :=
  if ncols X =? ncols Y
  then Ok (mk_ndarray2 (len2 Y)
             (map (fun r => map (fun c => dot1 r c) (rows Y)) (rows X)))
  else Raise ValueError.

(** [np.delete(K, mask, axis = 1)] *)
Definition delete_axis1 (K : ndarray2) (mask : list Z) : result ndarray2 :=
  (ks <- positions (ncols K) mask ;;
   Ok (mk_ndarray2 (length (drop_positions 0 ks (seq 0 (ncols K))))
         (map (drop_positions 0 ks) (rows K))))%res.

(** [np.delete(K, mask, axis = 0)] *)
Definition delete_axis0 (K : ndarray2) (mask : list Z) : result ndarray2 :=
  (rs <- np_delete (rows K) mask ;; Ok (mk_ndarray2 (ncols K) rs))%res.

(** [np.max] and [np.min] of an array: a NaN wins, and an empty array is a
    [ValueError]. *)
Definition fmax (x y : f64) : f64 :=
  if is_nan x || is_nan y then NaN else if flt x y then y else x.

Definition fmin (x y : f64) : f64 :=
  if is_nan x || is_nan y then NaN else if flt y x then y else x.

Definition np_max (l : list f64) : result f64 :=
  match l with
  | [] => Raise ValueError
  | x :: t => Ok (fold_left fmax t x)
  end.

Definition np_min (l : list f64) : result f64 :=
  match l with
  | [] => Raise ValueError
  | x :: t => Ok (fold_left fmin t x)
  end.

(** The calls that [cross_validate] makes on the [matplotlib] axes, in
    blocks of consecutive lines, each with the values it is given:
    - [PlotScatter b log_lambda validation med_training med_validation
      log_lam v_best]: lines 446-451, the curves of segment [b] on [ax[b]];
    - [PlotLimits b lo hi rng]: lines 455-461;
    - [PlotTicks b xticks first last]: lines 465-471;
    - [PlotTidy]: lines 477-481;
    - [PlotLabels xticks]: lines 486-489;
    - [PlotLambda log_lam]: lines 495-499;
    - [PlotCdpp cdpp_arr cdppv_arr]: lines 504-510. *)
Inductive plot_cmd : Type :=
| PlotScatter (b : nat) (log_lambda : list f64) (validation : ndarray2)
    (med_training med_validation : list f64) (log_lam v_best : f64)
| PlotLimits (b : nat) (lo hi rng : f64)
| PlotTicks (b : nat) (xticks : list f64) (first last : f64)
| PlotTidy
| PlotLabels (xticks : list f64)
| PlotLambda (log_lam : list f64)
| PlotCdpp (cdpp_arr cdppv_arr : list f64).

Section CrossValidate.

(** [get_masked_chunk] of basecamp.py: the indices of the cadences of
    segment [b] that are in none of the masks; a function of the time
    array, the breakpoints, the pad and the four masks. *)
Variable get_masked_chunk :
  list f64 -> list Z -> Z -> list Z -> list Z -> list Z -> list Z ->
  nat -> list Z.

(** The design matrix [X(n, idx)] of pld.py. *)
Variable X : Detrender -> nat -> list Z -> result ndarray2.

(** [Chunks] of math.py. *)
Variable Chunks : list Z -> Z -> result (list (list Z)).

(** george: [GP(amp ** 2 * Matern32Kernel(tau ** 2))] computed on
    [(time, ferr)], then [predict(y, t)[0]]. *)
Variable Matern32Kernel : f64 -> f64 -> f64 -> f64.
Variable gp_predict :
  f64 -> f64 -> list f64 -> list f64 -> list f64 -> list f64 ->
  result (list f64).

Variable np_sqrt : f64 -> f64.
Variable linalg_solve : ndarray2 -> list f64 -> result (list f64).
Variable compute_model : Detrender -> result (list f64).

(** [np.log10], [10 ** x] and [np.linspace(a, b, n)]. *)
Variable np_log10 : f64 -> f64.
Variable power10 : f64 -> f64.
Variable np_linspace : f64 -> f64 -> nat -> list f64.

(** The axes [ax] that the caller passes: what a block of calls on them
    returns or raises. *)
Variable draw : plot_cmd -> result unit.

(** The method [get_cdpp_arr] of basecamp.py. *)
Variable get_cdpp_arr : Detrender -> list f64.

Definition masked_chunk (self : Detrender) (b : nat) : list Z :=
  get_masked_chunk (time self) (breakpoints self) (bpad self)
    (nanmask self) (badmask self) (transitmask self) (outmask self) b.

(** The loop of lines 242-249 for one order [n]. *)
Definition precompute_order (self : Detrender) (m1 m2 : list Z) (n : nat)
  : result (option ndarray2 * option ndarray2) :=
  if (lam_idx self >=? Z.of_nat n)%Z
  then (X2 <- X self n m2 ;;
        X1 <- X self n m1 ;;
        a <- mat_mul_T X2 X2 ;;
        b <- mat_mul_T X1 X2 ;;
        Ok (Some a, Some b))%res
  else Ok (None, None).

Fixpoint precompute_orders (self : Detrender) (m1 m2 : list Z)
  (ns : list nat) : result (list (option ndarray2) * list (option ndarray2)) :=
  match ns with
  | [] => Ok ([], [])
  | n :: t =>
      ('(a, b) <- precompute_order self m1 m2 n ;;
       '(A, B) <- precompute_orders self m1 m2 t ;;
       Ok (a :: A, b :: B))%res
  end.

Definition cv_precompute (self : Detrender) (mask : list Z) (b : nat)
  : result (list (option ndarray2) * list (option ndarray2)
            * ndarray2 * list f64) :=
  let m1 := masked_chunk self b in
  (flux <- take (fraw self) m1 ;;
   tm <- take (time self) m1 ;;
   er <- take (fraw_err self) m1 ;;
   K <- GetCovariance Matern32Kernel (kernel_params self) tm er ;;
   let med := nanmedian flux in
   m2 <- np_delete m1 mask ;;
   K0 <- delete_axis0 K mask ;;
   mK <- delete_axis1 K0 mask ;;
   fm <- np_delete flux mask ;;
   let f := map (fun x => x - med)%f64 fm in
   '(A, B) <- precompute_orders self m1 m2
                (seq 0 (Z.to_nat (pld_order self))) ;;
   Ok (A, B, mK, f))%res.

(** Lines 401-406 and 410-415: the scatter of one fit in the fold [mask]. *)
Definition fold_scatter (self : Detrender) (b : nat)
  (pre : list (option ndarray2) * list (option ndarray2)
         * ndarray2 * list f64)
  (amp tau : f64) (time flux ferr : list f64) (med : f64) (mask : list Z)
  : result f64 :=
  let '(A, B, mK, f) := pre in
  (model <- cv_compute linalg_solve self b A B mK f ;;
   d <- vec_op fsub flux model ;;
   tm <- take time mask ;;
   gpm <- gp_predict amp tau time ferr (map (fun x => x - med)%f64 d) tm ;;
   dm <- take d mask ;;
   fdet <- vec_op fsub dm gpm ;;
   let r := map (fun x => x / med)%f64 fdet in
   let mr := nanmedian r in
   Ok (Fin 1000000 *
       (Fin (14826 # 10000) * nanmedian (map (fun x => fabs (x - mr)) r) /
        np_sqrt (Fin (inject_Z (Z.of_nat (length mask))))))%f64)%res.

(** [l[k].append(x)] *)
Definition append_at (l : list (list f64)) (k : nat) (x : f64)
  : result (list (list f64)) :=
  match nth_error l k with
  | Some r => Ok (list_set l k (r ++ [x]))
  | None => Raise IndexError
  end.

(** Lines 393-416, the body of the loop over [lambda_arr] for one fold;
    the local variables are [(training, validation)]. *)
Definition cv_lambda_step (b : nat)
  (pre_t pre_v : list (option ndarray2) * list (option ndarray2)
                 * ndarray2 * list f64)
  (amp tau : f64) (time flux ferr : list f64) (med : f64) (mask : list Z)
  (tv : list (list f64) * list (list f64)) (kl : nat * f64)
  : M (list (list f64) * list (list f64)) :=
  let '(training, validation) := tv in
  let '(k, lam) := kl in
  (assign_lam b lam ;;;
   self <- mget ;;
   st <- mlift (fold_scatter self b pre_t amp tau time flux ferr med mask) ;;
   training <- mlift (append_at training k st) ;;
   sv <- mlift (fold_scatter self b pre_v amp tau time flux ferr med mask) ;;
   validation <- mlift (append_at validation k sv) ;;
   mret (training, validation))%M.

(** Lines 382-416, the body of the loop over the folds. *)
Definition cv_fold_step (b : nat) (amp tau : f64)
  (time flux ferr : list f64) (med : f64)
  (tv : list (list f64) * list (list f64)) (mask : list Z)
  : M (list (list f64) * list (list f64)) :=
  (self <- mget ;;
   pre_t <- mlift (cv_precompute self [] b) ;;
   pre_v <- mlift (cv_precompute self mask b) ;;
   mfold (enumerate (lambda_arr self)) tv
     (cv_lambda_step b pre_t pre_v amp tau time flux ferr med mask))%M.

(** [len(time) // self.cdivs] *)
Definition floordiv (a b : Z) : result Z :=
  if (b =? 0)%Z then Raise ZeroDivisionError else Ok (a / b)%Z.

(** Lines 437-471, the plot of one segment, which binds [xticks]; [l] is
    the value that line 432 has just stored in [self.lam[b][self.lam_idx]]
    and that line 449 reads back. *)
Definition plot_segment (self : Detrender) (b : nat)
  (validation training : list (list f64))
  (med_training med_validation : list f64) (l v_best : f64)
  : result (list f64) :=
  (l1 <- getitem (lambda_arr self) 1 ;;
   lambda_arr <- setitem (lambda_arr self) 0
                   (power10 (np_log10 l1 - Fin 3)%f64) ;;
   draw (PlotScatter b (map np_log10 lambda_arr) (np_array validation)
           med_training med_validation (np_log10 l) v_best) ;;;
   row0 <- getitem validation 0 ;;
   hi <- np_max row0 ;;
   lo <- np_min (concat training) ;;
   let rng := (hi - lo)%f64 in
   draw (PlotLimits b lo hi rng) ;;;
   l0 <- getitem lambda_arr 0 ;;
   l1 <- getitem lambda_arr 1 ;;
   ll <- getitem lambda_arr (-1) ;;
   let xticks := np_log10 l0 :: np_linspace (np_log10 l1) (np_log10 ll) 6 in
   draw (PlotTicks b xticks (np_log10 l0) (np_log10 ll)) ;;;
   Ok xticks)%res.

(** Lines 347-471, the body of the loop over the segments; [xticks] is the
    local variable of that name, [None] as long as no turn has bound it. *)
Definition cv_segment (xticks : option (list f64)) (b : nat)
  : M (option (list f64)) :=
  (self <- mget ;;
   let m := masked_chunk self b in
   if (Z.of_nat (length m) <? 3 * cdivs self)%Z
   then (assign_cdppv b NaN ;;;
         assign_lam b NInf ;;;
         mret xticks)
        (* continue *)
   else
     time <- mlift (take (time self) m) ;;
     flux <- mlift (take (fraw self) m) ;;
     ferr <- mlift (take (fraw_err self) m) ;;
     let med := nanmedian flux in
     let validation := map (fun _ => []) (lambda_arr self) in
     let training := map (fun _ => []) (lambda_arr self) in
     '(_, amp, tau) <- mlift (unpack3 (kernel_params self)) ;;
     n <- mlift (floordiv (Z.of_nat (length time)) (cdivs self)) ;;
     masks <- mlift (Chunks (map Z.of_nat (arange_nat (length time))) n) ;;
     '(training, validation) <-
        mfold masks (training, validation)
          (cv_fold_step b amp tau time flux ferr med) ;;
     let med_validation := map nanmean validation in
     let med_training := map nanmean training in
     i <- mlift (optimize_lambda (leps self) (np_array validation)) ;;
     v_best <- mlift (getitem med_validation (Z.of_nat i)) ;;
     t_best <- mlift (getitem med_training (Z.of_nat i)) ;;
     assign_cdppv b (v_best / t_best)%f64 ;;;
     self <- mget ;;
     l <- mlift (getitem (lambda_arr self) (Z.of_nat i)) ;;
     assign_lam b l ;;;
     self <- mget ;;
     if (Z.of_nat (length (breakpoints self)) <=? 2)%Z
     then xt <- mlift (plot_segment self b validation training
                         med_training med_validation l v_best) ;;
          mret (Some xt)
     else mret xticks)%M.

(** [[np.log10(self.lam[b][self.lam_idx]) for b in bs]] *)
Fixpoint log_lams (self : Detrender) (bs : list nat) : result (list f64) :=
  match bs with
  | [] => Ok []
  | b :: t =>
      (row <- getitem (lam self) (Z.of_nat b) ;;
       c <- getitem row (lam_idx self) ;;
       v <- match c with
            | Some v => Ok v
            | None => Raise TypeError
            end ;;
       rest <- log_lams self t ;;
       Ok (np_log10 v :: rest))%res
  end.

(** Lines 486-489 and 494-510, the two ways of the last plot. *)
Definition plot_summary (xticks : option (list f64)) : M unit :=
  (self <- mget ;;
   if (Z.of_nat (length (breakpoints self)) <=? 2)%Z
   then match xticks with
        | None => mlift (Raise UnboundLocalError)
        | Some xt => mlift (draw (PlotLabels xt))
        end
   else
     logs <- mlift (log_lams self (seq 0 (length (breakpoints self)))) ;;
     mlift (draw (PlotLambda logs)) ;;;
     let cdpp_arr := get_cdpp_arr self in
     cdppv <- mlift (vec_op fmul (cdppv_arr self) cdpp_arr) ;;
     mlift (draw (PlotCdpp cdpp_arr cdppv)))%M.

Definition cross_validate : M unit :=
  (self <- mget ;;
   xticks <- mfold (seq 0 (length (breakpoints self))) None cv_segment ;;
   do_compute compute_model ;;;
   mlift (draw PlotTidy) ;;;
   plot_summary xticks)%M.

End CrossValidate.

(** *** Cells of the regularization table *)

(** [lam[b][n]], when there is such a cell. *)
Definition cell (self : Detrender) (b n : nat) : option (option f64) :=
  match nth_error (lam self) b with
  | Some row => nth_error row n
  | None => None
  end.

(** The position that the active-order pointer designates in row [b]. *)
Definition active_cell (self : Detrender) (b : nat) : option nat :=
  match nth_error (lam self) b with
  | Some row => py_index (length row) (lam_idx self)
  | None => None
  end.

(** [self'] is [self] with other values of [lam], [cdppv_arr] and [model],
    and of nothing else. *)
Definition only_table_metric_model (self self' : Detrender) : Prop :=
  exists l c m, self' = set_model (set_cdppv_arr (set_lam self l) c) m.

(** Row [r'] is row [r] but for the cell at index [idx]. *)
Definition row_frame (idx : Z) (r r' : list (option f64)) : Prop :=
  length r' = length r /\
  forall n, py_index (length r) idx <> Some n -> nth_error r' n = nth_error r n.

(** The table of [self'] is that of [self] but for the cells of the active
    order. *)
Definition lam_frame (self self' : Detrender) : Prop :=
  only_table_metric_model self self' /\
  Forall2 (row_frame (lam_idx self)) (lam self) (lam self').

(** Nothing of segment [b0]'s row was written, and the metric array kept
    its length. *)
Definition segment_frame (b0 : nat) (self self' : Detrender) : Prop :=
  only_table_metric_model self self' /\
  length (cdppv_arr self') = length (cdppv_arr self) /\
  nth_error (lam self') b0 = nth_error (lam self) b0.

(** The object once segment [b] has been marked as lacking data:
    [cdppv_arr[b] = nan] and [lam[b][k] = -inf]. *)
Definition marked (self : Detrender) (b : nat) (row : list (option f64))
  (k : nat) : Detrender :=
  set_lam (set_cdppv_arr self (list_set (cdppv_arr self) b NaN))
          (list_set (lam self) b (list_set row k (Some NInf))).

(** A method preserves a relation between the object before and after. *)
Definition preserves {A} (R : Detrender -> Detrender -> Prop) (m : M A)
  : Prop :=
  forall s, R s (snd (m s)).

(** *** Frames of the order loop *)

(** The table and the active-order pointer are untouched. *)
Definition table_same (self self' : Detrender) : Prop :=
  lam self' = lam self /\ lam_idx self' = lam_idx self.

(** Inside one turn of the order loop, once the pointer has been moved to
    an order [>= n]: the pointer stays and the cells of the orders below
    [n] stay. *)
Definition inner_frame (n : nat) (self self' : Detrender) : Prop :=
  lam_idx self' = lam_idx self /\
  ((Z.of_nat n <= lam_idx self)%Z ->
   forall b k, k < n -> cell self' b k = cell self b k).

(** Over whole turns of the order loop, once the orders below [n] are
    done (the pointer is at [n - 1] or further): the pointer does not go
    back and the cells of the orders below [n] stay. *)
Definition order_frame (n : nat) (self self' : Detrender) : Prop :=
  (lam_idx self <= lam_idx self')%Z /\
  ((Z.of_nat n - 1 <= lam_idx self)%Z ->
   forall b k, k < n -> cell self' b k = cell self b k).

(* ================================================================== *)
(** ** The order loop of [Detrender.run] *)

Section Run.

Variable get_masked_chunk :
  list f64 -> list Z -> Z -> list Z -> list Z -> list Z -> list Z ->
  nat -> list Z.
Variable X : Detrender -> nat -> list Z -> result ndarray2.
Variable ChunksZ : list Z -> Z -> result (list (list Z)).
Variable Matern32Kernel : f64 -> f64 -> f64 -> f64.
Variable gp_predict :
  f64 -> f64 -> list f64 -> list f64 -> list f64 -> list f64 ->
  result (list f64).
Variable np_sqrt : f64 -> f64.
Variable linalg_solve : ndarray2 -> list f64 -> result (list f64).
Variable compute_model : Detrender -> result (list f64).
Variable np_log10 : f64 -> f64.
Variable power10 : f64 -> f64.
Variable np_linspace : f64 -> f64 -> nat -> list f64.
Variable draw : plot_cmd -> result unit.
Variable SavGol : list f64 -> list f64.
Variable savgol_filter : list f64 -> nat -> nat -> result (list f64).
Variable nanstd : list f64 -> f64.
Variable Chunks : list f64 -> Z -> result (list (list f64)).
Variable randn : nat -> f64.
Variable random : nat -> f64.
Variable fmin_l_bfgs_b :
  list f64 -> bounds_t -> list f64 -> list f64 -> list f64 ->
  result (list f64 * f64).

(** The [mask] property and the methods [get_cdpp_arr] and [get_cdpp] of
    basecamp.py. *)
Variable get_mask : Detrender -> list Z.
Variable get_cdpp_arr : Detrender -> list f64.
Variable get_cdpp : Detrender -> f64.

(** [Detrender.update_gp]; [rng] counts the random numbers drawn so far,
    the method returns the new count. *)
Definition update_gp (rng : nat) : M nat :=
  fun self =>
    match flux self with
    | Raise e => (Raise e, self)
    | Ok fl =>
        match GetKernelParams savgol_filter nanstd Chunks randn random
                fmin_l_bfgs_b rng (time self) fl (fraw_err self)
                (get_mask self) (giter self) (kernel_params self) with
        | Raise e => (Raise e, self)
        | Ok r => (Ok (rng_draws r), set_kernel_params self (Some (xbest r)))
        end
    end.

(** [self.lam_idx += 1] *)
Definition bump_lam_idx : M unit :=
  fun s => (Ok tt, set_lam_idx s (lam_idx s + 1)).

(** Lines 948-956, the body of the loop for the order [n]. *)
Definition run_order (n rng : nat) : M nat :=
  (bump_lam_idx ;;;
   get_outliers compute_model SavGol ;;;
   self <- mget ;;
   rng <- (if (0 <? n) && optimize_gp self
           then update_gp rng else mret rng) ;;
   cross_validate get_masked_chunk X ChunksZ Matern32Kernel gp_predict
     np_sqrt linalg_solve compute_model np_log10 power10 np_linspace draw
     get_cdpp_arr ;;;
   self <- mget ;;
   let arr := get_cdpp_arr self in
   (fun s => (Ok tt, set_cdpp6_arr s arr)) ;;;
   prod <- mlift (vec_op fmul (cdppv_arr self) arr) ;;
   (fun s => (Ok tt, set_cdppv_arr s prod)) ;;;
   self <- mget ;;
   (fun s => (Ok tt, set_cdpp6 s (get_cdpp self))) ;;;
   (fun s => (Ok tt, set_cdppv s (nanmean (cdppv_arr s)))) ;;;
   mret rng)%M.

(** [for n in range(self.pld_order)] *)
Fixpoint run_loop (ns : list nat) (rng : nat) : M nat :=
  match ns with
  | [] => mret rng
  | n :: t => (rng <- run_order n rng ;; run_loop t rng)%M
  end.

Definition run_orders (rng : nat) : M nat :=
  (self <- mget ;;
   run_loop (seq 0 (Z.to_nat (pld_order self))) rng)%M.

End Run.

(* ================================================================== *)
(** ** Relations used by further properties *)

(** [self'] is [self] with other values of [model] and [outmask], and of
    nothing else. *)
Definition only_model_outmask (self self' : Detrender) : Prop :=
  exists m o, self' = set_outmask (set_model self m) o.

(** A finite number: neither NaN nor an infinity. *)
Definition is_finite (x : f64) : bool :=
  match x with Fin _ => true | _ => false end.

(** [x] passes the test that ends the [while] loop of [GetKernelParams]:
    neither [x < b[0]] nor [x > b[1]]. *)
Definition in_bounds (x : f64) (b : f64 * f64) : Prop :=
  flt x (fst b) = false /\ flt (snd b) x = false.

(** The uniform draws are in [[0, 1]]. *)
Definition unit_draws (random : nat -> f64) : Prop :=
  forall k, exists r, random k = Fin r /\ (0 <= r <= 1)%Q.

(** Finite bounds, the lower one not above the upper one. *)
Definition ordered_bounds (b : f64 * f64) : Prop :=
  exists l h, b = (Fin l, Fin h) /\ (l <= h)%Q.

(** The outcome of one call of the optimizer on the cleaned data. *)
Definition optimized
  (fmin_l_bfgs_b :
     list f64 -> bounds_t -> list f64 -> list f64 -> list f64 ->
     result (list f64 * f64))
  (time flux errors : list f64)
  (c : list f64 * bounds_t) : result (list f64 * f64) :=
  fmin_l_bfgs_b (fst c) (snd c) time flux errors.

(** The state of the loop over the restarts holds the best of the calls
    made so far, or what it started from. *)
Definition best_so_far
  (fmin_l_bfgs_b :
     list f64 -> bounds_t -> list f64 -> list f64 -> list f64 ->
     result (list f64 * f64))
  (time flux errors : list f64) (x0 : list f64)
  (st : restarts) : Prop :=
  is_nan (llbest st) = false /\
  (forall c y, In c (calls st) ->
               optimized fmin_l_bfgs_b time flux errors c = Ok y ->
               flt (llbest st) (fneg (snd y)) = false) /\
  ((xbest st = x0 /\ llbest st = NInf) \/
   exists c v, In c (calls st) /\
               optimized fmin_l_bfgs_b time flux errors c
                 = Ok (xbest st, v) /\
               llbest st = fneg v).

(** *** What a method establishes when it returns *)

(** Whenever [m] returns, the object satisfies [Q]. *)
Definition ensures {A} (m : M A) (Q : Detrender -> Prop) : Prop :=
  forall s a s', m s = (Ok a, s') -> Q s'.

(** The cell [lam[b][k]] holds a number that is [-inf] or a value of the
    grid. *)
Definition full (self : Detrender) (b k : nat) : Prop :=
  exists v, cell self b k = Some (Some v) /\
            (v = NInf \/ In v (lambda_arr self)).

(** The cell of segment [b] that the pointer designates is full. *)
Definition filled (self : Detrender) (b : nat) : Prop :=
  exists k, active_cell self b = Some k /\ full self b k.

Definition all_filled (self : Detrender) : Prop :=
  forall b, b < length (breakpoints self) -> filled self b.

(** The pointer and the settings read by the order loop are untouched. *)
Definition steady (self self' : Detrender) : Prop :=
  lam_idx self' = lam_idx self /\
  lambda_arr self' = lambda_arr self /\
  breakpoints self' = breakpoints self /\
  pld_order self' = pld_order self.

(** The kernel parameters and the switch of their optimization are
    untouched. *)
Definition kernel_same (self self' : Detrender) : Prop :=
  kernel_params self' = kernel_params self /\
  optimize_gp self' = optimize_gp self.

(* ================================================================== *)
(** ** [Detrender.get_ylim] *)

(** [x[np.argsort(x)]]: ascending, the NaN values last. *)
Definition sort_nan_last (l : list f64) : list f64 :=
  np_sort (filter (fun x => negb (is_nan x)) l) ++ filter is_nan l.

(** [int(c * n)] for a fraction [c] that is not negative and a length
    [n]. *)
Definition int_frac (c : Q) (n : nat) : Z :=
  Qfloor (c * inject_Z (Z.of_nat n)).

(** [bn]: the cadences of [badmask] and [nanmask], each once; [np.delete]
    does not depend on their order. *)
Definition get_ylim_bn (self : Detrender) : list Z :=
  nodup Z.eq_dec (badmask self ++ nanmask self).

Definition get_ylim (self : Detrender) : result (f64 * f64) :=
  let bn := get_ylim_bn self in
  (fraw <- np_delete (fraw self) bn ;;
   let s := sort_nan_last fraw in
   lo <- getitem s 3 ;;
   hi <- getitem s (-3) ;;
   fl <- flux self ;;
   flux <- np_delete fl bn ;;
   let fsort := sort_nan_last flux in
   p1 <- getitem fsort (int_frac (1 # 100) (length fsort)) ;;
   let lo := if flt p1 lo then p1 else lo in
   p99 <- getitem fsort (int_frac (99 # 100) (length fsort)) ;;
   let hi := if flt hi p99 then p99 else hi in
   let pad := ((hi - lo) * Fin (5 # 100))%f64 in
   Ok (lo - pad, hi + pad)%f64)%res.

(** The small light curve with its first cadence flagged as bad. *)
Definition small_self_bad : Detrender :=
  {| lambda_arr := [Fin 0; Fin 1; Fin 100000];
     leps := round64 (5 # 100); osigma := Fin 5; oiter := 3%Z; cdivs := 3%Z;
     giter := 1; optimize_gp := false;
     kernel_params := Some [Fin 1; Fin 1; Fin 30];
     bpad := 100%Z; breakpoints := [3%Z]; pld_order := 2%Z; lam_idx := 0%Z;
     lam := [[Some (Fin 100000); None]];
     cdpp6_arr := [NaN]; cdppr_arr := [NaN]; cdppv_arr := [NaN];
     cdpp6 := NaN; cdppv := NaN;
     time := [Fin 0; Fin 1; Fin 2; Fin 3];
     fraw := [Fin 10; Fin 10; Fin 50; Fin 10];
     fraw_err := [Fin 1; Fin 1; Fin 1; Fin 1];
     model := [Fin 0; Fin 0; Fin 0; Fin 0];
     nanmask := []; badmask := [0%Z]; transitmask := []; outmask := [] |}.

(** The small light curve with [cdivs = 0]. *)
Definition small_self_nodivs : Detrender :=
  {| lambda_arr := [Fin 0; Fin 1; Fin 100000];
     leps := round64 (5 # 100); osigma := Fin 5; oiter := 3%Z; cdivs := 0%Z;
     giter := 1; optimize_gp := false;
     kernel_params := Some [Fin 1; Fin 1; Fin 30];
     bpad := 100%Z; breakpoints := [3%Z]; pld_order := 2%Z; lam_idx := 0%Z;
     lam := [[Some (Fin 100000); None]];
     cdpp6_arr := [NaN]; cdppr_arr := [NaN]; cdppv_arr := [NaN];
     cdpp6 := NaN; cdppv := NaN;
     time := [Fin 0; Fin 1; Fin 2; Fin 3];
     fraw := [Fin 10; Fin 10; Fin 50; Fin 10];
     fraw_err := [Fin 1; Fin 1; Fin 1; Fin 1];
     model := [Fin 0; Fin 0; Fin 0; Fin 0];
     nanmask := []; badmask := []; transitmask := []; outmask := [] |}.

(** A light curve of four cadences with varied flux, cross-validated in a
    single fold ([cdivs = 1]). *)
Definition varied_self : Detrender :=
  {| lambda_arr := [Fin 0; Fin 1; Fin 100000];
     leps := round64 (5 # 100); osigma := Fin 5; oiter := 3%Z; cdivs := 1%Z;
     giter := 1; optimize_gp := false;
     kernel_params := Some [Fin 1; Fin 1; Fin 30];
     bpad := 100%Z; breakpoints := [3%Z]; pld_order := 2%Z; lam_idx := 0%Z;
     lam := [[Some (Fin 100000); None]];
     cdpp6_arr := [NaN]; cdppr_arr := [NaN]; cdppv_arr := [NaN];
     cdpp6 := NaN; cdppv := NaN;
     time := [Fin 0; Fin 1; Fin 2; Fin 3];
     fraw := [Fin 10; Fin 12; Fin 50; Fin 14];
     fraw_err := [Fin 1; Fin 1; Fin 1; Fin 1];
     model := [Fin 0; Fin 0; Fin 0; Fin 0];
     nanmask := []; badmask := []; transitmask := []; outmask := [] |}.

(** The light curve of [varied_self] cut in two segments. *)
Definition mixed_self : Detrender :=
  {| lambda_arr := [Fin 0; Fin 1; Fin 100000];
     leps := round64 (5 # 100); osigma := Fin 5; oiter := 3%Z; cdivs := 1%Z;
     giter := 1; optimize_gp := false;
     kernel_params := Some [Fin 1; Fin 1; Fin 30];
     bpad := 100%Z; breakpoints := [0%Z; 3%Z]; pld_order := 2%Z;
     lam_idx := 0%Z;
     lam := [[Some (Fin 100000); None]; [Some (Fin 100000); None]];
     cdpp6_arr := [NaN; NaN]; cdppr_arr := [NaN; NaN];
     cdppv_arr := [NaN; NaN];
     cdpp6 := NaN; cdppv := NaN;
     time := [Fin 0; Fin 1; Fin 2; Fin 3];
     fraw := [Fin 10; Fin 12; Fin 50; Fin 14];
     fraw_err := [Fin 1; Fin 1; Fin 1; Fin 1];
     model := [Fin 0; Fin 0; Fin 0; Fin 0];
     nanmask := []; badmask := []; transitmask := []; outmask := [] |}.

(* ================================================================== *)
(** * Properties *)

(** ** The order on floating-point values *)

Lemma Qle_boolP (a b : Q) : reflect (a <= b)%Q (Qle_bool a b).
Proof.
  destruct (Qle_bool a b) eqn:E; constructor.
  - now apply Qle_bool_iff.
  - intro H. apply Qle_bool_iff in H. congruence.
Qed.

Ltac f64_cases :=
  repeat match goal with
         | x : f64 |- _ => destruct x
         end;
  simpl in *; try discriminate; try tauto; try reflexivity.

Ltac q_reflect :=
  repeat match goal with
         | H : context [Qle_bool ?a ?b] |- _ =>
             destruct (Qle_boolP a b); simpl in H
         | |- context [Qle_bool ?a ?b] =>
             destruct (Qle_boolP a b); simpl
         end;
  try discriminate; try reflexivity; try tauto; try lra.

Lemma flt_fle (x y : f64) : flt x y = true -> fle x y = true.
Proof. intros H. f64_cases. q_reflect. Qed.

Lemma fle_trans (x y z : f64) :
  fle x y = true -> fle y z = true -> fle x z = true.
Proof. intros H1 H2. f64_cases. q_reflect. Qed.

Lemma flt_fle_trans (x y z : f64) :
  flt x y = true -> fle y z = true -> flt x z = true.
Proof. intros H1 H2. f64_cases. q_reflect. Qed.

Lemma fle_flt_trans (x y z : f64) :
  fle x y = true -> flt y z = true -> flt x z = true.
Proof. intros H1 H2. f64_cases. q_reflect. Qed.

Lemma flt_false_fle (x y : f64) :
  is_nan x = false -> is_nan y = false -> flt x y = false -> fle y x = true.
Proof. intros Hx Hy H. f64_cases. q_reflect. Qed.

Lemma flt_not_fle (x y : f64) : flt x y = true -> fle y x = true -> False.
Proof. intros H1 H2. f64_cases. q_reflect. Qed.

Lemma fle_refl (x : f64) : is_nan x = false -> fle x x = true.
Proof. intros H. f64_cases. q_reflect. Qed.

Lemma fle_nonnan (x y : f64) :
  fle x y = true -> is_nan x = false /\ is_nan y = false.
Proof. intros H. f64_cases. Qed.

Lemma flt_nonnan (x y : f64) :
  flt x y = true -> is_nan x = false /\ is_nan y = false.
Proof. intros H. f64_cases. Qed.

(** ** Rounding to [float64] *)

Lemma round_half_even_nonneg (n d : Z) :
  (0 <= n)%Z -> (0 < d)%Z -> (0 <= round_half_even n d)%Z.
Proof.
  intros Hn Hd. unfold round_half_even.
  assert (H : (0 <= n / d)%Z) by (apply Z.div_pos; lia).
  destruct (2 * (n mod d) ?= d)%Z; [destruct (Z.even (n / d))| |]; lia.
Qed.

Lemma pow2_pos (s : Z) : (0 < pow2 s)%Q.
Proof.
  unfold pow2. destruct (0 <=? s)%Z eqn:E.
  - apply Z.leb_le in E. change 0%Q with (inject_Z 0). rewrite <- Zlt_Qlt.
    apply Z.pow_pos_nonneg; lia.
  - reflexivity.
Qed.

Lemma nonneg_float_make (c : bool) (m s : Z) :
  (0 <= m)%Z ->
  nonneg_float (if c then PInf else Fin (Qred (inject_Z m * pow2 s))).
Proof.
  intros Hm. destruct c; [now left|right].
  eexists. split; [reflexivity|]. rewrite Qred_correct.
  apply Qmult_le_0_compat.
  - change 0%Q with (inject_Z 0). rewrite <- Zle_Qle. exact Hm.
  - apply Qlt_le_weak, pow2_pos.
Qed.

Lemma round64_pos_nonneg (n d : Z) :
  (0 < n)%Z -> (0 < d)%Z -> nonneg_float (round64_pos n d).
Proof.
  intros Hn Hd. unfold round64_pos. cbv zeta. apply nonneg_float_make.
  destruct (0 <=? Z.max (ilog2 n d - 52) (-1074))%Z eqn:E;
    apply round_half_even_nonneg; lia.
Qed.

Lemma round64_nonneg (q : Q) : (0 <= q)%Q -> nonneg_float (round64 q).
Proof.
  intros Hq. unfold round64. destruct q as [[|n|n] d]; cbn [Qnum Qden].
  - right. exists 0%Q. split; [reflexivity|]. apply Qle_refl.
  - apply round64_pos_nonneg; lia.
  - exfalso. unfold Qle in Hq. cbn [Qnum Qden] in Hq. lia.
Qed.

Lemma round64_zero (q : Q) : (q == 0)%Q -> round64 q = Fin 0.
Proof.
  intros Hq. unfold Qeq in Hq. cbn [Qnum Qden] in Hq.
  unfold round64. replace (Qnum q) with 0%Z by lia. reflexivity.
Qed.

Lemma fsub64_nonneg (a q : Q) :
  (q <= a)%Q -> nonneg_float (fsub64 (Fin a) (Fin q)).
Proof.
  intros H. unfold fsub64, fsub. cbn [fneg fadd rounded].
  apply round64_nonneg. lra.
Qed.

Lemma fdiv64_nonneg (x : f64) (q : Q) :
  nonneg_float x -> (0 < q)%Q -> nonneg_float (fdiv64 x (Fin q)).
Proof.
  intros Hx Hq.
  assert (Hz : Qeq_bool q 0 = false).
  { destruct (Qeq_bool q 0) eqn:E; auto. apply Qeq_bool_iff in E. lra. }
  assert (Hs : (q ?= 0)%Q = Gt) by (apply Qgt_alt; exact Hq).
  unfold fdiv64. destruct Hx as [->|(r & -> & Hr)]; cbn [fdiv].
  - rewrite Hz. cbn [fsign]. rewrite Hs. now left.
  - rewrite Hz. cbn [rounded]. apply round64_nonneg.
    apply Qle_shift_div_l; lra.
Qed.

Lemma nonneg_float_above (x leps : f64) :
  nonneg_float x -> flt leps (Fin 0) = true -> fle x leps = false.
Proof.
  intros [->|(r & -> & Hr)] Hl; destruct leps as [| |l|]; simpl in *;
    try discriminate; try reflexivity.
  apply negb_true_iff in Hl.
  destruct (Qle_boolP 0 l) as [H0|H0]; [discriminate|].
  destruct (Qle_boolP r l) as [H1|H1]; [|reflexivity]. lra.
Qed.

(** A positive finite value is within any non-negative tolerance of itself. *)
Lemma self_within (v leps : f64) :
  pos_finite v -> fle (Fin 0) leps = true ->
  fle (fdiv64 (fsub64 v v) v) leps = true.
Proof.
  intros Hv Hl. destruct v as [| |q|]; simpl in Hv; try contradiction.
  assert (Hz : Qeq_bool q 0 = false).
  { destruct (Qeq_bool q 0) eqn:E; auto. apply Qeq_bool_iff in E. lra. }
  unfold fsub64, fsub. cbn [fneg fadd rounded].
  rewrite (@round64_zero (q + - q)) by ring.
  unfold fdiv64. cbn [fdiv]. rewrite Hz. cbn [rounded].
  rewrite (@round64_zero (0 / q)) by (field; lra).
  exact Hl.
Qed.

(** ** [np.argmin], [np.nanargmin], [np.where] *)

Lemma argmin_from_spec (c : list f64) :
  forall (p : list f64) (bi : nat) (best : f64),
    Forall (fun x => is_nan x = false) (p ++ c) ->
    bi < length p ->
    nth bi (p ++ c) NaN = best ->
    (forall j, j < length p -> fle best (nth j (p ++ c) NaN) = true) ->
    (forall j, j < bi -> flt best (nth j (p ++ c) NaN) = true) ->
    let k := argmin_from bi best (length p) c in
    k < length (p ++ c) /\
    (forall j, j < length (p ++ c) ->
       fle (nth k (p ++ c) NaN) (nth j (p ++ c) NaN) = true) /\
    (forall j, j < k ->
       flt (nth k (p ++ c) NaN) (nth j (p ++ c) NaN) = true).
Proof.
  induction c as [|x t IH]; intros p bi best Hnn Hbi Hbest Hle Hlt; simpl.
  - rewrite app_nil_r in *. subst best. repeat split; auto; lia.
  - assert (Hx : nth (length p) (p ++ x :: t) NaN = x).
    { rewrite app_nth2 by lia. now rewrite Nat.sub_diag. }
    assert (Hxn : is_nan x = false).
    { rewrite Forall_forall in Hnn. apply Hnn, in_elt. }
    assert (Hbn : is_nan best = false).
    { subst best. rewrite Forall_forall in Hnn. apply Hnn, nth_In.
      rewrite length_app. lia. }
    assert (Hl : p ++ x :: t = (p ++ [x]) ++ t)
      by (rewrite <- app_assoc; reflexivity).
    assert (Hlen : length (p ++ [x]) = S (length p))
      by (rewrite length_app; simpl; lia).
    destruct (flt x best) eqn:E.
    + specialize (IH (p ++ [x]) (length p) x).
      rewrite Hlen, <- Hl in IH. apply IH; auto.
      * intros j Hj. destruct (Nat.eq_dec j (length p)) as [->|Hne].
        -- rewrite Hx. now apply fle_refl.
        -- apply flt_fle, flt_fle_trans with best; auto. apply Hle. lia.
      * intros j Hj. apply flt_fle_trans with best; auto.
    + specialize (IH (p ++ [x]) bi best).
      rewrite Hlen, <- Hl in IH. apply IH; auto.
      intros j Hj. destruct (Nat.eq_dec j (length p)) as [->|Hne].
      * rewrite Hx. now apply flt_false_fle.
      * apply Hle. lia.
Qed.

Lemma replace_nan_nonnan (c : list f64) :
  Forall (fun x => is_nan x = false) (replace_nan c).
Proof.
  unfold replace_nan. apply Forall_forall. intros x Hx.
  apply in_map_iff in Hx. destruct Hx as [y [<- _]]. now destruct y.
Qed.

Lemma replace_nan_nth (c : list f64) (j : nat) :
  j < length c ->
  nth j (replace_nan c) NaN =
  if is_nan (nth j c NaN) then PInf else nth j c NaN.
Proof.
  intros Hj. unfold replace_nan.
  set (f := fun x : f64 => if is_nan x then PInf else x).
  rewrite nth_indep with (d' := f NaN) by (now rewrite length_map).
  now rewrite map_nth.
Qed.

Lemma argmin_spec (c : list f64) :
  c <> [] -> Forall (fun x => is_nan x = false) c ->
  exists k, argmin c = Ok k /\ k < length c /\
    (forall j, j < length c -> fle (nth k c NaN) (nth j c NaN) = true) /\
    (forall j, j < k -> flt (nth k c NaN) (nth j c NaN) = true).
Proof.
  intros Hne Hnn. destruct c as [|x t]; [congruence|]. simpl argmin.
  eexists. split; [reflexivity|].
  assert (Hxn : is_nan x = false) by (now inversion Hnn).
  apply (@argmin_from_spec t [x] 0 x); simpl; auto.
  - intros j Hj. assert (j = 0) by lia. subst. now apply fle_refl.
  - intros j Hj. lia.
Qed.

(** Minima of one column are unique. *)
Lemma col_min_at_unique (c : list f64) (m m' : nat) :
  col_min_at c m -> col_min_at c m' -> m = m'.
Proof.
  intros (Hm & Hn & Hle & Hfirst) (Hm' & Hn' & Hle' & Hfirst').
  destruct (Nat.lt_trichotomy m m') as [H|[H|H]]; auto; exfalso.
  - destruct (Hfirst' m H) as [E|E]; [congruence|].
    destruct (Hle m' Hm') as [E'|E']; [congruence|].
    eapply flt_not_fle; eauto.
  - destruct (Hfirst m' H) as [E|E]; [congruence|].
    destruct (Hle' m Hm) as [E'|E']; [congruence|].
    eapply flt_not_fle; eauto.
Qed.

Lemma forallb_nth_false (c : list f64) (m : nat) :
  m < length c -> is_nan (nth m c NaN) = false -> forallb is_nan c = false.
Proof.
  intros Hm Hn. destruct (forallb is_nan c) eqn:E; auto.
  rewrite forallb_forall in E. rewrite E in Hn; [discriminate|].
  now apply nth_In.
Qed.

(** On a column whose minimum is finite, [nanargmin] returns the row of
    that minimum. *)
Lemma nanargmin_spec (c : list f64) (m : nat) :
  col_min_at c m -> pos_finite (nth m c NaN) -> nanargmin c = Ok m.
Proof.
  intros Hmin Hpos. pose proof Hmin as (Hm & Hn & Hle & Hfirst).
  unfold nanargmin. destruct c as [|x t] eqn:Ec; [simpl in Hm; lia|].
  rewrite <- Ec in *. rewrite (forallb_nth_false c Hm Hn).
  destruct (@argmin_spec (replace_nan c)) as (k & Hk & Hkl & Hkle & Hkf).
  { subst c. discriminate. }
  { apply replace_nan_nonnan. }
  unfold replace_nan in Hkl. rewrite length_map in Hkl.
  unfold replace_nan in Hkle at 1. rewrite length_map in Hkle.
  rewrite Hk. f_equal.
  assert (Hm' : nth m (replace_nan c) NaN = nth m c NaN).
  { rewrite replace_nan_nth by auto. now rewrite Hn. }
  assert (Hkn : is_nan (nth k c NaN) = false).
  { specialize (Hkle m Hm). rewrite Hm', replace_nan_nth in Hkle by auto.
    destruct (is_nan (nth k c NaN)) eqn:E; auto.
    destruct (nth m c NaN); simpl in *; try contradiction; discriminate. }
  assert (Hk' : nth k (replace_nan c) NaN = nth k c NaN).
  { rewrite replace_nan_nth by auto. now rewrite Hkn. }
  destruct (Nat.lt_trichotomy k m) as [H|[H|H]]; auto; exfalso.
  - destruct (Hfirst k H) as [E|E]; [congruence|].
    specialize (Hkle m Hm). rewrite Hm', Hk' in Hkle.
    eapply flt_not_fle; eauto.
  - specialize (Hkf m H). rewrite Hm', Hk' in Hkf.
    destruct (Hle k Hkl) as [E|E]; [congruence|].
    eapply flt_not_fle; eauto.
Qed.

Lemma where_from_app (l : list bool) (b : bool) (i : nat) :
  where_from i (l ++ [b]) =
  where_from i l ++ (if b then [i + length l] else []).
Proof.
  revert i. induction l as [|a l IH]; intros i; simpl.
  - rewrite Nat.add_0_r. now destruct b.
  - rewrite IH. replace (S i + length l) with (i + S (length l)) by lia.
    now destruct a.
Qed.

Lemma last_where_spec (l : list bool) :
  (exists k, k < length l /\ nth k l false = true) ->
  exists r, last_item (np_where l) = Ok r /\ r < length l /\
            nth r l false = true /\
            forall k, k < length l -> nth k l false = true -> k <= r.
Proof.
  unfold np_where. induction l as [|b l IH] using rev_ind.
  - intros (k & Hk & _). simpl in Hk. lia.
  - intros (k & Hk & Hkt). rewrite where_from_app, length_app. simpl.
    rewrite length_app in Hk. simpl in Hk.
    destruct b.
    + exists (length l). unfold last_item. rewrite rev_app_distr. simpl.
      repeat split; try lia.
      rewrite app_nth2 by lia. now rewrite Nat.sub_diag.
    + rewrite app_nil_r.
      assert (Hkl : k < length l).
      { destruct (Nat.eq_dec k (length l)) as [->|]; [|lia].
        rewrite app_nth2, Nat.sub_diag in Hkt by lia. discriminate. }
      destruct IH as (r & Hr & Hrl & Hrt & Hmax).
      { exists k. split; auto. now rewrite app_nth1 in Hkt. }
      exists r. repeat split; auto; try lia.
      * now rewrite app_nth1.
      * intros j Hj Hjt.
        destruct (Nat.eq_dec j (length l)) as [->|].
        -- rewrite app_nth2, Nat.sub_diag in Hjt by lia. discriminate.
        -- apply Hmax; [lia|]. rewrite app_nth1 in Hjt by lia. exact Hjt.
Qed.

(** ** [optimize_lambda] *)

Lemma column_length (M : ndarray2) (n : nat) : length (column M n) = len2 M.
Proof. unfold column, len2. apply length_map. Qed.

Lemma within_leps_nth (leps : f64) (c : list f64) (m k : nat) :
  nth k (within_leps leps c m) false =
  fle (fdiv64 (fsub64 (nth k c NaN) (nth m c NaN)) (nth m c NaN)) leps.
Proof.
  unfold within_leps.
  set (f := fun v : f64 =>
              fle (fdiv64 (fsub64 v (nth m c NaN)) (nth m c NaN)) leps).
  change false with (f NaN). now rewrite map_nth.
Qed.

Lemma last_tol_unique (leps : f64) (c : list f64) (r r' : nat) :
  last_tol leps c r -> last_tol leps c r' -> r = r'.
Proof.
  intros (m & Hm & Hr & Ht & Hmax) (m' & Hm' & Hr' & Ht' & Hmax').
  assert (m = m') by (eapply col_min_at_unique; eauto). subst m'.
  apply Nat.le_antisymm; auto.
Qed.

Lemma ol_body_ok (leps : f64) (M : ndarray2) (a b n m : nat) :
  fle (Fin 0) leps = true ->
  col_min_at (column M n) m ->
  pos_finite (nth m (column M n) NaN) ->
  exists r, last_tol leps (column M n) r /\ m <= r /\
    ol_body leps M (a, b) n =
    Ok (if a <? m then m else a, if r <? b then r else b).
Proof.
  intros Hl Hmin Hpos. pose proof Hmin as (Hm & _).
  destruct (@last_where_spec (within_leps leps (column M n) m))
    as (r & Hr & Hrl & Hrt & Hmax).
  { exists m. split.
    - unfold within_leps. now rewrite length_map.
    - rewrite within_leps_nth. now apply self_within. }
  unfold within_leps in Hrl at 1. rewrite length_map in Hrl.
  exists r. split; [|split].
  - exists m. split; [exact Hmin|]. split; [exact Hrl|]. split.
    + unfold tol_ok. now rewrite <- within_leps_nth.
    + intros i Hi Hti. apply Hmax.
      * unfold within_leps. now rewrite length_map.
      * rewrite within_leps_nth. exact Hti.
  - apply Hmax.
    + unfold within_leps. now rewrite length_map.
    + rewrite within_leps_nth. now apply self_within.
  - unfold ol_body. rewrite (nanargmin_spec Hmin Hpos). simpl.
    rewrite Hr. reflexivity.
Qed.

Lemma ol_body_mono (leps : f64) (M : ndarray2) (st st' : nat * nat) (n : nat) :
  ol_body leps M st n = Ok st' ->
  fst st <= fst st' /\ snd st' <= snd st.
Proof.
  destruct st as [a b]. unfold ol_body.
  destruct (nanargmin (column M n)) as [m|]; simpl; [|discriminate].
  destruct (last_item _) as [r|]; simpl; [|discriminate].
  intros H. inversion H; subst; clear H. simpl.
  destruct (Nat.ltb_spec a m), (Nat.ltb_spec r b); lia.
Qed.

Lemma ol_loop_mono (leps : f64) (M : ndarray2) (ns : list nat) :
  forall st st', ol_loop leps M st ns = Ok st' ->
                 fst st <= fst st' /\ snd st' <= snd st.
Proof.
  induction ns as [|n ns IH]; intros st st' H; simpl in H.
  - inversion H; subst. lia.
  - destruct (ol_body leps M st n) as [st1|] eqn:E; simpl in H; [|discriminate].
    apply ol_body_mono in E. apply IH in H. lia.
Qed.

Lemma ol_loop_app (leps : f64) (M : ndarray2) (ns1 ns2 : list nat) :
  forall st, ol_loop leps M st (ns1 ++ ns2) =
             rbind (ol_loop leps M st ns1) (fun st1 => ol_loop leps M st1 ns2).
Proof.
  induction ns1 as [|n ns1 IH]; intros st; simpl; auto.
  destruct (ol_body leps M st n); simpl; auto.
Qed.

Lemma ol_loop_ok (leps : f64) (M : ndarray2) :
  fle (Fin 0) leps = true -> positive_minima M ->
  forall ns st, (forall n, In n ns -> n < ncols M) ->
  exists st', ol_loop leps M st ns = Ok st' /\
    (forall n y, In n ns -> col_min_at (column M n) y -> y <= fst st') /\
    (forall n y, In n ns -> last_tol leps (column M n) y -> snd st' <= y) /\
    (fst st' = fst st \/
     exists n, In n ns /\ col_min_at (column M n) (fst st')) /\
    (snd st' = snd st \/
     exists n, In n ns /\ last_tol leps (column M n) (snd st')).
Proof.
  intros Hl Hpm. induction ns as [|n ns IH]; intros [a b] Hns.
  - exists (a, b). simpl. repeat split; auto; intros; contradiction.
  - destruct (Hpm n) as (m & Hmin & Hpos); [apply Hns; now left|].
    destruct (@ol_body_ok leps M a b n m Hl Hmin Hpos) as (r & Hr & Hmr & Hb).
    cbn [ol_loop]. rewrite Hb. cbn [rbind].
    set (a' := if a <? m then m else a) in *.
    set (b' := if r <? b then r else b) in *.
    destruct (IH (a', b')) as (st' & Hst & Hmax & Hmin' & Hma & Hmi).
    { intros k Hk. apply Hns. now right. }
    pose proof (ol_loop_mono _ _ _ _ Hst) as [Hup Hdown]. simpl in Hup, Hdown.
    exists st'. split; [exact Hst|]. simpl fst in *. simpl snd in *.
    assert (Ha' : a <= a' /\ m <= a' /\ (a' = a \/ a' = m))
      by (unfold a'; destruct (Nat.ltb_spec a m); lia).
    assert (Hb' : b' <= b /\ b' <= r /\ (b' = b \/ b' = r))
      by (unfold b'; destruct (Nat.ltb_spec r b); lia).
    repeat split.
    + intros k y [<-|Hk] Hy; [|eauto].
      assert (y = m) by (eapply col_min_at_unique; eauto). lia.
    + intros k y [<-|Hk] Hy; [|eauto].
      assert (y = r) by (eapply last_tol_unique; eauto). lia.
    + destruct Hma as [E|(k & Hk & Hy)].
      * destruct Ha' as (_ & _ & [E'|E']); [left; lia|].
        right. exists n. split; [now left|]. rewrite E, E'. exact Hmin.
      * right. exists k. split; [now right|exact Hy].
    + destruct Hmi as [E|(k & Hk & Hy)].
      * destruct Hb' as (_ & _ & [E'|E']); [left; lia|].
        right. exists n. split; [now left|]. rewrite E, E'. exact Hr.
      * right. exists k. split; [now right|exact Hy].
Qed.

(** C2. With [leps >= 0] and a strictly positive finite minimum in every
    column of a matrix that has at least one column, [optimize_lambda]
    returns [min(M, R)]: [M] is the maximum over the columns of the row
    index of the column's minimum scatter and [R] is the minimum over the
    columns of the largest row index whose scatter is within the fractional
    tolerance [leps] of the column's own minimum, the ratio
    [(v - vmin) / vmin] being the one that [float64] arithmetic gives. *)
Theorem optimize_lambda_tie_break (leps : f64) (validation : ndarray2) :
  fle (Fin 0) leps = true ->
  0 < ncols validation ->
  positive_minima validation ->
  exists M R,
    max_over_columns col_min_at validation M /\
    min_over_columns (last_tol leps) validation R /\
    optimize_lambda leps validation = Ok (Nat.min M R).
Proof.
  intros Hl Hc Hpm.
  destruct (@ol_loop_ok leps validation Hl Hpm (seq 0 (ncols validation))
              (0, len2 validation))
    as ([mx rx] & Hst & Hmax & Hmin & Hma & Hmi).
  { intros n Hn. apply in_seq in Hn. lia. }
  simpl fst in *. simpl snd in *.
  assert (H0 : In 0 (seq 0 (ncols validation))) by (apply in_seq; lia).
  destruct (Hpm 0 Hc) as (m0 & Hm0 & Hp0).
  destruct (@ol_body_ok leps validation 0 0 0 m0 Hl Hm0 Hp0)
    as (r0 & Hr0 & _ & _).
  exists mx, rx. split; [|split].
  - split.
    + destruct Hma as [E|(n & Hn & Hy)].
      * exists 0. split; auto. specialize (Hmax 0 m0 H0 Hm0).
        replace mx with m0 by lia. exact Hm0.
      * exists n. split; auto. apply in_seq in Hn. lia.
    + intros n y Hn Hy. apply (Hmax n); auto. apply in_seq. lia.
  - split.
    + destruct Hmi as [E|(n & Hn & Hy)].
      * exfalso. specialize (Hmin 0 r0 H0 Hr0).
        destruct Hr0 as (_ & _ & Hlt & _). rewrite column_length in Hlt. lia.
      * exists n. split; auto. apply in_seq in Hn. lia.
    + intros n y Hn Hy. apply (Hmin n); auto. apply in_seq. lia.
  - unfold optimize_lambda. rewrite Hst. reflexivity.
Qed.

(** The example has a ratio on the border of the tolerance: the second
    column has its minimum 508.91806176173185 in row 0, and the ratio of
    534.3639648498184 to it exceeds 0.05 as a real number but is rounded
    to the [float64] 0.05, so that row 1 is within the tolerance and the
    index returned is [min(1, 1) = 1]. *)
Lemma optimize_lambda_tie_break_witness :
  let leps := round64 (5 # 100) in
  let validation :=
    np_array
      [ [Fin 600; round64 (50891806176173185 # 100000000000000)];
        [Fin 500; round64 (5343639648498184 # 10000000000000)] ] in
  fle (Fin 0) leps = true /\ 0 < ncols validation /\
  positive_minima validation /\
  optimize_lambda leps validation = Ok 1 /\
  exists M R,
    max_over_columns col_min_at validation M /\
    min_over_columns (last_tol leps) validation R /\
    optimize_lambda leps validation = Ok (Nat.min M R).
Proof.
  intros leps validation.
  assert (Hl : fle (Fin 0) leps = true) by (vm_compute; reflexivity).
  assert (Hc : 0 < ncols validation) by (simpl; lia).
  assert (Hp : positive_minima validation).
  { intros n Hn. change (ncols validation) with 2 in Hn.
    assert (Hn' : n = 0 \/ n = 1) by lia.
    destruct Hn' as [-> | ->]; [exists 1 | exists 0];
      (split; [|vm_compute; reflexivity]);
      (split; [vm_compute; lia|]); (split; [vm_compute; reflexivity|]);
      split; intros j Hj;
      (destruct j as [|[|j]]; [vm_compute; auto ..|]);
      vm_compute in Hj; lia. }
  split; [exact Hl|]. split; [exact Hc|]. split; [exact Hp|].
  split; [vm_compute; reflexivity|].
  exact (@optimize_lambda_tie_break leps validation Hl Hc Hp).
Defined.

(** C10. On a matrix with at least one row, with [leps >= 0] and a strictly
    positive finite minimum in every column, [optimize_lambda] returns an
    index between 0 and the number of rows minus one, so that indexing a
    grid of that many entries with it stays in bounds. *)
Theorem optimize_lambda_in_range
  (leps : f64) (validation : ndarray2) (lambda_arr : list f64) :
  0 < len2 validation ->
  fle (Fin 0) leps = true ->
  positive_minima validation ->
  length lambda_arr = len2 validation ->
  exists i, optimize_lambda leps validation = Ok i /\
            0 <= i <= len2 validation - 1 /\
            exists v, nth_error lambda_arr i = Some v.
Proof.
  intros Hrows Hl Hpm Hlen.
  destruct (@ol_loop_ok leps validation Hl Hpm (seq 0 (ncols validation))
              (0, len2 validation))
    as ([mx rx] & Hst & _ & _ & Hma & _).
  { intros n Hn. apply in_seq in Hn. lia. }
  simpl fst in *.
  assert (Hmx : mx < len2 validation).
  { destruct Hma as [E|(n & _ & (Hlt & _))]; [lia|].
    now rewrite column_length in Hlt. }
  exists (Nat.min mx rx). unfold optimize_lambda. rewrite Hst.
  split; [reflexivity|]. split; [lia|].
  destruct (nth_error lambda_arr (Nat.min mx rx)) as [v|] eqn:E; [eauto|].
  apply nth_error_None in E. lia.
Qed.

Lemma optimize_lambda_in_range_witness :
  let leps := Fin (5 # 100) in
  let validation := np_array [ [Fin 7; Fin 2]; [Fin 6; Fin 9] ] in
  let lambda_arr := [Fin 0; Fin 1] in
  0 < len2 validation /\ fle (Fin 0) leps = true /\
  positive_minima validation /\ length lambda_arr = len2 validation /\
  exists i, optimize_lambda leps validation = Ok i /\
            0 <= i <= len2 validation - 1 /\
            exists v, nth_error lambda_arr i = Some v.
Proof.
  intros leps validation lambda_arr.
  assert (Hr : 0 < len2 validation) by (unfold len2; simpl; lia).
  assert (Hl : fle (Fin 0) leps = true) by reflexivity.
  assert (Hp : positive_minima validation).
  { intros n Hn. simpl in Hn.
    assert (Hn' : n = 0 \/ n = 1) by lia.
    destruct Hn' as [-> | ->]; [exists 1 | exists 0];
      (split; [|reflexivity]);
      (split; [simpl; lia|]); (split; [reflexivity|]);
      split; intros j Hj;
      (destruct j as [|[|[|j]]]; [cbv; auto ..|]); cbn in Hj; lia. }
  assert (He : length lambda_arr = len2 validation) by reflexivity.
  split; [exact Hr|]. split; [exact Hl|]. split; [exact Hp|].
  split; [exact He|].
  exact (@optimize_lambda_in_range leps validation lambda_arr Hr Hl Hp He).
Defined.

(** C1 (as stated, refuted).  The index chosen for order [k+1] can be
    smaller than the index chosen for order [k]: with [leps = 0.05], a
    first matrix whose columns decrease down the grid selects index 2 and a
    second matrix whose columns increase selects index 0. *)
Lemma optimize_lambda_not_monotone_across_orders :
  ~ (forall (leps : f64) (validations : list ndarray2) (k ik ik1 : nat),
        nth_error (chosen_per_order leps validations) k = Some (Ok ik) ->
        nth_error (chosen_per_order leps validations) (S k) = Some (Ok ik1) ->
        ik <= ik1).
Proof.
  intros H.
  specialize (H (Fin (5 # 100))
                [ np_array [ [Fin 3; Fin 3; Fin 3];
                             [Fin 2; Fin 2; Fin 2];
                             [Fin 1; Fin 1; Fin 1] ];
                  np_array [ [Fin 1; Fin 1; Fin 1];
                             [Fin 2; Fin 2; Fin 2];
                             [Fin 3; Fin 3; Fin 3] ] ]
                0 2 0 eq_refl eq_refl).
  lia.
Qed.

(** C1 (amended).  Within one call of [optimize_lambda] the running state
    is monotone over the columns of the one matrix it is given: processing
    further columns never lowers [maxm] and never raises [minr]. *)
Theorem optimize_lambda_running_state_monotone
  (leps : f64) (validation : ndarray2) (ns1 ns2 : list nat)
  (st st1 st2 : nat * nat) :
  ol_loop leps validation st ns1 = Ok st1 ->
  ol_loop leps validation st (ns1 ++ ns2) = Ok st2 ->
  fst st1 <= fst st2 /\ snd st2 <= snd st1.
Proof.
  intros H1 H2. rewrite ol_loop_app, H1 in H2. simpl in H2.
  eapply ol_loop_mono; eauto.
Qed.

Lemma optimize_lambda_running_state_monotone_witness :
  let leps := Fin (5 # 100) in
  let validation := np_array [ [Fin 3; Fin 1]; [Fin 2; Fin 4] ] in
  ol_loop leps validation (0, 2) [0] = Ok (1, 1) /\
  ol_loop leps validation (0, 2) ([0] ++ [1]) = Ok (1, 0) /\
  fst (1, 1) <= fst (1, 0) /\ snd (1, 0) <= snd (1, 1).
Proof.
  intros leps validation.
  assert (H1 : ol_loop leps validation (0, 2) [0] = Ok (1, 1))
    by reflexivity.
  assert (H2 : ol_loop leps validation (0, 2) ([0] ++ [1]) = Ok (1, 0))
    by reflexivity.
  split; [exact H1|]. split; [exact H2|].
  exact (@optimize_lambda_running_state_monotone
           leps validation [0] [1] (0, 2) (1, 1) (1, 0) H1 H2).
Defined.

(** ** The constructor *)

Lemma default_lambda_arr_length (pow10 : Q -> f64) :
  length (default_lambda_arr pow10) = 36.
Proof. unfold default_lambda_arr. rewrite length_map. reflexivity. Qed.

Lemma getitem_0 {A} (x : A) (l : list A) : getitem (x :: l) 0 = Ok x.
Proof.
  unfold getitem, py_index.
  replace ((0 <=? 0)%Z && (0 <? Z.of_nat (length (x :: l)))%Z) with true.
  - reflexivity.
  - symmetry. apply andb_true_iff. split; [reflexivity|].
    apply Z.ltb_lt. simpl length. lia.
Qed.

(** C5. After construction [self.lambda_arr] has 0 as its first element,
    for every supplied non-empty [lambda_arr] and for the default grid: a 0
    is prepended exactly when the first element of the grid differs from 0,
    and the grid is left as it is when it already starts with 0. *)
Theorem lambda_arr_starts_with_zero
  (pow10 : Q -> f64) (mission_breakpoints : list Z) (kw : kwargs) :
  (forall l, kw_lambda_arr kw = Some l -> l <> []) ->
  (0 < kw_get (kw_pld_order kw) 3)%Z ->
  let grid := kw_get (kw_lambda_arr kw) (default_lambda_arr pow10) in
  exists self,
    Detrender_init pow10 mission_breakpoints kw = Ok self /\
    (exists x tl, lambda_arr self = x :: tl /\ feq x (Fin 0) = true) /\
    (fne (hd NaN grid) (Fin 0) = true -> lambda_arr self = Fin 0 :: grid) /\
    (fne (hd NaN grid) (Fin 0) = false -> lambda_arr self = grid).
Proof.
  intros Hne Hpld grid.
  assert (Hg : grid <> []).
  { unfold grid. destruct (kw_lambda_arr kw) as [l|] eqn:E; simpl.
    - now apply Hne.
    - intro H. pose proof (default_lambda_arr_length pow10) as Hl.
      rewrite H in Hl. discriminate. }
  unfold Detrender_init, init_lambda_arr. fold grid.
  destruct grid as [|x tl] eqn:Eg; [congruence|].
  rewrite getitem_0. cbn [rbind hd].
  assert (Hp : negb (kw_get (kw_pld_order kw) 3 >? 0)%Z = false).
  { apply negb_false_iff. apply Z.gtb_lt. lia. }
  destruct (fne x (Fin 0)) eqn:E; cbn [rbind]; rewrite Hp;
    eexists; (split; [reflexivity|]); cbn [lambda_arr].
  - split; [exists (Fin 0), (x :: tl); split; reflexivity|].
    split; [reflexivity|discriminate].
  - split.
    + exists x, tl. split; [reflexivity|].
      unfold fne in E. now apply negb_false_iff in E.
    + split; [discriminate|reflexivity].
Qed.

Lemma lambda_arr_starts_with_zero_witness :
  let pow10 := fun q : Q => Fin (Qpower 10 (Qfloor q)) in
  let kw := {| kw_lambda_arr := Some [Fin 1; Fin 100000; Fin 10000000000];
               kw_leps := None; kw_osigma := None; kw_oiter := Some 3%Z;
               kw_cdivs := None; kw_giter := Some 1; kw_optimize_gp := None;
               kw_kernel_params := None; kw_bpad := None;
               kw_breakpoints := None; kw_pld_order := Some 2%Z |} in
  exists self,
    Detrender_init pow10 [1940%Z] kw = Ok self /\
    lambda_arr self = [Fin 0; Fin 1; Fin 100000; Fin 10000000000].
Proof.
  intros pow10 kw.
  assert (H1 : forall l, kw_lambda_arr kw = Some l -> l <> []).
  { intros l H. inversion H. discriminate. }
  assert (H2 : (0 < kw_get (kw_pld_order kw) 3)%Z) by reflexivity.
  destruct (@lambda_arr_starts_with_zero pow10 [1940%Z] kw H1 H2)
    as (self & Hinit & _ & Hpre & _).
  exists self. split; [exact Hinit|]. apply Hpre. reflexivity.
Defined.

(** ** [get_outliers] *)

Lemma array_equal_eq (a b : list Z) : array_equal a b = true <-> a = b.
Proof.
  revert b. induction a as [|x a IH]; intros [|y b]; simpl;
    try (split; [discriminate|congruence]); try tauto.
  rewrite andb_true_iff, Z.eqb_eq, IH. split.
  - intros [-> ->]. reflexivity.
  - intros H. inversion H. auto.
Qed.

Lemma rev_two {A} (h : list A) (a b : A) (e : list A) :
  rev h = a :: b :: e -> h = rev e ++ [b; a].
Proof.
  intros H. rewrite <- (rev_involutive h), H. simpl.
  now rewrite <- app_assoc.
Qed.

Lemma last_two_equal_inv (pre : list (list Z)) (a b : list Z) :
  last_two_equal (pre ++ [b; a]) -> b = a.
Proof.
  intros (pre' & c & H).
  assert (E : rev (pre ++ [b; a]) = rev (pre' ++ [c; c])) by now rewrite H.
  rewrite !rev_app_distr in E. simpl in E. congruence.
Qed.

Section GetOutliersFacts.

Variable compute_model : Detrender -> result (list f64).
Variable SavGol : list f64 -> list f64.

Lemma clip_once_oiter (self : Detrender) (t : list f64) :
  oiter (snd (clip_once compute_model SavGol t self)) = oiter self.
Proof.
  unfold clip_once, mbind, do_compute, mget, mlift, assign_outmask, mret.
  destruct (compute_model self) as [m|]; simpl; [|reflexivity].
  destruct (flux _) as [fl|]; simpl; [|reflexivity].
  destruct (og_M _ _) as [mf|]; simpl; [|reflexivity].
  destruct (project_inds _ _ _) as [ks|]; simpl; reflexivity.
Qed.

Lemma last_two_equal_iff (h : list (list Z)) (a b : list Z)
  (e : list (list Z)) :
  rev h = a :: b :: e -> (array_equal b a = true <-> last_two_equal h).
Proof.
  intros Er. pose proof (rev_two _ Er) as Eh. split.
  - intros Eq. apply array_equal_eq in Eq. subst b.
    now exists (rev e), a.
  - intros Hc. rewrite Eh in Hc. apply last_two_equal_inv in Hc.
    now apply array_equal_eq.
Qed.

Lemma last_matches_earlier_iff (h : list (list Z)) (a b : list Z)
  (e : list (list Z)) :
  rev h = a :: b :: e ->
  (existsb (array_equal a) (b :: e) = true <-> last_matches_earlier h).
Proof.
  intros Er. pose proof (rev_two _ Er) as Eh. split.
  - intros Hc. apply existsb_exists in Hc. destruct Hc as (x & Hx & Hxa).
    apply array_equal_eq in Hxa. subst x.
    exists (rev e ++ [b]), a. split.
    + rewrite Eh, <- app_assoc. reflexivity.
    + apply in_rev. rewrite rev_app_distr, rev_involutive. exact Hx.
  - intros (pre & c & Hh & Hin).
    assert (E : rev h = c :: rev pre) by (rewrite Hh, rev_app_distr; reflexivity).
    rewrite Er in E. inversion E; subst c.
    apply existsb_exists. exists a. split.
    + replace (b :: e) with (rev pre) by congruence. now apply -> in_rev.
    + now apply array_equal_eq.
Qed.

Lemma went_on_to_snoc (o : Z) (h : list (list Z)) (x : list Z) :
  went_on_to o h -> ~ stops_at o h -> went_on_to o (h ++ [x]).
Proof.
  intros Hw Hn p post Heq Hne Hlen.
  destruct (exists_last Hne) as (post' & y & ->).
  rewrite app_assoc in Heq. apply app_inj_tail in Heq. destruct Heq as [Hh _].
  destruct post' as [|z post'].
  - rewrite app_nil_r in Hh. now subst p.
  - apply (Hw p (z :: post') Hh); [discriminate|exact Hlen].
Qed.

Lemma outliers_loop_terminates (k : nat) :
  forall (self : Detrender) (t : list f64) (h : list (list Z)),
    2 <= length h ->
    (Z.of_nat (length h) - 1 + Z.of_nat k > oiter self)%Z ->
    (Z.of_nat (length h) - 2 <= Z.max 0 (oiter self))%Z ->
    went_on_to (oiter self) h ->
    exists r self',
      (forall fuel, k < fuel ->
         outliers_loop compute_model SavGol fuel t h (length h - 2) self
         = Some (r, self')) /\
      exit_ok (oiter self) r.
Proof.
  induction k as [|k IH]; intros self t h Hlen Hk Hinv Hw;
    (destruct (rev h) as [|a [|b e]] eqn:Er;
      try (apply (f_equal (@length _)) in Er; rewrite length_rev in Er;
           simpl in Er; lia));
    pose proof (@last_two_equal_iff h a b e Er) as Heq2;
    pose proof (@last_matches_earlier_iff h a b e Er) as Hcirc;
    assert (Hpass : forall x n, passes (mk_outliers_exit h x n)
                                = length h - 2) by reflexivity.
  - (* the cap is already exceeded: this test of the condition is the last *)
    destruct (array_equal b a) eqn:Eq.
    + do 2 eexists. split.
      * intros [|fuel] Hf; [lia|]. simpl. rewrite Er, Eq. reflexivity.
      * cbn [exit_ok history reason entries]. rewrite Hpass.
        split; [exact Hw|]. split; [lia|]. split; [|reflexivity].
        now apply Heq2.
    + assert (Hgt : (Z.of_nat (length h) - 1 >? oiter self)%Z = true)
        by (apply Z.gtb_lt; lia).
      do 2 eexists. split.
      * intros [|fuel] Hf; [lia|]. simpl. rewrite Er, Eq, Hgt. reflexivity.
      * cbn [exit_ok history reason entries]. rewrite Hpass.
        split; [exact Hw|]. split; [lia|]. split; [|split; [|reflexivity]].
        -- intros Hc. apply Heq2 in Hc. congruence.
        -- unfold over_cap. lia.
  - destruct (array_equal b a) eqn:Eq.
    { do 2 eexists. split.
      * intros [|fuel] Hf; [lia|]. simpl. rewrite Er, Eq. reflexivity.
      * cbn [exit_ok history reason entries]. rewrite Hpass.
        split; [exact Hw|]. split; [lia|]. split; [|reflexivity].
        now apply Heq2. }
    assert (Hne : ~ last_two_equal h).
    { intros Hc. apply Heq2 in Hc. congruence. }
    destruct (Z.of_nat (length h) - 1 >? oiter self)%Z eqn:Hgt.
    { do 2 eexists. split.
      * intros [|fuel] Hf; [lia|]. simpl. rewrite Er, Eq, Hgt. reflexivity.
      * cbn [exit_ok history reason entries]. rewrite Hpass.
        split; [exact Hw|]. split; [lia|].
        split; [exact Hne|split; [|reflexivity]].
        unfold over_cap. apply Z.gtb_lt in Hgt. lia. }
    assert (Hle : (Z.of_nat (length h) - 1 <= oiter self)%Z).
    { destruct (Z.gtb_spec (Z.of_nat (length h) - 1) (oiter self));
        [discriminate|lia]. }
    assert (Hncap : ~ over_cap (oiter self) h) by (unfold over_cap; lia).
    destruct (existsb (array_equal a) (b :: e)) eqn:Hc.
    { do 2 eexists. split.
      * intros [|fuel] Hf; [lia|]. cbn [outliers_loop].
        rewrite Er, Eq, Hgt, Hc. reflexivity.
      * cbn [exit_ok history reason entries]. rewrite Hpass.
        split; [exact Hw|]. split; [lia|].
        split; [exact Hne|]. split; [exact Hncap|].
        split; [|reflexivity]. now apply Hcirc. }
    assert (Hnc : ~ last_matches_earlier h).
    { intros Hx. apply Hcirc in Hx. congruence. }
    assert (Hns : ~ stops_at (oiter self) h) by (intros [H|[H|H]]; auto).
    pose proof (clip_once_oiter self t) as Ho.
    destruct (clip_once compute_model SavGol t self) as [[inds|ex] self1]
      eqn:Ec; simpl snd in Ho.
    + destruct (IH self1 t (h ++ [inds])) as (r & self' & Hr & Hok).
      * rewrite length_app. simpl. lia.
      * rewrite length_app, Ho. simpl. lia.
      * rewrite length_app, Ho. simpl. lia.
      * rewrite Ho. now apply went_on_to_snoc.
      * exists r, self'. split; [|now rewrite <- Ho].
        intros [|fuel] Hf; [lia|]. cbn [outliers_loop].
        rewrite Er, Eq, Hgt, Hc, Ec.
        replace (S (length h - 2)) with (length (h ++ [inds]) - 2)
          by (rewrite length_app; simpl; lia).
        apply Hr. lia.
    + exists (Raise ex), self1. split; [|exact I].
      intros [|fuel] Hf; [lia|]. cbn [outliers_loop].
      rewrite Er, Eq, Hgt, Hc, Ec. reflexivity.
Qed.

End GetOutliersFacts.

(** C6 (as stated, refuted).  The loop body is not entered at most [oiter]
    times: with [oiter = 1] and a clipping that finds the outlier at its
    first pass, the body is entered a second time, where the count
    [len(outmask) - 1 = 2] exceeds the cap and the loop is left by
    [break]. *)
Lemma get_outliers_body_entered_beyond_cap :
  ~ (forall (compute_model : Detrender -> result (list f64))
            (SavGol : list f64 -> list f64) (self : Detrender) (fuel : nat)
            (e : outliers_exit) (self' : Detrender),
        get_outliers_fuel compute_model SavGol fuel self
          = Some (Ok e, self') ->
        (Z.of_nat (entries e) <= oiter self)%Z).
Proof.
  intros H.
  specialize (H (fun s : Detrender => Ok (map (fun _ => Fin 0) (time s)))
                (fun f : list f64 => f) small_self_capped 4
                (mk_outliers_exit [[(-1)%Z]; []; [2%Z]] MaxIter 2)
                (set_outmask
                   (set_model small_self_capped
                      [Fin 0; Fin 0; Fin 0; Fin 0]) [2%Z])).
  assert (Hrun : get_outliers_fuel
                   (fun s : Detrender => Ok (map (fun _ => Fin 0) (time s)))
                   (fun f : list f64 => f) 4 small_self_capped
                 = Some (Ok (mk_outliers_exit [[(-1)%Z]; []; [2%Z]] MaxIter 2),
                         set_outmask
                           (set_model small_self_capped
                              [Fin 0; Fin 0; Fin 0; Fin 0]) [2%Z]))
    by (vm_compute; reflexivity).
  specialize (H Hrun). simpl in H. lia.
Qed.

(** C6 (amended).  Every call of [get_outliers] terminates: with fuel for
    [max(0, oiter) + 1] tests of the loop condition the loop is left, by an
    exception of the model computation or by one of three exits.  It is
    left when the newly computed outlier set equals the previous one, when
    the iteration count [len(outmask) - 1] exceeds [oiter], or when the
    current set matches an earlier one, and it goes on only while none of
    the three holds.  The body computes a new set at most [max(0, oiter)]
    times and is entered at most [max(0, oiter) + 1] times: once per set
    computed, and once more when the loop is left by a [break]. *)
Theorem get_outliers_terminates
  (compute_model : Detrender -> result (list f64))
  (SavGol : list f64 -> list f64) (self : Detrender) :
  exists r self',
    (forall fuel, Z.to_nat (oiter self) + 1 <= fuel ->
       get_outliers_fuel compute_model SavGol fuel self = Some (r, self')) /\
    exit_ok (oiter self) r /\
    (forall e, r = Ok e ->
       stops_at (oiter self) (history e) /\
       (Z.of_nat (passes e) <= Z.max 0 (oiter self))%Z /\
       (Z.of_nat (entries e) <= Z.max 0 (oiter self) + 1)%Z).
Proof.
  unfold get_outliers_fuel.
  destruct (og_M self (time self)) as [t|ex].
  - destruct (@outliers_loop_terminates compute_model SavGol
                (Z.to_nat (oiter self)) self t [[(-1)%Z]; outmask self])
      as (r & self' & Hr & Hok); simpl length; try lia.
    { intros p post Hp Hne Hlen.
      apply (f_equal (@length _)) in Hp. rewrite length_app in Hp.
      simpl in Hp. destruct post; [congruence|simpl in Hp; lia]. }
    exists r, self'. split; [|split; [exact Hok|]].
    + intros fuel Hf. apply Hr. lia.
    + intros e ->. destruct Hok as (_ & Hp & Hre).
      destruct (reason e).
      * destruct Hre as (H1 & H2). split; [now left|]. split; lia.
      * destruct Hre as (_ & H1 & H2). split; [right; now left|].
        split; lia.
      * destruct Hre as (_ & _ & H1 & H2). split; [right; now right|].
        split; lia.
  - exists (Raise ex), self. split; [reflexivity|]. split; [exact I|].
    discriminate.
Qed.

Lemma get_outliers_terminates_witness :
  let compute_model := fun s : Detrender => Ok (map (fun _ => Fin 0) (time s)) in
  let SavGol := fun f : list f64 => f in
  exists e self',
    get_outliers_fuel compute_model SavGol 4 small_self
      = Some (Ok e, self') /\
    history e = [[(-1)%Z]; []; [2%Z]; [2%Z]] /\
    outmask self' = [2%Z] /\
    reason e = FixedPoint /\
    entries e = 2 /\
    stops_at (oiter small_self) (history e) /\
    (Z.of_nat (entries e) <= Z.max 0 (oiter small_self) + 1)%Z.
Proof.
  intros compute_model SavGol.
  destruct (@get_outliers_terminates compute_model SavGol small_self)
    as (r & s' & Hr & _ & Hb).
  assert (Hf : Z.to_nat (oiter small_self) + 1 <= 4) by (simpl; lia).
  specialize (Hr 4 Hf).
  assert (Hc : exists e self',
             get_outliers_fuel compute_model SavGol 4 small_self
               = Some (Ok e, self') /\
             history e = [[(-1)%Z]; []; [2%Z]; [2%Z]] /\
             outmask self' = [2%Z] /\
             reason e = FixedPoint /\
             entries e = 2).
  { do 2 eexists. split; [vm_compute; reflexivity|]. repeat split. }
  destruct Hc as (e & self' & He & Hh & Ho & Hre & Hen).
  exists e, self'. split; [exact He|]. split; [exact Hh|].
  split; [exact Ho|]. split; [exact Hre|]. split; [exact Hen|].
  assert (Er : r = Ok e) by (rewrite He in Hr; now inversion Hr).
  destruct (Hb e Er) as (H1 & _ & H3). split; [exact H1|exact H3].
Defined.

(** ** Arrays entry by entry *)

Lemma length_map2 {A B C} (f : A -> B -> C) (a : list A) (b : list B) :
  length (map2 f a b) = Nat.min (length a) (length b).
Proof.
  revert b. induction a as [|x a IH]; intros [|y b]; simpl; auto.
Qed.

Lemma nth_map2 {A B C} (f : A -> B -> C) (a : list A) (b : list B)
  (i : nat) (da : A) (db : B) (d : C) :
  i < length a -> i < length b ->
  nth i (map2 f a b) d = f (nth i a da) (nth i b db).
Proof.
  revert b i. induction a as [|x a IH]; intros [|y b] [|i] Ha Hb;
    simpl in *; try lia; auto.
  apply IH; lia.
Qed.

Lemma rectangular_nth (M : ndarray2) (i : nat) :
  rectangular M -> i < len2 M -> length (nth i (rows M) []) = ncols M.
Proof.
  unfold rectangular, len2. intros H Hi. rewrite Forall_forall in H.
  apply H, nth_In, Hi.
Qed.

Lemma rectangular_of_nth (nc : nat) (rs : list (list f64)) :
  (forall i, i < length rs -> length (nth i rs []) = nc) ->
  rectangular (mk_ndarray2 nc rs).
Proof.
  intros H. unfold rectangular. simpl. apply Forall_forall. intros r Hr.
  destruct (In_nth _ _ [] Hr) as (i & Hi & <-). now apply H.
Qed.

Lemma nth_map_in {A B} (f : A -> B) (l : list A) (i : nat) (d : B) (d' : A) :
  i < length l -> nth i (map f l) d = f (nth i l d').
Proof.
  intros Hi. rewrite nth_indep with (d' := f d') by (now rewrite length_map).
  apply map_nth.
Qed.

(** An array given by a function of the two positions. *)
Lemma entry_tabulate (F : nat -> nat -> f64) (nr nc i j : nat) :
  i < nr -> j < nc ->
  entry (mk_ndarray2 nc (map (fun i => map (fun j => F i j) (seq 0 nc))
                             (seq 0 nr))) i j = F i j.
Proof.
  intros Hi Hj. unfold entry. simpl.
  rewrite nth_map_in with (d' := 0) by (now rewrite length_seq).
  rewrite nth_map_in with (d' := 0) by (now rewrite length_seq).
  now rewrite !seq_nth.
Qed.

Lemma rectangular_tabulate (F : nat -> nat -> f64) (nr nc : nat) :
  rectangular (mk_ndarray2 nc (map (fun i => map (fun j => F i j) (seq 0 nc))
                                   (seq 0 nr))).
Proof.
  unfold rectangular. simpl. apply Forall_forall. intros r Hr.
  apply in_map_iff in Hr. destruct Hr as (i & <- & _).
  now rewrite length_map, length_seq.
Qed.

(** Two rectangular arrays of one shape with the same entries are equal. *)
Lemma ndarray2_ext (a b : ndarray2) :
  len2 a = len2 b -> ncols a = ncols b -> rectangular a -> rectangular b ->
  (forall i j, i < len2 a -> j < ncols a -> entry a i j = entry b i j) ->
  a = b.
Proof.
  destruct a as [ca ra], b as [cb rb]. unfold len2. simpl.
  intros Hl Hc Ha Hb He. subst cb. f_equal.
  apply nth_ext with (d := []) (d' := []); auto.
  intros i Hi.
  pose proof (@rectangular_nth (mk_ndarray2 ca ra) i Ha Hi) as La.
  assert (Hi' : i < length rb) by lia.
  pose proof (@rectangular_nth (mk_ndarray2 ca rb) i Hb Hi') as Lb.
  simpl in La, Lb.
  apply nth_ext with (d := NaN) (d' := NaN); [congruence|].
  intros j Hj. apply (He i j); [exact Hi|]. simpl. lia.
Qed.

Lemma mat_add_spec (a b : ndarray2) :
  len2 b = len2 a -> ncols b = ncols a -> rectangular a -> rectangular b ->
  exists c, mat_add a b = Ok c /\
    len2 c = len2 a /\ ncols c = ncols a /\ rectangular c /\
    forall i j, i < len2 a -> j < ncols a ->
                entry c i j = (entry a i j + entry b i j)%f64.
Proof.
  intros Hl Hc Ha Hb. unfold mat_add, same_shape.
  rewrite Hl, Hc, !Nat.eqb_refl. simpl.
  eexists. split; [reflexivity|]. unfold len2 in *. simpl.
  assert (Hlen : length (map2 (map2 fadd) (rows a) (rows b)) = length (rows a))
    by (rewrite length_map2; lia).
  assert (Hrow : forall i, i < length (rows a) ->
            nth i (map2 (map2 fadd) (rows a) (rows b)) [] =
            map2 fadd (nth i (rows a) []) (nth i (rows b) [])).
  { intros i Hi. apply nth_map2; lia. }
  split; [exact Hlen|]. split; [reflexivity|]. split.
  - apply rectangular_of_nth. intros i Hi. rewrite Hlen in Hi.
    rewrite Hrow by auto. rewrite length_map2.
    rewrite (@rectangular_nth a i Ha Hi).
    rewrite (@rectangular_nth b i Hb) by (unfold len2; lia). lia.
  - intros i j Hi Hj. unfold entry. simpl. rewrite Hrow by auto.
    apply nth_map2.
    + rewrite (@rectangular_nth a i Ha Hi). exact Hj.
    + rewrite (@rectangular_nth b i Hb) by (unfold len2; lia). lia.
Qed.

Lemma entry_np_diag (v : list f64) (i j : nat) :
  i < length v -> j < length v ->
  entry (np_diag v) i j = if i =? j then nth i v NaN else Fin 0.
Proof. intros Hi Hj. unfold np_diag. now rewrite entry_tabulate. Qed.

Lemma entry_gp_get_matrix (k : f64 -> f64 -> f64 -> f64) (amp tau : f64)
  (time : list f64) (i j : nat) :
  i < length time -> j < length time ->
  entry (gp_get_matrix k amp tau time) i j =
  (fpow2 amp * k (fpow2 tau) (nth i time NaN) (nth j time NaN))%f64.
Proof.
  intros Hi Hj. unfold entry, gp_get_matrix. simpl.
  rewrite nth_map_in with (d' := NaN) by auto.
  now rewrite nth_map_in with (d' := NaN) by auto.
Qed.

Lemma rectangular_gp_get_matrix (k : f64 -> f64 -> f64 -> f64)
  (amp tau : f64) (time : list f64) :
  rectangular (gp_get_matrix k amp tau time).
Proof.
  unfold rectangular, gp_get_matrix. simpl. apply Forall_forall.
  intros r Hr. apply in_map_iff in Hr. destruct Hr as (t & <- & _).
  now rewrite length_map.
Qed.

(** C4. For a kernel triple [(white, amp, tau)], a time grid and an error
    vector of the same length, [GetCovariance] returns a square array sized
    to [time] whose entries are those of [diag(errors^2)] plus those of the
    Matern-3/2 kernel matrix of amplitude [amp] and timescale [tau]; the
    result does not depend on [white]. *)
Theorem GetCovariance_definition
  (Matern32Kernel : f64 -> f64 -> f64 -> f64)
  (white amp tau : f64) (time errors : list f64) :
  length errors = length time ->
  exists K,
    GetCovariance Matern32Kernel (Some [white; amp; tau]) time errors = Ok K /\
    len2 K = length time /\ ncols K = length time /\ rectangular K /\
    (forall i j, i < length time -> j < length time ->
       entry K i j =
       ((if i =? j then fpow2 (nth i errors NaN) else Fin 0) +
        fpow2 amp * Matern32Kernel (fpow2 tau) (nth i time NaN) (nth j time NaN))%f64) /\
    (forall white',
       GetCovariance Matern32Kernel (Some [white'; amp; tau]) time errors
       = Ok K).
Proof.
  intros Hlen. unfold GetCovariance. cbn [unpack3 rbind].
  set (D := np_diag (map fpow2 errors)).
  set (G := gp_get_matrix Matern32Kernel amp tau time).
  assert (HD : len2 D = length time /\ ncols D = length time).
  { unfold D, np_diag, len2. simpl.
    now rewrite !length_map, length_seq, Hlen. }
  assert (HG : len2 G = length time /\ ncols G = length time).
  { unfold G, gp_get_matrix, len2. simpl. now rewrite length_map. }
  destruct HD as [HD1 HD2], HG as [HG1 HG2].
  destruct (@mat_add_spec D G) as (K & HK & Hl & Hc & Hr & He);
    try congruence.
  { apply rectangular_tabulate. }
  { apply rectangular_gp_get_matrix. }
  assert (Hi : iadd D G = Ok K).
  { unfold iadd, same_shape. rewrite HD1, HD2, HG1, HG2, !Nat.eqb_refl.
    exact HK. }
  exists K. rewrite Hi. split; [reflexivity|].
  split; [congruence|]. split; [congruence|]. split; [exact Hr|].
  split; [|reflexivity].
  intros i j Hi' Hj'. rewrite He by congruence. unfold D, G.
  rewrite entry_np_diag by (rewrite length_map; congruence).
  rewrite entry_gp_get_matrix by auto.
  destruct (i =? j); [|reflexivity].
  now rewrite nth_map_in with (d' := NaN) by congruence.
Qed.

Lemma GetCovariance_definition_witness :
  let k := fun metric t1 t2 : f64 =>
             (Fin 1 / (Fin 1 + (t1 - t2) * (t1 - t2) / metric))%f64 in
  let time := [Fin 0; Fin 1] in
  let errors := [Fin 2; Fin 3] in
  length errors = length time /\
  GetCovariance k (Some [Fin 7; Fin 1; Fin 1]) time errors =
  Ok (mk_ndarray2 2 [ [Fin 5; Fin (1 # 2)]; [Fin (1 # 2); Fin 10] ]).
Proof.
  intros k time errors.
  assert (H : length errors = length time) by reflexivity.
  split; [exact H|].
  destruct (@GetCovariance_definition k (Fin 7) (Fin 1) (Fin 1) time errors H)
    as (K & HK & _).
  rewrite HK. vm_compute in HK. inversion HK. reflexivity.
Defined.

(** ** [cv_compute] *)

Lemma entry_mat_scale (l : f64) (a : ndarray2) (i j : nat) :
  rectangular a -> i < len2 a -> j < ncols a ->
  entry (mat_scale l a) i j = (l * entry a i j)%f64.
Proof.
  intros Hr Hi Hj. unfold entry, mat_scale. simpl.
  rewrite nth_map_in with (d' := []) by exact Hi.
  apply nth_map_in. now rewrite (@rectangular_nth a i Hr Hi).
Qed.

Lemma rectangular_mat_scale (l : f64) (a : ndarray2) :
  rectangular a -> rectangular (mat_scale l a).
Proof.
  unfold rectangular, mat_scale. simpl. intros H.
  apply Forall_forall. intros r Hr. apply in_map_iff in Hr.
  destruct Hr as (r0 & <- & Hr0). rewrite length_map.
  rewrite Forall_forall in H. now apply H.
Qed.

Lemma weighted_ready (nr nc : nat) (lam_b : list (option f64)) :
  forall Ms, orders_ready nr nc lam_b Ms ->
  exists ws, weighted lam_b Ms = Ok ws /\
    Forall (shaped nr nc) ws /\
    length ws = active_orders lam_b Ms /\
    forall i j, i < nr -> j < nc ->
      map (fun w => entry w i j) ws = lam_terms lam_b Ms i j.
Proof.
  induction lam_b as [|l lam' IH]; intros [|a Ms'] H; simpl in *;
    try (exists []; repeat split; auto; fail).
  - destruct l; exists []; repeat split; auto.
  - destruct l as [l|].
    + destruct a as [a|]; [|contradiction].
      destruct H as (Hl & Hc & Hr & H').
      destruct (IH Ms' H') as (ws & Hw & Hs & Hn & He).
      rewrite Hw. simpl. eexists. split; [reflexivity|]. split; [|split].
      * constructor; auto. unfold shaped, mat_scale, len2. simpl.
        rewrite length_map. repeat split; auto.
        now apply rectangular_mat_scale.
      * simpl. now rewrite Hn.
      * intros i j Hi Hj. simpl. rewrite He by auto.
        rewrite entry_mat_scale; auto; lia.
    + destruct (IH Ms' H) as (ws & Hw & Hs & Hn & He).
      exists ws. repeat split; auto.
Qed.

Lemma sum_from_spec (nr nc : nat) (ws : list ndarray2) :
  forall acc, shaped nr nc acc -> Forall (shaped nr nc) ws ->
  exists s, sum_from acc ws = Ok s /\ shaped nr nc s /\
    forall i j, i < nr -> j < nc ->
      entry s i j = fold_left fadd (map (fun w => entry w i j) ws)
                                   (entry acc i j).
Proof.
  induction ws as [|w ws IH]; intros acc Ha Hw; simpl.
  - exists acc. repeat split; auto; apply Ha.
  - inversion Hw as [|? ? Hw1 Hw2]; subst.
    destruct Ha as (Ha1 & Ha2 & Ha3), Hw1 as (Hb1 & Hb2 & Hb3).
    destruct (@mat_add_spec acc w) as (c & Hc & Hl & Hn & Hr & He);
      try congruence.
    rewrite Hc. simpl.
    destruct (IH c) as (s & Hs & Hsh & Hse); auto.
    { repeat split; congruence. }
    exists s. split; [exact Hs|]. split; [exact Hsh|].
    intros i j Hi Hj. rewrite Hse by auto. rewrite He by congruence.
    reflexivity.
Qed.

Lemma np_sum_axis0_total (nr nc : nat) (lam_b : list (option f64))
  (Ms : list (option ndarray2)) :
  orders_ready nr nc lam_b Ms -> 0 < active_orders lam_b Ms ->
  exists ws, weighted lam_b Ms = Ok ws /\
             np_sum_axis0 ws = Ok (Matrix (lam_total nr nc lam_b Ms)).
Proof.
  intros Hready Hact.
  destruct (weighted_ready _ _ _ _ Hready) as (ws & Hw & Hs & Hn & He).
  exists ws. split; [exact Hw|].
  destruct ws as [|w ws]; [simpl in Hn; lia|].
  inversion Hs as [|? ? Hs1 Hs2]; subst.
  destruct (@sum_from_spec nr nc ws w Hs1 Hs2) as (s & Hsum & Hsh & Hse).
  simpl. rewrite Hsum. simpl. do 2 f_equal.
  destruct Hsh as (H1 & H2 & H3).
  apply ndarray2_ext; auto.
  - unfold lam_total, len2. simpl. now rewrite length_map, length_seq.
  - apply rectangular_tabulate.
  - intros i j Hi Hj. rewrite Hse by congruence.
    unfold lam_total. rewrite entry_tabulate by congruence.
    rewrite <- He by congruence. reflexivity.
Qed.

(** C3. For a segment [b] whose table row has at least one non-null cell,
    [cv_compute] returns [B_total . W] minus its median, where [A_total]
    and [B_total] are the sums of [lam[b][n] * A[n]] and [lam[b][n] * B[n]]
    over the orders [n] with a non-null [lam[b][n]], and [W] is what the
    linear solve of [(mK + A_total) W = f] returns. *)
Theorem cv_compute_equations
  (linalg_solve : ndarray2 -> list f64 -> result (list f64))
  (self : Detrender) (b : nat) (lam_b : list (option f64))
  (A B : list (option ndarray2)) (mK : ndarray2) (f W : list f64)
  (p q : nat) :
  nth_error (lam self) b = Some lam_b ->
  orders_ready p p lam_b A ->
  orders_ready q p lam_b B ->
  0 < active_orders lam_b A ->
  length A = length B ->
  len2 mK = p -> ncols mK = p -> rectangular mK ->
  let A_total := lam_total p p lam_b A in
  let B_total := lam_total q p lam_b B in
  linalg_solve (plus_entries p p mK A_total) f = Ok W ->
  length W = p ->
  cv_compute linalg_solve self b A B mK f =
  Ok (recenter (times_vector B_total W)).
Proof.
  intros Hrow HA HB Hact Hlen Hk1 Hk2 Hk3 A_total B_total Hsolve HW.
  assert (HactB : 0 < active_orders lam_b B).
  { clear - Hact Hlen. revert A B Hact Hlen.
    induction lam_b as [|l lam' IH]; intros [|a A] [|b B] Hact Hlen;
      simpl in *; try lia; try discriminate.
    destruct l; [lia|]. apply (IH A B); auto. }
  destruct (np_sum_axis0_total _ _ _ _ HA Hact) as (As & HwA & HsA).
  destruct (np_sum_axis0_total _ _ _ _ HB HactB) as (Bs & HwB & HsB).
  unfold cv_compute. rewrite Hrow, HwA. cbn [rbind].
  rewrite HsA. cbn [rbind]. rewrite HwB. cbn [rbind].
  rewrite HsB. cbn [rbind add_nd].
  destruct (@mat_add_spec mK A_total) as (KA & HKA & Hl & Hc & Hr & He).
  { unfold A_total, lam_total, len2. simpl.
    rewrite length_map, length_seq. symmetry. exact Hk1. }
  { unfold A_total, lam_total. simpl. congruence. }
  { exact Hk3. }
  { apply rectangular_tabulate. }
  assert (HKA' : KA = plus_entries p p mK A_total).
  { apply ndarray2_ext; auto.
    - unfold plus_entries, len2. simpl.
      rewrite length_map, length_seq. unfold len2 in Hl, Hk1. congruence.
    - unfold plus_entries. simpl. congruence.
    - apply rectangular_tabulate.
    - intros i j Hi Hj. rewrite He by congruence.
      unfold plus_entries. rewrite entry_tabulate by congruence.
      reflexivity. }
  fold A_total. rewrite HKA. cbn [rbind]. rewrite HKA', Hsolve.
  cbn [rbind dot_nd]. unfold mat_vec. fold B_total.
  replace (ncols B_total =? length W) with true
    by (symmetry; apply Nat.eqb_eq; unfold B_total, lam_total; simpl; congruence).
  reflexivity.
Qed.

Lemma cv_compute_equations_witness :
  let solve1 := fun (M : ndarray2) (f : list f64) =>
    match rows M, f with
    | [[Fin a]], [Fin y] => Ok [Fin (Qred (y / a))]
    | _, _ => Raise LinAlgError
    end in
  let self := set_lam small_self [[Some (Fin 2); None]] in
  let A := [Some (mk_ndarray2 1 [[Fin 1]]); None] in
  let B := [Some (mk_ndarray2 1 [[Fin 1]; [Fin 3]; [Fin 2]]); None] in
  let mK := mk_ndarray2 1 [[Fin 2]] in
  cv_compute solve1 self 0 A B mK [Fin 8] =
  Ok [Fin (- 4); Fin 4; Fin 0].
Proof.
  intros solve1 self A B mK.
  assert (HA : orders_ready 1 1 [Some (Fin 2); None] A).
  { simpl. repeat split; auto. repeat constructor. }
  assert (HB : orders_ready 3 1 [Some (Fin 2); None] B).
  { simpl. repeat split; auto. repeat constructor. }
  assert (HK : rectangular mK) by repeat constructor.
  assert (HS : solve1 (plus_entries 1 1 mK
                         (lam_total 1 1 [Some (Fin 2); None] A)) [Fin 8]
               = Ok [Fin 2]) by reflexivity.
  rewrite (@cv_compute_equations solve1 self 0 [Some (Fin 2); None]
             A B mK [Fin 8] [Fin 2] 1 3 eq_refl HA HB
             (Nat.lt_0_succ _) eq_refl eq_refl eq_refl HK HS eq_refl).
  reflexivity.
Defined.

(** ** Relations that a method preserves *)

Section Preserves.

Variable R : Detrender -> Detrender -> Prop.
Hypothesis R_refl : forall s, R s s.
Hypothesis R_trans : forall s1 s2 s3, R s1 s2 -> R s2 s3 -> R s1 s3.

Lemma preserves_ret {A} (a : A) : preserves R (mret a).
Proof. intros s. apply R_refl. Qed.

Lemma preserves_get : preserves R mget.
Proof. intros s. apply R_refl. Qed.

Lemma preserves_lift {A} (r : result A) : preserves R (mlift r).
Proof. intros s. apply R_refl. Qed.

Lemma preserves_bind {A B} (m : M A) (f : A -> M B) :
  preserves R m -> (forall a, preserves R (f a)) -> preserves R (mbind m f).
Proof.
  intros Hm Hf s. unfold mbind. specialize (Hm s).
  destruct (m s) as [[a|e] s1]; simpl in *.
  - eapply R_trans; [exact Hm|]. apply Hf.
  - exact Hm.
Qed.

Lemma preserves_mfor {A} (xs : list A) (body : A -> M unit) :
  (forall x, preserves R (body x)) -> preserves R (mfor xs body).
Proof.
  intros Hb. induction xs as [|x xs IH]; simpl.
  - apply preserves_ret.
  - apply preserves_bind; auto.
Qed.

Lemma preserves_mfold {A S} (xs : list A) (body : S -> A -> M S) :
  (forall acc x, preserves R (body acc x)) ->
  forall acc, preserves R (mfold xs acc body).
Proof.
  intros Hb. induction xs as [|x xs IH]; intros acc; simpl.
  - apply preserves_ret.
  - apply preserves_bind; auto.
Qed.

End Preserves.

Ltac preserve_step :=
  match goal with
  | |- preserves _ (mbind _ _) => apply preserves_bind; [auto|auto|..]
  | |- preserves _ (mret _) => apply preserves_ret; auto
  | |- preserves _ mget => apply preserves_get; auto
  | |- preserves _ (mlift _) => apply preserves_lift; auto
  | |- preserves _ (mfold _ _ _) => apply preserves_mfold; auto
  | |- preserves _ (mfor _ _) => apply preserves_mfor; auto
  | |- preserves _ (if ?c then _ else _) => destruct c
  | |- preserves _ (match ?p with (_, _) => _ end) => destruct p
  | |- preserves _ (match ?o with Some _ => _ | None => _ end) => destruct o
  | |- forall _, _ => intro
  end.

Section CrossValidateFacts.

Variable get_masked_chunk :
  list f64 -> list Z -> Z -> list Z -> list Z -> list Z -> list Z ->
  nat -> list Z.
Variable X : Detrender -> nat -> list Z -> result ndarray2.
Variable Chunks : list Z -> Z -> result (list (list Z)).
Variable Matern32Kernel : f64 -> f64 -> f64 -> f64.
Variable gp_predict :
  f64 -> f64 -> list f64 -> list f64 -> list f64 -> list f64 ->
  result (list f64).
Variable np_sqrt : f64 -> f64.
Variable linalg_solve : ndarray2 -> list f64 -> result (list f64).
Variable compute_model : Detrender -> result (list f64).
Variable np_log10 : f64 -> f64.
Variable power10 : f64 -> f64.
Variable np_linspace : f64 -> f64 -> nat -> list f64.
Variable draw : plot_cmd -> result unit.
Variable get_cdpp_arr : Detrender -> list f64.

Let cv_segment' :=
  cv_segment get_masked_chunk X Chunks Matern32Kernel gp_predict np_sqrt
    linalg_solve np_log10 power10 np_linspace draw.
Let cross_validate' :=
  cross_validate get_masked_chunk X Chunks Matern32Kernel gp_predict np_sqrt
    linalg_solve compute_model np_log10 power10 np_linspace draw get_cdpp_arr.

(** The body of the segment loop preserves whatever the two assignments
    to row [b] and to [cdppv_arr[b]] preserve. *)
Lemma cv_segment_preserves (R : Detrender -> Detrender -> Prop)
  (xticks : option (list f64)) (b : nat) :
  (forall s, R s s) ->
  (forall s1 s2 s3, R s1 s2 -> R s2 s3 -> R s1 s3) ->
  (forall v, preserves R (assign_lam b v)) ->
  (forall v, preserves R (assign_cdppv b v)) ->
  preserves R (cv_segment' xticks b).
Proof.
  intros Hrefl Htrans Hlam Hcd.
  unfold cv_segment', cv_segment, cv_fold_step, cv_lambda_step.
  repeat preserve_step; auto.
Qed.

(** The last plot reads the object and writes nothing to it. *)
Lemma plot_summary_preserves (R : Detrender -> Detrender -> Prop)
  (xticks : option (list f64)) :
  (forall s, R s s) ->
  (forall s1 s2 s3, R s1 s2 -> R s2 s3 -> R s1 s3) ->
  preserves R (plot_summary np_log10 draw get_cdpp_arr xticks).
Proof.
  intros Hrefl Htrans. unfold plot_summary.
  repeat preserve_step; auto.
Qed.

(** What follows the segment loop: lines 474-510. *)
Lemma cross_validate_finish_preserves (R : Detrender -> Detrender -> Prop)
  (xticks : option (list f64)) :
  (forall s, R s s) ->
  (forall s1 s2 s3, R s1 s2 -> R s2 s3 -> R s1 s3) ->
  preserves R (do_compute compute_model) ->
  preserves R (do_compute compute_model ;;;
               mlift (draw PlotTidy) ;;;
               plot_summary np_log10 draw get_cdpp_arr xticks)%M.
Proof.
  intros Hrefl Htrans Hcompute.
  apply preserves_bind; [exact Htrans | exact Hcompute | intros _].
  apply preserves_bind;
    [exact Htrans | now apply preserves_lift | intros _].
  now apply plot_summary_preserves.
Qed.

Lemma cross_validate_steps (self : Detrender) :
  cross_validate' self =
  match mfold (seq 0 (length (breakpoints self))) None cv_segment' self with
  | (Ok xticks, s1) =>
      (do_compute compute_model ;;;
       mlift (draw PlotTidy) ;;;
       plot_summary np_log10 draw get_cdpp_arr xticks)%M s1
  | (Raise e, s1) => (Raise e, s1)
  end.
Proof. reflexivity. Qed.

(** [cross_validate] preserves whatever the assignments of the segment
    loop and [compute] preserve. *)
Lemma cross_validate_preserves (R : Detrender -> Detrender -> Prop) :
  (forall s, R s s) ->
  (forall s1 s2 s3, R s1 s2 -> R s2 s3 -> R s1 s3) ->
  (forall b v, preserves R (assign_lam b v)) ->
  (forall b v, preserves R (assign_cdppv b v)) ->
  preserves R (do_compute compute_model) ->
  preserves R cross_validate'.
Proof.
  intros Hrefl Htrans Hlam Hcd Hcompute.
  unfold cross_validate', cross_validate.
  apply preserves_bind; [exact Htrans | now apply preserves_get | intros s0].
  apply preserves_bind; [exact Htrans | | intros xticks].
  - apply preserves_mfold; [exact Hrefl | exact Htrans | intros acc b].
    apply cv_segment_preserves; auto.
  - now apply cross_validate_finish_preserves.
Qed.

End CrossValidateFacts.

(** ** Frames of the assignments *)

Lemma length_list_set {A} (l : list A) (k : nat) (v : A) :
  length (list_set l k v) = length l.
Proof.
  revert k. induction l as [|x l IH]; intros [|k]; simpl; auto.
Qed.

Lemma nth_error_list_set_eq {A} (l : list A) (k : nat) (v : A) :
  k < length l -> nth_error (list_set l k v) k = Some v.
Proof.
  revert k. induction l as [|x l IH]; intros [|k] H; simpl in *;
    try lia; auto. apply IH. lia.
Qed.

Lemma nth_error_list_set_neq {A} (l : list A) (k n : nat) (v : A) :
  n <> k -> nth_error (list_set l k v) n = nth_error l n.
Proof.
  revert k n. induction l as [|x l IH]; intros [|k] [|n] H; simpl;
    auto; try lia.
Qed.

Lemma py_index_lt (n : nat) (i : Z) (k : nat) :
  py_index n i = Some k -> k < n.
Proof.
  unfold py_index.
  destruct ((0 <=? i)%Z && (i <? Z.of_nat n)%Z) eqn:E1.
  - apply andb_true_iff in E1. destruct E1 as [H1 H2].
    apply Z.leb_le in H1. apply Z.ltb_lt in H2.
    intros H. inversion H. lia.
  - destruct ((- Z.of_nat n <=? i)%Z && (i <? 0)%Z) eqn:E2; [|discriminate].
    apply andb_true_iff in E2. destruct E2 as [H1 H2].
    apply Z.leb_le in H1. apply Z.ltb_lt in H2.
    intros H. inversion H. lia.
Qed.

Lemma py_index_nonneg (n : nat) (i : Z) (k : nat) :
  (0 <= i)%Z -> py_index n i = Some k -> k = Z.to_nat i.
Proof.
  unfold py_index. intros Hi.
  destruct ((0 <=? i)%Z && (i <? Z.of_nat n)%Z) eqn:E1.
  - intros H. now inversion H.
  - destruct ((- Z.of_nat n <=? i)%Z && (i <? 0)%Z) eqn:E2; [|discriminate].
    apply andb_true_iff in E2. destruct E2 as [_ H2].
    apply Z.ltb_lt in H2. lia.
Qed.

Lemma only_table_metric_model_refl (s : Detrender) :
  only_table_metric_model s s.
Proof. exists (lam s), (cdppv_arr s), (model s). now destruct s. Qed.

Lemma only_table_metric_model_trans (s1 s2 s3 : Detrender) :
  only_table_metric_model s1 s2 -> only_table_metric_model s2 s3 ->
  only_table_metric_model s1 s3.
Proof.
  intros (l & c & m & ->) (l' & c' & m' & ->). now exists l', c', m'.
Qed.

Lemma only_set_lam (s : Detrender) (l : list (list (option f64))) :
  only_table_metric_model s (set_lam s l).
Proof. exists l, (cdppv_arr s), (model s). now destruct s. Qed.

Lemma only_set_cdppv_arr (s : Detrender) (c : list f64) :
  only_table_metric_model s (set_cdppv_arr s c).
Proof. exists (lam s), c, (model s). now destruct s. Qed.

Lemma only_set_model (s : Detrender) (m : list f64) :
  only_table_metric_model s (set_model s m).
Proof. exists (lam s), (cdppv_arr s), m. now destruct s. Qed.

Lemma row_frame_refl (idx : Z) (r : list (option f64)) : row_frame idx r r.
Proof. split; auto. Qed.

Lemma row_frame_trans (idx : Z) (r1 r2 r3 : list (option f64)) :
  row_frame idx r1 r2 -> row_frame idx r2 r3 -> row_frame idx r1 r3.
Proof.
  intros [L1 H1] [L2 H2]. split; [congruence|].
  intros n Hn. rewrite H2, H1; auto. now rewrite L1.
Qed.

Lemma Forall2_refl_on {A} (P : A -> A -> Prop) (l : list A) :
  (forall x, P x x) -> Forall2 P l l.
Proof. intros H. induction l; constructor; auto. Qed.

Lemma Forall2_trans_on {A} (P : A -> A -> Prop) (l1 l2 l3 : list A) :
  (forall x y z, P x y -> P y z -> P x z) ->
  Forall2 P l1 l2 -> Forall2 P l2 l3 -> Forall2 P l1 l3.
Proof.
  intros Ht H12. revert l3. induction H12; intros l3 H23;
    inversion H23; subst; constructor; eauto.
Qed.

Lemma Forall2_list_set {A} (P : A -> A -> Prop) (l : list A) (b : nat)
  (r r' : A) :
  (forall x, P x x) -> nth_error l b = Some r -> P r r' ->
  Forall2 P l (list_set l b r').
Proof.
  intros Hrefl. revert b. induction l as [|x l IH]; intros [|b] Hb Hp;
    simpl in *; try discriminate.
  - inversion Hb; subst. constructor; auto. now apply Forall2_refl_on.
  - constructor; auto.
Qed.

Lemma Forall2_nth_error {A} (P : A -> A -> Prop) (l l' : list A) (b : nat) :
  Forall2 P l l' ->
  match nth_error l b with
  | Some r => exists r', nth_error l' b = Some r' /\ P r r'
  | None => nth_error l' b = None
  end.
Proof.
  intros H. revert b. induction H; intros [|b]; simpl; eauto.
  apply IHForall2.
Qed.

Lemma lam_frame_refl (s : Detrender) : lam_frame s s.
Proof.
  split; [apply only_table_metric_model_refl|].
  apply Forall2_refl_on. apply row_frame_refl.
Qed.

Lemma only_lam_idx (s s' : Detrender) :
  only_table_metric_model s s' -> lam_idx s' = lam_idx s.
Proof. intros (l & c & m & ->). reflexivity. Qed.

Lemma lam_frame_trans (s1 s2 s3 : Detrender) :
  lam_frame s1 s2 -> lam_frame s2 s3 -> lam_frame s1 s3.
Proof.
  intros [O1 F1] [O2 F2]. split.
  - eapply only_table_metric_model_trans; eauto.
  - rewrite (only_lam_idx O1) in F2.
    eapply Forall2_trans_on; eauto. apply row_frame_trans.
Qed.

Lemma setitem_row_frame (idx : Z) (r r' : list (option f64))
  (v : option f64) :
  setitem r idx v = Ok r' -> row_frame idx r r'.
Proof.
  unfold setitem. destruct (py_index (length r) idx) as [k|] eqn:E;
    [|discriminate].
  intros H. inversion H; subst. split.
  - apply length_list_set.
  - intros n Hn. apply nth_error_list_set_neq. congruence.
Qed.

Lemma assign_lam_lam_frame (b : nat) (v : f64) :
  preserves lam_frame (assign_lam b v).
Proof.
  intros s. unfold assign_lam.
  destruct (nth_error (lam s) b) as [row|] eqn:Er; simpl;
    [|apply lam_frame_refl].
  destruct (setitem row (lam_idx s) (Some v)) as [row'|] eqn:Es; simpl;
    [|apply lam_frame_refl].
  split; [apply only_set_lam|].
  replace (lam (set_lam s (list_set (lam s) b row')))
    with (list_set (lam s) b row') by reflexivity.
  eapply Forall2_list_set; eauto using row_frame_refl, setitem_row_frame.
Qed.

Lemma assign_cdppv_lam_frame (b : nat) (v : f64) :
  preserves lam_frame (assign_cdppv b v).
Proof.
  intros s. unfold assign_cdppv.
  destruct (setitem (cdppv_arr s) (Z.of_nat b) v) as [a|]; simpl;
    [|apply lam_frame_refl].
  split; [apply only_set_cdppv_arr|].
  apply Forall2_refl_on, row_frame_refl.
Qed.

Lemma do_compute_lam_frame (compute_model : Detrender -> result (list f64)) :
  preserves lam_frame (do_compute compute_model).
Proof.
  intros s. unfold do_compute.
  destruct (compute_model s) as [m|]; simpl; [|apply lam_frame_refl].
  split; [apply only_set_model|].
  apply Forall2_refl_on, row_frame_refl.
Qed.

Lemma lam_frame_cells (self self' : Detrender) :
  lam_frame self self' ->
  (forall b n, active_cell self b <> Some n ->
               cell self' b n = cell self b n) /\
  (forall b n, (Z.of_nat n < lam_idx self)%Z ->
               cell self' b n = cell self b n).
Proof.
  intros [_ HF].
  assert (Hcell : forall b n, active_cell self b <> Some n ->
                              cell self' b n = cell self b n).
  { intros b n Hn. unfold cell, active_cell in *.
    pose proof (Forall2_nth_error b HF) as Hb.
    destruct (nth_error (lam self) b) as [row|].
    - destruct Hb as (row' & -> & [_ Hrow]). now apply Hrow.
    - now rewrite Hb. }
  split; [exact Hcell|].
  intros b n Hlt. apply Hcell. unfold active_cell.
  destruct (nth_error (lam self) b) as [row|]; [|discriminate].
  intros Hp. apply py_index_nonneg in Hp; [|lia].
  inversion Hp. lia.
Qed.

Section CrossValidateFrame.

Variable get_masked_chunk :
  list f64 -> list Z -> Z -> list Z -> list Z -> list Z -> list Z ->
  nat -> list Z.
Variable X : Detrender -> nat -> list Z -> result ndarray2.
Variable Chunks : list Z -> Z -> result (list (list Z)).
Variable Matern32Kernel : f64 -> f64 -> f64 -> f64.
Variable gp_predict :
  f64 -> f64 -> list f64 -> list f64 -> list f64 -> list f64 ->
  result (list f64).
Variable np_sqrt : f64 -> f64.
Variable linalg_solve : ndarray2 -> list f64 -> result (list f64).
Variable compute_model : Detrender -> result (list f64).
Variable np_log10 : f64 -> f64.
Variable power10 : f64 -> f64.
Variable np_linspace : f64 -> f64 -> nat -> list f64.
Variable draw : plot_cmd -> result unit.
Variable get_cdpp_arr : Detrender -> list f64.

Lemma cross_validate_lam_frame :
  preserves lam_frame
    (cross_validate get_masked_chunk X Chunks Matern32Kernel gp_predict
       np_sqrt linalg_solve compute_model np_log10 power10 np_linspace draw
       get_cdpp_arr).
Proof.
  apply cross_validate_preserves.
  - apply lam_frame_refl.
  - apply lam_frame_trans.
  - intros b v. apply assign_lam_lam_frame.
  - intros b v. apply assign_cdppv_lam_frame.
  - apply do_compute_lam_frame.
Qed.

End CrossValidateFrame.

(** ** Segments with too few points *)

Lemma preserves_mfold_in {A S} (R : Detrender -> Detrender -> Prop)
  (xs : list A) (body : S -> A -> M S) :
  (forall s, R s s) ->
  (forall s1 s2 s3, R s1 s2 -> R s2 s3 -> R s1 s3) ->
  (forall acc x, In x xs -> preserves R (body acc x)) ->
  forall acc, preserves R (mfold xs acc body).
Proof.
  intros Hrefl Htrans Hb. induction xs as [|x xs IH]; intros acc; simpl.
  - now apply preserves_ret.
  - apply preserves_bind; auto.
    + apply Hb. now left.
    + intros acc'. apply IH. intros a y Hy. apply Hb. now right.
Qed.

Lemma mfold_app {A S} (l1 l2 : list A) (body : S -> A -> M S) (acc : S)
  (s : Detrender) :
  mfold (l1 ++ l2) acc body s =
  match mfold l1 acc body s with
  | (Ok acc1, s1) => mfold l2 acc1 body s1
  | (Raise e, s1) => (Raise e, s1)
  end.
Proof.
  revert acc s. induction l1 as [|x l1 IH]; intros acc s; simpl.
  - now destruct (mfold l2 acc body s) as [[u|e] s1].
  - unfold mbind. destruct (body acc x s) as [[u|e] s1]; auto.
Qed.

Lemma py_index_of_nat (n b : nat) : b < n -> py_index n (Z.of_nat b) = Some b.
Proof.
  intros H. unfold py_index.
  replace ((0 <=? Z.of_nat b)%Z && (Z.of_nat b <? Z.of_nat n)%Z) with true.
  - now rewrite Nat2Z.id.
  - symmetry. apply andb_true_iff. split; [apply Z.leb_le|apply Z.ltb_lt]; lia.
Qed.

Lemma segment_frame_refl (b0 : nat) (s : Detrender) : segment_frame b0 s s.
Proof. split; [apply only_table_metric_model_refl|]. split; reflexivity. Qed.

Lemma segment_frame_trans (b0 : nat) (s1 s2 s3 : Detrender) :
  segment_frame b0 s1 s2 -> segment_frame b0 s2 s3 -> segment_frame b0 s1 s3.
Proof.
  intros (O1 & L1 & N1) (O2 & L2 & N2). split; [|split]; try congruence.
  eapply only_table_metric_model_trans; eauto.
Qed.

Lemma assign_lam_segment_frame (b0 b : nat) (v : f64) :
  b <> b0 -> preserves (segment_frame b0) (assign_lam b v).
Proof.
  intros Hne s. unfold assign_lam.
  destruct (nth_error (lam s) b) as [row|]; simpl;
    [|apply segment_frame_refl].
  destruct (setitem row (lam_idx s) (Some v)) as [row'|]; simpl;
    [|apply segment_frame_refl].
  split; [apply only_set_lam|]. split; [reflexivity|].
  replace (lam (set_lam s (list_set (lam s) b row')))
    with (list_set (lam s) b row') by reflexivity.
  now apply nth_error_list_set_neq.
Qed.

Lemma assign_cdppv_segment_frame (b0 b : nat) (v : f64) :
  preserves (segment_frame b0) (assign_cdppv b v).
Proof.
  intros s. unfold assign_cdppv, setitem.
  destruct (py_index _ _) as [k|]; simpl; [|apply segment_frame_refl].
  split; [apply only_set_cdppv_arr|]. split; [|reflexivity].
  apply length_list_set.
Qed.

Lemma do_compute_segment_frame (b0 : nat)
  (compute_model : Detrender -> result (list f64)) :
  preserves (segment_frame b0) (do_compute compute_model).
Proof.
  intros s. unfold do_compute.
  destruct (compute_model s) as [m|]; simpl; [|apply segment_frame_refl].
  split; [apply only_set_model|]. split; reflexivity.
Qed.

Section InsufficientData.

Variable get_masked_chunk :
  list f64 -> list Z -> Z -> list Z -> list Z -> list Z -> list Z ->
  nat -> list Z.
Variable X : Detrender -> nat -> list Z -> result ndarray2.
Variable Chunks : list Z -> Z -> result (list (list Z)).
Variable Matern32Kernel : f64 -> f64 -> f64 -> f64.
Variable gp_predict :
  f64 -> f64 -> list f64 -> list f64 -> list f64 -> list f64 ->
  result (list f64).
Variable np_sqrt : f64 -> f64.
Variable linalg_solve : ndarray2 -> list f64 -> result (list f64).
Variable compute_model : Detrender -> result (list f64).
Variable np_log10 : f64 -> f64.
Variable power10 : f64 -> f64.
Variable np_linspace : f64 -> f64 -> nat -> list f64.
Variable draw : plot_cmd -> result unit.
Variable get_cdpp_arr : Detrender -> list f64.

Let segment :=
  cv_segment get_masked_chunk X Chunks Matern32Kernel gp_predict np_sqrt
    linalg_solve np_log10 power10 np_linspace draw.

Lemma cv_segment_insufficient (self : Detrender)
  (xticks : option (list f64)) (b : nat)
  (row : list (option f64)) (k : nat) :
  nth_error (lam self) b = Some row ->
  py_index (length row) (lam_idx self) = Some k ->
  b < length (cdppv_arr self) ->
  (Z.of_nat (length (masked_chunk get_masked_chunk self b))
   < 3 * cdivs self)%Z ->
  segment xticks b self = (Ok xticks, marked self b row k) /\
  cell (marked self b row k) b k = Some (Some NInf).
Proof.
  intros Hrow Hk Hb Hfew. split.
  - unfold segment, cv_segment. unfold mbind at 1. unfold mget at 1.
    apply Z.ltb_lt in Hfew. rewrite Hfew.
    unfold mbind, assign_cdppv, setitem.
    rewrite (py_index_of_nat Hb).
    unfold assign_lam. cbn [lam lam_idx set_cdppv_arr].
    rewrite Hrow. unfold setitem. rewrite Hk. reflexivity.
  - unfold cell, marked. cbn [lam set_lam].
    rewrite nth_error_list_set_eq
      by (apply nth_error_Some; congruence).
    apply nth_error_list_set_eq. eapply py_index_lt; eauto.
Qed.

Lemma masked_chunk_only (s s' : Detrender) (b : nat) :
  only_table_metric_model s s' ->
  masked_chunk get_masked_chunk s' b = masked_chunk get_masked_chunk s b /\
  cdivs s' = cdivs s /\ lam_idx s' = lam_idx s /\
  breakpoints s' = breakpoints s.
Proof. intros (l & c & m & ->). repeat split. Qed.

Lemma segment_keeps_row (b0 b : nat) (xticks : option (list f64)) :
  b <> b0 -> preserves (segment_frame b0) (segment xticks b).
Proof.
  intros Hne. apply cv_segment_preserves.
  - apply segment_frame_refl.
  - apply segment_frame_trans.
  - intros v. now apply assign_lam_segment_frame.
  - intros v. apply assign_cdppv_segment_frame.
Qed.

Lemma segments_keep_row (b0 : nat) (bs : list nat)
  (xticks : option (list f64)) :
  ~ In b0 bs -> preserves (segment_frame b0) (mfold bs xticks segment).
Proof.
  intros Hn. apply preserves_mfold_in.
  - apply segment_frame_refl.
  - apply segment_frame_trans.
  - intros acc b Hb. apply segment_keeps_row. intros ->. contradiction.
Qed.





(** X25. Whatever the number of segments, the turn of a segment short of
    data raises nothing, leaves [lam[b][lam_idx] = -inf] and
    [cdppv_arr[b] = nan] and binds no [xticks]; the loop goes on with the
    following segments from that state, and a call of [cross_validate] that
    returns has the cell at [-inf]. *)
Theorem cross_validate_marks_short_segment (self : Detrender)
  (xticks : option (list f64)) (b : nat)
  (row : list (option f64)) (k : nat) :
  nth_error (lam self) b = Some row ->
  py_index (length row) (lam_idx self) = Some k ->
  b < length (cdppv_arr self) ->
  (Z.of_nat (length (masked_chunk get_masked_chunk self b))
   < 3 * cdivs self)%Z ->
  segment xticks b self = (Ok xticks, marked self b row k) /\
  cell (marked self b row k) b k = Some (Some NInf) /\
  (forall rest,
     mfold (b :: rest) xticks segment self
     = mfold rest xticks segment (marked self b row k)) /\
  (b < length (breakpoints self) ->
   forall self',
     cross_validate get_masked_chunk X Chunks Matern32Kernel gp_predict
       np_sqrt linalg_solve compute_model np_log10 power10 np_linspace draw
       get_cdpp_arr self = (Ok tt, self') ->
     cell self' b k = Some (Some NInf)).
Proof.
  intros Hrow Hk Hb Hfew.
  destruct (@cv_segment_insufficient self xticks b row k Hrow Hk Hb Hfew)
    as [Hseg Hcell].
  split; [exact Hseg|]. split; [exact Hcell|]. split.
  - intros rest. cbn [mfold]. unfold mbind. now rewrite Hseg.
  - intros Hseg_in self' Hcv.
    rewrite cross_validate_steps in Hcv. fold segment in Hcv.
    set (n := length (breakpoints self)) in *.
    assert (Hsplit : seq 0 n = seq 0 b ++ b :: seq (S b) (n - S b)).
    { replace n with (b + S (n - S b)) at 1 by lia.
      rewrite seq_app. reflexivity. }
    rewrite Hsplit, mfold_app in Hcv.
    pose proof (@segments_keep_row b (seq 0 b) None) as Hbefore.
    specialize (Hbefore ltac:(rewrite in_seq; lia) self).
    destruct (mfold (seq 0 b) None segment self) as [[xt1|e] s1];
      [|discriminate].
    simpl snd in Hbefore. destruct Hbefore as (O1 & L1 & N1).
    destruct (masked_chunk_only b O1) as (Hm & Hc & Hi & _).
    assert (Hrow1 : nth_error (lam s1) b = Some row) by congruence.
    assert (Hk1 : py_index (length row) (lam_idx s1) = Some k) by congruence.
    assert (Hb1 : b < length (cdppv_arr s1)) by lia.
    assert (Hfew1 : (Z.of_nat (length (masked_chunk get_masked_chunk s1 b))
                     < 3 * cdivs s1)%Z) by congruence.
    destruct (@cv_segment_insufficient s1 xt1 b row k Hrow1 Hk1 Hb1 Hfew1)
      as [Hs1 Hc1].
    cbn [mfold] in Hcv. unfold mbind at 1 in Hcv. rewrite Hs1 in Hcv.
    pose proof (@segments_keep_row b (seq (S b) (n - S b)) xt1) as Hafter.
    specialize (Hafter ltac:(rewrite in_seq; lia) (marked s1 b row k)).
    destruct (mfold (seq (S b) (n - S b)) xt1 segment (marked s1 b row k))
      as [[xt2|e] s2]; [|discriminate].
    simpl snd in Hafter. destruct Hafter as (_ & _ & N2).
    pose proof (@cross_validate_finish_preserves compute_model np_log10 draw
                  get_cdpp_arr (segment_frame b) xt2
                  (segment_frame_refl b) (@segment_frame_trans b)
                  (do_compute_segment_frame b compute_model) s2)
      as (_ & _ & N3).
    rewrite Hcv in N3. simpl snd in N3.
    unfold cell in *. rewrite N3, N2. exact Hc1.
Qed.

End InsufficientData.

(** ** [GetKernelParams] *)

Section KernelParamsFacts.

Variable savgol_filter : list f64 -> nat -> nat -> result (list f64).
Variable nanstd : list f64 -> f64.
Variable Chunks : list f64 -> Z -> result (list (list f64)).
Variable randn : nat -> f64.
Variable random : nat -> f64.
Variable fmin_l_bfgs_b :
  list f64 -> bounds_t -> list f64 -> list f64 -> list f64 ->
  result (list f64 * f64).

Lemma getitem_of_nat {A} (l : list A) (j : nat) :
  j < length l -> exists v, getitem l (Z.of_nat j) = Ok v.
Proof.
  intros Hj. unfold getitem. rewrite (py_index_of_nat Hj).
  destruct (nth_error l j) as [v|] eqn:E; [eauto|].
  apply nth_error_None in E. lia.
Qed.

Lemma jitter_returns (budget : nat) :
  forall tries rng cur lo hi v,
  exists r, jitter randn random budget tries rng cur lo hi (Ok v) = Ok r.
Proof.
  induction budget as [|n IH]; intros tries rng cur lo hi v;
    cbn [jitter rbind].
  - destruct (flt cur lo || flt hi cur); eauto.
  - destruct (flt cur lo || flt hi cur); [|eauto].
    destruct (100 <? S tries); [eauto|apply IH].
Qed.

Lemma randomize_returns (bounds : bounds_t) (guess : list f64) :
  forall j rng, j + length bounds <= length guess ->
  exists r, randomize randn random j rng bounds guess = Ok r.
Proof.
  induction bounds as [|[lo hi] bounds IH]; intros j rng Hlen;
    cbn [randomize length] in *.
  - eauto.
  - destruct (@getitem_of_nat _ guess j) as (v & Hv); [lia|].
    rewrite Hv.
    destruct (jitter_returns 101 0 rng PInf lo hi v) as ([x rng1] & Hx).
    rewrite Hx. cbn [rbind].
    destruct (IH (S j) rng1) as ([xs rng2] & Hxs); [lia|].
    rewrite Hxs. cbn [rbind]. eauto.
Qed.

(** Every restart calls the optimizer once, with the bounds of the loop. *)
Lemma restart_loop_calls (bounds : bounds_t)
  (guess time flux errors : list f64) (giter : nat) :
  length bounds <= length guess ->
  (forall x0 b t f e, exists y, fmin_l_bfgs_b x0 b t f e = Ok y) ->
  forall st, exists st',
    restart_loop randn random fmin_l_bfgs_b giter st bounds guess
      time flux errors = Ok st' /\
    length (calls st') = length (calls st) + giter /\
    (Forall (fun c => snd c = bounds) (calls st) ->
     Forall (fun c => snd c = bounds) (calls st')).
Proof.
  intros Hlen Hopt. induction giter as [|g IH]; intros st.
  - exists st. simpl. repeat split; auto.
  - cbn [restart_loop].
    destruct (@randomize_returns bounds guess 0 (rng_draws st) Hlen)
      as ([iguess rng] & ->). cbn [rbind].
    destruct (Hopt iguess bounds time flux errors) as (y & ->).
    cbn [rbind].
    match goal with
    | |- context [restart_loop _ _ _ g ?s] =>
        destruct (IH s) as (st' & Hr & Hl & Hf)
    end.
    exists st'. split; [exact Hr|]. split.
    + rewrite Hl. destruct (flt (llbest st) (fneg (snd y))); simpl;
        rewrite length_app; simpl; lia.
    + intros Hall. apply Hf.
      destruct (flt (llbest st) (fneg (snd y))); simpl;
        (apply Forall_app; split; [exact Hall|]);
        repeat constructor.
Qed.

End KernelParamsFacts.

(** C8 (as stated, refuted).  With a guess supplied, the bounds are not
    those around the guess.  On 65 cadences of constant flux 1000 the
    standard deviations are 0, so the bounds are
    [[0, 0], [1, 0], [0.5, 100]], while the guess [(10, 20, 30)] would give
    [[1, 100], [1, 200000], [0.5, 100]].  The library functions are given
    stand-ins that are exact on constant series. *)
Lemma GetKernelParams_bounds_not_from_guess :
  ~ (forall (savgol_filter : list f64 -> nat -> nat -> result (list f64))
            (nanstd : list f64 -> f64)
            (Chunks : list f64 -> Z -> result (list (list f64)))
            (randn random : nat -> f64)
            (fmin_l_bfgs_b :
               list f64 -> bounds_t -> list f64 -> list f64 -> list f64 ->
               result (list f64 * f64))
            (rng : nat) (time flux errors : list f64) (mask : list Z)
            (giter : nat) (white amp tau : f64) (r : restarts),
        GetKernelParams savgol_filter nanstd Chunks randn random
          fmin_l_bfgs_b rng time flux errors mask giter
          (Some [white; amp; tau]) = Ok r ->
        Forall (fun c => snd c = guess_bounds (white, amp, tau)) (calls r)).
Proof.
  intros H.
  set (savgol := fun (x : list f64) (_ _ : nat) => Ok x).
  set (nanstd := fun l : list f64 =>
         match l with
         | [] => NaN
         | x :: t => if forallb (feq x) t then Fin 0 else NaN
         end).
  set (Chunks := fun (l : list f64) (n : Z) =>
         Ok (chunks_of (length l) (Z.to_nat n) l)).
  set (fmin := fun (x0 : list f64) (_ : bounds_t) (_ _ _ : list f64) =>
         Ok (x0, Fin 0)).
  set (time := map (fun k => Fin (inject_Z (Z.of_nat k))) (seq 0 65)).
  set (flux := repeat (Fin 1000) 65).
  set (errors := repeat (Fin 1) 65).
  destruct (GetKernelParams savgol nanstd Chunks (fun _ => Fin 0)
              (fun _ => Fin (1 # 2)) fmin 0 time flux errors [] 1
              (Some [Fin 10; Fin 20; Fin 30])) as [r|e] eqn:Hr;
    [|vm_compute in Hr; discriminate].
  specialize (H _ _ _ _ _ _ _ _ _ _ _ _ _ _ _ _ Hr).
  vm_compute in Hr. inversion Hr; subst r. simpl in H.
  inversion H as [|? ? Hc _]. vm_compute in Hc. discriminate.
Qed.

(** C8 (amended).  Each of the [giter] restarts calls the optimizer with
    the bounds [white in [0.1 w, 10 w]], [amp in [1, 10000 a]],
    [tau in [0.5, 100]], where [w] is the median of the per-chunk standard
    deviations and [a] the standard deviation of the masked and clipped
    flux: the same bounds whatever guess is supplied, and the bounds around
    the guess when none is supplied. *)
Theorem GetKernelParams_bounds_from_data
  (savgol_filter : list f64 -> nat -> nat -> result (list f64))
  (nanstd : list f64 -> f64)
  (Chunks : list f64 -> Z -> result (list (list f64)))
  (randn random : nat -> f64)
  (fmin_l_bfgs_b :
     list f64 -> bounds_t -> list f64 -> list f64 -> list f64 ->
     result (list f64 * f64))
  (rng : nat) (time flux errors : list f64) (mask : list Z) (giter : nat)
  (guess : option (list f64))
  (time' flux' errors' : list f64) (w : f64) :
  (forall g, guess = Some g -> length g = 3) ->
  clean_inputs savgol_filter time flux errors mask
    = Ok (time', flux', errors') ->
  data_white nanstd Chunks flux' = Ok w ->
  (forall x0 b t f e, exists y, fmin_l_bfgs_b x0 b t f e = Ok y) ->
  let a := data_amp nanstd flux' in
  exists r,
    GetKernelParams savgol_filter nanstd Chunks randn random fmin_l_bfgs_b
      rng time flux errors mask giter guess = Ok r /\
    length (calls r) = giter /\
    Forall (fun c => snd c = make_bounds w a) (calls r) /\
    (guess = None -> make_bounds w a = guess_bounds (w, a, Fin 30)).
Proof.
  intros Hguess Hclean Hwhite Hopt a.
  unfold GetKernelParams. rewrite Hclean. cbn [rbind].
  rewrite Hwhite. cbn [rbind]. fold a.
  match goal with
  | |- context [restart_loop _ _ _ giter ?s ?b ?g ?t ?f ?e] =>
      assert (Hlen : length b <= length g)
        by (destruct guess as [g0|]; [rewrite (Hguess g0 eq_refl)|];
            simpl; lia);
      destruct (@restart_loop_calls randn random fmin_l_bfgs_b b g t f e
                  giter Hlen Hopt s) as (r & Hr & Hl & Hf)
  end.
  exists r. split; [exact Hr|]. split; [exact Hl|]. split.
  - apply Hf. constructor.
  - intros _. reflexivity.
Qed.

Lemma GetKernelParams_bounds_from_data_witness :
  let savgol := fun (x : list f64) (_ _ : nat) => Ok x in
  let nanstd := fun l : list f64 =>
    match l with
    | [] => NaN
    | x :: t => if forallb (feq x) t then Fin 0 else NaN
    end in
  let Chunks := fun (l : list f64) (n : Z) =>
    Ok (chunks_of (length l) (Z.to_nat n) l) in
  let fmin := fun (x0 : list f64) (_ : bounds_t) (_ _ _ : list f64) =>
    Ok (x0, Fin 0) in
  let flux := repeat (Fin 1000) 65 in
  exists r,
    GetKernelParams savgol nanstd Chunks (fun _ => Fin 0)
      (fun _ => Fin (1 # 2)) fmin 0 flux flux flux [] 2
      (Some [Fin 10; Fin 20; Fin 30]) = Ok r /\
    length (calls r) = 2 /\
    Forall (fun c => snd c = make_bounds (Fin 0) (Fin 0)) (calls r).
Proof.
  intros savgol nanstd Chunks fmin flux.
  assert (Hc : clean_inputs savgol flux flux flux [] = Ok (flux, flux, flux))
    by (vm_compute; reflexivity).
  assert (Hw : data_white nanstd Chunks flux = Ok (Fin 0))
    by (vm_compute; reflexivity).
  assert (Ho : forall x0 (b : bounds_t) (t f e : list f64),
             exists y, fmin x0 b t f e = Ok y)
    by (intros; eexists; reflexivity).
  assert (Hg : forall g, Some [Fin 10; Fin 20; Fin 30] = Some g ->
                         length g = 3)
    by (intros g Hg; inversion Hg; reflexivity).
  destruct (@GetKernelParams_bounds_from_data savgol nanstd Chunks
              (fun _ => Fin 0) (fun _ => Fin (1 # 2)) fmin 0 flux flux flux
              [] 2 (Some [Fin 10; Fin 20; Fin 30]) flux flux flux (Fin 0)
              Hg Hc Hw Ho) as (r & Hr & Hl & Hf & _).
  exists r. split; [exact Hr|]. split; [exact Hl|]. exact Hf.
Defined.

(** ** Examples on the small light curve *)


Lemma cross_validate_marks_short_segment_witness :
  let gmc := fun (_ : list f64) (_ : list Z) (_ : Z) (_ _ _ _ : list Z)
                 (b : nat) =>
               match b with 0 => [0%Z] | _ => [1%Z; 2%Z; 3%Z] end in
  let X := fun (_ : Detrender) (_ : nat) (idx : list Z) =>
             Ok (mk_ndarray2 1 (map (fun _ : Z => [Fin 1]) idx)) in
  let Chunks := fun (l : list Z) (n : Z) =>
                  Ok (chunks_of (length l) (Z.to_nat n) l) in
  let k32 := fun _ _ _ : f64 => Fin 0 in
  let predict := fun (_ _ : f64) (_ _ _ : list f64) (t : list f64) =>
                   Ok (map (fun _ : f64 => Fin 0) t) in
  let solve := fun (_ : ndarray2) (f : list f64) =>
                 Ok (map (fun _ : f64 => Fin 0) f) in
  let compute_model := fun s : Detrender => Ok (model s) in
  let linspace := fun (a b : f64) (_ : nat) => [a; b] in
  let draw := fun _ : plot_cmd => Ok tt in
  let cdpp_arr := fun _ : Detrender => [Fin 1; Fin 1] in
  (Z.of_nat (length (masked_chunk gmc mixed_self 0))
   < 3 * cdivs mixed_self)%Z /\
  ~ (Z.of_nat (length (masked_chunk gmc mixed_self 1))
     < 3 * cdivs mixed_self)%Z /\
  exists self',
    cross_validate gmc X Chunks k32 predict (fun x => x) solve compute_model
      (fun x => x) (fun x => x) linspace draw cdpp_arr mixed_self
    = (Ok tt, self') /\
    cell self' 0 0 = Some (Some NInf) /\
    cell self' 1 0 = Some (Some (Fin 0)).
Proof.
  intros gmc X Chunks k32 predict solve compute_model linspace draw cdpp_arr.
  assert (Hrow : nth_error (lam mixed_self) 0
                 = Some [Some (Fin 100000); None]) by reflexivity.
  assert (Hk : py_index (length [Some (Fin 100000); @None f64])
                 (lam_idx mixed_self) = Some 0) by reflexivity.
  assert (Hb : 0 < length (cdppv_arr mixed_self)) by (simpl; lia).
  assert (Hfew : (Z.of_nat (length (masked_chunk gmc mixed_self 0))
                  < 3 * cdivs mixed_self)%Z) by (vm_compute; reflexivity).
  split; [exact Hfew|]. split; [vm_compute; discriminate|].
  destruct (cross_validate gmc X Chunks k32 predict (fun x => x) solve
              compute_model (fun x => x) (fun x => x) linspace draw cdpp_arr
              mixed_self) as [[[]|e] self'] eqn:H;
    [|vm_compute in H; discriminate].
  exists self'. split; [reflexivity|]. split.
  - destruct (@cross_validate_marks_short_segment gmc X Chunks k32 predict
                (fun x => x) solve compute_model (fun x => x) (fun x => x)
                linspace draw cdpp_arr mixed_self None 0
                [Some (Fin 100000); None] 0 Hrow Hk Hb Hfew)
      as (_ & _ & _ & Hcall).
    apply Hcall; [simpl; lia|exact H].
  - vm_compute in H. inversion H. reflexivity.
Defined.

(** ** The order loop *)

Lemma preserves_weaken {A} (R R' : Detrender -> Detrender -> Prop) (m : M A) :
  (forall s s', R s s' -> R' s s') -> preserves R m -> preserves R' m.
Proof. intros H Hm s. apply H, Hm. Qed.

Lemma table_same_refl (s : Detrender) : table_same s s.
Proof. split; reflexivity. Qed.

Lemma table_same_trans (s1 s2 s3 : Detrender) :
  table_same s1 s2 -> table_same s2 s3 -> table_same s1 s3.
Proof. intros [A1 B1] [A2 B2]. split; congruence. Qed.

Lemma inner_frame_refl (n : nat) (s : Detrender) : inner_frame n s s.
Proof. split; auto. Qed.

Lemma inner_frame_trans (n : nat) (s1 s2 s3 : Detrender) :
  inner_frame n s1 s2 -> inner_frame n s2 s3 -> inner_frame n s1 s3.
Proof.
  intros [A1 B1] [A2 B2]. split; [congruence|].
  intros Hn b k Hk. rewrite B2, B1; auto. now rewrite A1.
Qed.

Lemma order_frame_refl (n : nat) (s : Detrender) : order_frame n s s.
Proof. split; auto. lia. Qed.

Lemma order_frame_trans (n : nat) (s1 s2 s3 : Detrender) :
  order_frame n s1 s2 -> order_frame n s2 s3 -> order_frame n s1 s3.
Proof.
  intros [A1 B1] [A2 B2]. split; [lia|].
  intros Hn b k Hk. rewrite B2, B1; auto. lia.
Qed.

Lemma table_same_inner (n : nat) (s s' : Detrender) :
  table_same s s' -> inner_frame n s s'.
Proof.
  intros [Hl Hi]. split; [exact Hi|]. intros _ b k _.
  unfold cell. now rewrite Hl.
Qed.

Lemma lam_frame_inner (n : nat) (s s' : Detrender) :
  lam_frame s s' -> inner_frame n s s'.
Proof.
  intros HF. split; [apply only_lam_idx, HF|].
  intros Hn b k Hk. apply (lam_frame_cells HF). lia.
Qed.

Section OrderLoopFacts.

Variable get_masked_chunk :
  list f64 -> list Z -> Z -> list Z -> list Z -> list Z -> list Z ->
  nat -> list Z.
Variable X : Detrender -> nat -> list Z -> result ndarray2.
Variable ChunksZ : list Z -> Z -> result (list (list Z)).
Variable Matern32Kernel : f64 -> f64 -> f64 -> f64.
Variable gp_predict :
  f64 -> f64 -> list f64 -> list f64 -> list f64 -> list f64 ->
  result (list f64).
Variable np_sqrt : f64 -> f64.
Variable linalg_solve : ndarray2 -> list f64 -> result (list f64).
Variable compute_model : Detrender -> result (list f64).
Variable np_log10 : f64 -> f64.
Variable power10 : f64 -> f64.
Variable np_linspace : f64 -> f64 -> nat -> list f64.
Variable draw : plot_cmd -> result unit.
Variable SavGol : list f64 -> list f64.
Variable savgol_filter : list f64 -> nat -> nat -> result (list f64).
Variable nanstd : list f64 -> f64.
Variable Chunks : list f64 -> Z -> result (list (list f64)).
Variable randn : nat -> f64.
Variable random : nat -> f64.
Variable fmin_l_bfgs_b :
  list f64 -> bounds_t -> list f64 -> list f64 -> list f64 ->
  result (list f64 * f64).
Variable get_mask : Detrender -> list Z.
Variable get_cdpp_arr : Detrender -> list f64.
Variable get_cdpp : Detrender -> f64.

Lemma clip_once_table_same (t : list f64) :
  preserves table_same (clip_once compute_model SavGol t).
Proof.
  intros s.
  unfold clip_once, mbind, do_compute, mget, mlift, assign_outmask, mret.
  destruct (compute_model s) as [m|]; simpl; [|apply table_same_refl].
  destruct (flux _) as [fl|]; simpl; [|split; reflexivity].
  destruct (og_M _ _) as [mf|]; simpl; [|split; reflexivity].
  destruct (project_inds _ _ _) as [ks|]; simpl; split; reflexivity.
Qed.

Lemma outliers_loop_table_same (fuel : nat) :
  forall (t : list f64) (h : list (list Z)) (s : Detrender) r s',
    forall n,
    outliers_loop compute_model SavGol fuel t h n s = Some (r, s') ->
    table_same s s'.
Proof.
  induction fuel as [|fuel IH]; intros t h s r s' n H; [discriminate|].
  cbn [outliers_loop] in H.
  destruct (rev h) as [|a [|b e]];
    try (inversion H; subst; apply table_same_refl).
  destruct (array_equal b a);
    [inversion H; subst; apply table_same_refl|].
  destruct (_ >? _)%Z; [inversion H; subst; apply table_same_refl|].
  destruct (existsb _ _); [inversion H; subst; apply table_same_refl|].
  pose proof (clip_once_table_same t s) as Hc.
  destruct (clip_once compute_model SavGol t s) as [[inds|ex] s1];
    simpl snd in Hc.
  - eapply table_same_trans; [exact Hc|]. eapply IH; eauto.
  - inversion H; subst. exact Hc.
Qed.

Lemma get_outliers_table_same :
  preserves table_same (get_outliers compute_model SavGol).
Proof.
  intros s. unfold get_outliers, get_outliers_fuel.
  destruct (og_M s (time s)) as [t|ex]; [|apply table_same_refl].
  destruct (outliers_loop _ _ _ _ _ _ _) as [[r s']|] eqn:E;
    [|apply table_same_refl].
  apply outliers_loop_table_same in E. now destruct r.
Qed.

Lemma update_gp_table_same (rng : nat) :
  preserves table_same
    (update_gp savgol_filter nanstd Chunks randn random fmin_l_bfgs_b
       get_mask rng).
Proof.
  intros s. unfold update_gp.
  destruct (flux s) as [fl|]; [|apply table_same_refl].
  destruct (GetKernelParams _ _ _ _ _ _ _ _ _ _ _ _ _) as [r|];
    [|apply table_same_refl].
  split; reflexivity.
Qed.

Let run_order' :=
  run_order get_masked_chunk X ChunksZ Matern32Kernel gp_predict np_sqrt
    linalg_solve compute_model np_log10 power10 np_linspace draw SavGol
      savgol_filter nanstd Chunks randn
    random fmin_l_bfgs_b get_mask get_cdpp_arr get_cdpp.

Let run_loop' :=
  run_loop get_masked_chunk X ChunksZ Matern32Kernel gp_predict np_sqrt
    linalg_solve compute_model np_log10 power10 np_linspace draw SavGol
      savgol_filter nanstd Chunks randn
    random fmin_l_bfgs_b get_mask get_cdpp_arr get_cdpp.

(** One turn of the order loop: the pointer is moved first, and what
    follows writes no cell of an order below the pointer. *)
Lemma run_order_order_frame (n m rng : nat) :
  preserves (order_frame n) (run_order' m rng).
Proof.
  intros s. unfold run_order', run_order.
  unfold mbind at 1. unfold bump_lam_idx at 1.
  set (s1 := set_lam_idx s (lam_idx s + 1)).
  match goal with
  | |- order_frame n s (snd (?rest s1)) =>
      assert (Hrest : preserves (inner_frame n) rest)
  end.
  { pose proof (inner_frame_refl n) as Hrefl.
    pose proof (@inner_frame_trans n) as Htrans.
    assert (Hset : forall f : Detrender -> Detrender,
               (forall x, table_same x (f x)) ->
               preserves (inner_frame n) (fun x => (Ok tt, f x))).
    { intros f Hf x. apply table_same_inner, Hf. }
    repeat preserve_step;
      try (apply Hset; intros x; split; reflexivity).
    - apply preserves_weaken with (R := table_same);
        [apply table_same_inner|apply get_outliers_table_same].
    - apply preserves_weaken with (R := table_same);
        [apply table_same_inner|apply update_gp_table_same].
    - apply preserves_weaken with (R := lam_frame);
        [apply lam_frame_inner|apply cross_validate_lam_frame]. }
  destruct (Hrest s1) as [Hi Hc]. split.
  - rewrite Hi. unfold s1. simpl. lia.
  - intros Hn b k Hk. rewrite Hc; auto. unfold s1. simpl. lia.
Qed.

Lemma run_loop_order_frame (n : nat) (ms : list nat) :
  forall rng, preserves (order_frame n) (run_loop' ms rng).
Proof.
  induction ms as [|m ms IH]; intros rng; unfold run_loop'; simpl.
  - apply preserves_ret. apply order_frame_refl.
  - apply preserves_bind.
    + apply order_frame_trans.
    + apply run_order_order_frame.
    + intros rng'. apply IH.
Qed.

End OrderLoopFacts.

(** C9. A call of [cross_validate] with the active-order pointer
    [lam_idx] writes in the table only the cells [lam[b][lam_idx]], one per
    segment: every other cell, and so every cell of a lower order, holds
    after the call (or where the call raised) the value it held before.
    Across the order loop of [run], once the orders below [n] are done (the
    pointer is at [n - 1] or further), the turns that follow leave every
    cell of an order below [n] as it is. *)
Theorem regularization_table_frame
  (get_masked_chunk :
     list f64 -> list Z -> Z -> list Z -> list Z -> list Z -> list Z ->
     nat -> list Z)
  (X : Detrender -> nat -> list Z -> result ndarray2)
  (ChunksZ : list Z -> Z -> result (list (list Z)))
  (Matern32Kernel : f64 -> f64 -> f64 -> f64)
  (gp_predict :
     f64 -> f64 -> list f64 -> list f64 -> list f64 -> list f64 ->
     result (list f64))
  (np_sqrt : f64 -> f64)
  (linalg_solve : ndarray2 -> list f64 -> result (list f64))
  (compute_model : Detrender -> result (list f64))
  (np_log10 power10 : f64 -> f64)
  (np_linspace : f64 -> f64 -> nat -> list f64)
  (draw : plot_cmd -> result unit)
  (SavGol : list f64 -> list f64)
  (savgol_filter : list f64 -> nat -> nat -> result (list f64))
  (nanstd : list f64 -> f64)
  (Chunks : list f64 -> Z -> result (list (list f64)))
  (randn random : nat -> f64)
  (fmin_l_bfgs_b :
     list f64 -> bounds_t -> list f64 -> list f64 -> list f64 ->
     result (list f64 * f64))
  (get_mask : Detrender -> list Z)
  (get_cdpp_arr : Detrender -> list f64)
  (get_cdpp : Detrender -> f64)
  (self : Detrender) :
  let after_call :=
    snd (cross_validate get_masked_chunk X ChunksZ Matern32Kernel gp_predict
           np_sqrt linalg_solve compute_model np_log10 power10 np_linspace
             draw get_cdpp_arr self) in
  (forall b n, active_cell self b <> Some n ->
               cell after_call b n = cell self b n) /\
  (forall b n, (Z.of_nat n < lam_idx self)%Z ->
               cell after_call b n = cell self b n) /\
  (forall (n : nat) (orders : list nat) (rng : nat),
     (Z.of_nat n - 1 <= lam_idx self)%Z ->
     let after_loop :=
       snd (run_loop get_masked_chunk X ChunksZ Matern32Kernel gp_predict
              np_sqrt linalg_solve compute_model np_log10 power10 np_linspace
                draw SavGol savgol_filter nanstd
              Chunks randn random fmin_l_bfgs_b get_mask get_cdpp_arr
              get_cdpp orders rng self) in
     forall b k, k < n -> cell after_loop b k = cell self b k).
Proof.
  intros after_call.
  pose proof (@cross_validate_lam_frame get_masked_chunk X ChunksZ
                Matern32Kernel gp_predict np_sqrt linalg_solve compute_model
                  np_log10 power10 np_linspace draw get_cdpp_arr
                self) as HF.
  destruct (lam_frame_cells HF) as [H1 H2].
  split; [exact H1|]. split; [exact H2|].
  intros n orders rng Hn after_loop b k Hk.
  pose proof (@run_loop_order_frame get_masked_chunk X ChunksZ
                Matern32Kernel gp_predict np_sqrt linalg_solve compute_model
                  np_log10 power10 np_linspace draw
                SavGol savgol_filter nanstd Chunks randn random fmin_l_bfgs_b
                get_mask get_cdpp_arr get_cdpp n orders rng self) as [_ Hc].
  now apply Hc.
Qed.

Lemma regularization_table_frame_witness :
  let gmc := fun (_ : list f64) (_ : list Z) (_ : Z) (_ _ _ _ : list Z)
                 (_ : nat) => [0%Z; 1%Z; 3%Z] in
  let X := fun (_ : Detrender) (_ : nat) (_ : list Z) =>
             @Raise ndarray2 ValueError in
  let ChunksZ := fun (_ : list Z) (_ : Z) => Ok (@nil (list Z)) in
  let k32 := fun _ _ _ : f64 => Fin 0 in
  let predict := fun (_ _ : f64) (_ _ _ _ : list f64) =>
                   @Raise (list f64) ValueError in
  let solve := fun (_ : ndarray2) (_ : list f64) =>
                 @Raise (list f64) LinAlgError in
  let compute_model := fun s : Detrender => Ok (model s) in
  let savgol := fun (x : list f64) (_ _ : nat) => Ok x in
  let Chunks := fun (l : list f64) (n : Z) =>
                  Ok (chunks_of (length l) (Z.to_nat n) l) in
  let fmin := fun (x0 : list f64) (_ : bounds_t) (_ _ _ : list f64) =>
                Ok (x0, Fin 0) in
  let after_loop :=
    snd (run_loop gmc X ChunksZ k32 predict (fun x => x) solve compute_model
      (fun x => x) (fun x => x)
           (fun a b _ => [a; b]) (fun _ => Ok tt)
           (fun f => f) savgol (fun _ => Fin 0) Chunks (fun _ => Fin 0)
           (fun _ => Fin (1 # 2)) fmin (fun s => outmask s)
           (fun _ => [Fin 1]) (fun _ => Fin 1) [1] 0 small_self) in
  (Z.of_nat 1 - 1 <= lam_idx small_self)%Z /\
  cell after_loop 0 1 = Some (Some NInf) /\
  cell after_loop 0 0 = Some (Some (Fin 100000)).
Proof.
  intros gmc X ChunksZ k32 predict solve compute_model savgol Chunks fmin
         after_loop.
  assert (Hn : (Z.of_nat 1 - 1 <= lam_idx small_self)%Z) by (simpl; lia).
  split; [exact Hn|]. split; [vm_compute; reflexivity|].
  destruct (@regularization_table_frame gmc X ChunksZ k32 predict
              (fun x => x) solve compute_model (fun x => x) (fun x => x)
           (fun a b _ => [a; b]) (fun _ => Ok tt) (fun f => f) savgol
              (fun _ => Fin 0) Chunks (fun _ => Fin 0)
              (fun _ => Fin (1 # 2)) fmin (fun s => outmask s)
              (fun _ => [Fin 1]) (fun _ => Fin 1) small_self)
    as (_ & _ & Hloop).
  specialize (Hloop 1 [1] 0 Hn 0 0 (Nat.lt_0_succ 0)).
  fold after_loop in Hloop. rewrite Hloop. reflexivity.
Defined.

(* ================================================================== *)
(** * Further properties of the engine *)

(** ** [optimize_lambda]: one fold, and the rows nothing tolerates *)

Lemma nanargmin_at_finite_min (c : list f64) (m : nat) (q : Q) :
  col_min_at c m -> nth m c NaN = Fin q -> nanargmin c = Ok m.
Proof.
  intros Hmin Hq. pose proof Hmin as (Hm & Hn & Hle & Hfirst).
  unfold nanargmin. destruct c as [|x t] eqn:Ec; [simpl in Hm; lia|].
  rewrite <- Ec in *. rewrite (forallb_nth_false c Hm Hn).
  destruct (@argmin_spec (replace_nan c)) as (k & Hk & Hkl & Hkle & Hkf).
  { subst c. discriminate. }
  { apply replace_nan_nonnan. }
  unfold replace_nan in Hkl. rewrite length_map in Hkl.
  unfold replace_nan in Hkle at 1. rewrite length_map in Hkle.
  rewrite Hk. f_equal.
  assert (Hm' : nth m (replace_nan c) NaN = nth m c NaN).
  { rewrite replace_nan_nth by auto. now rewrite Hn. }
  assert (Hkn : is_nan (nth k c NaN) = false).
  { specialize (Hkle m Hm). rewrite Hm', replace_nan_nth in Hkle by auto.
    destruct (is_nan (nth k c NaN)) eqn:E; auto.
    rewrite Hq in Hkle. discriminate. }
  assert (Hk' : nth k (replace_nan c) NaN = nth k c NaN).
  { rewrite replace_nan_nth by auto. now rewrite Hkn. }
  destruct (Nat.lt_trichotomy k m) as [H|[H|H]]; auto; exfalso.
  - destruct (Hfirst k H) as [E|E]; [congruence|].
    specialize (Hkle m Hm). rewrite Hm', Hk' in Hkle.
    eapply flt_not_fle; eauto.
  - specialize (Hkf m H). rewrite Hm', Hk' in Hkf.
    destruct (Hle k Hkl) as [E|E]; [congruence|].
    eapply flt_not_fle; eauto.
Qed.

Lemma where_from_none (l : list bool) (i : nat) :
  Forall (fun b => b = false) l -> where_from i l = [].
Proof.
  intros H. revert i. induction H as [|b l Hb _ IH]; intros i; simpl; auto.
  subst b. apply IH.
Qed.

(** When no row of the first column passes the tolerance test, the last
    element of an empty [np.where] result is asked for. *)
Lemma optimize_lambda_no_tolerated_row (leps : f64) (M : ndarray2) (m : nat) :
  0 < ncols M ->
  nanargmin (column M 0) = Ok m ->
  (forall v, In v (column M 0) ->
     fle (fdiv64 (fsub64 v (nth m (column M 0) NaN))
                 (nth m (column M 0) NaN))
         leps = false) ->
  optimize_lambda leps M = Raise IndexError.
Proof.
  intros Hc Hm Hall. unfold optimize_lambda.
  destruct (ncols M) as [|n]; [lia|].
  cbn [seq ol_loop]. unfold ol_body. rewrite Hm. cbn [rbind].
  assert (Hw : np_where (within_leps leps (column M 0) m) = []).
  { apply where_from_none. unfold within_leps. apply Forall_forall.
    intros b Hb. apply in_map_iff in Hb. destruct Hb as (v & <- & Hv).
    now apply Hall. }
  rewrite Hw. reflexivity.
Qed.

(** X1. With a single validation fold the tolerance plays no role: for
    [leps >= 0] and a positive finite minimum, [optimize_lambda] returns the
    row of the minimum. *)
Theorem optimize_lambda_single_fold (leps : f64) (M : ndarray2) (m : nat) :
  fle (Fin 0) leps = true ->
  ncols M = 1 ->
  col_min_at (column M 0) m ->
  pos_finite (nth m (column M 0) NaN) ->
  optimize_lambda leps M = Ok m.
Proof.
  intros Hl Hc Hmin Hpos. unfold optimize_lambda. rewrite Hc.
  cbn [seq ol_loop].
  destruct (@ol_body_ok leps M 0 (len2 M) 0 m Hl Hmin Hpos)
    as (r & Hr & Hmr & ->).
  cbn [rbind]. f_equal.
  destruct Hr as (_ & _ & Hlt & _). rewrite column_length in Hlt.
  destruct (Nat.ltb_spec 0 m), (Nat.ltb_spec r (len2 M)); lia.
Qed.

Lemma optimize_lambda_single_fold_witness :
  let M := np_array [ [Fin 3]; [Fin 1]; [Fin (101 # 100)] ] in
  optimize_lambda (Fin (5 # 100)) M = Ok 1.
Proof.
  intros M.
  apply optimize_lambda_single_fold.
  - reflexivity.
  - reflexivity.
  - split; [simpl; lia|]. split; [reflexivity|].
    split; intros j Hj; (destruct j as [|[|[|j]]]; [cbv; auto ..|]);
      cbn in Hj; lia.
  - reflexivity.
Defined.

(** X2. A first column whose minimum scatter is exactly zero makes
    [optimize_lambda] raise [IndexError], for any tolerance other than
    [+inf]: every ratio to the minimum is a division by zero. *)
Theorem optimize_lambda_zero_minimum (leps : f64) (M : ndarray2) (m : nat) :
  0 < ncols M ->
  col_min_at (column M 0) m ->
  feq (nth m (column M 0) NaN) (Fin 0) = true ->
  leps <> PInf ->
  optimize_lambda leps M = Raise IndexError.
Proof.
  intros Hc Hmin Hz Hl.
  destruct (nth m (column M 0) NaN) as [| |q|] eqn:Eq; try discriminate.
  simpl in Hz. apply Qeq_bool_iff in Hz.
  apply (@optimize_lambda_no_tolerated_row leps M m Hc).
  - eapply nanargmin_at_finite_min; eauto.
  - intros v Hv. rewrite Eq.
    destruct Hmin as (_ & _ & Hle & _).
    destruct (In_nth _ _ NaN Hv) as (j & Hj & Hvj).
    specialize (Hle j Hj). rewrite Hvj, Eq in Hle.
    assert (Hq0 : Qeq_bool q 0 = true) by now apply Qeq_bool_iff.
    assert (Hinf : fle PInf leps = false)
      by (destruct leps; try reflexivity; congruence).
    destruct v as [| |a|].
    + reflexivity.
    + destruct Hle; discriminate.
    + destruct Hle as [Hle|Hle]; [discriminate|].
      simpl in Hle. apply Qle_bool_iff in Hle.
      unfold fdiv64.
      destruct (@fsub64_nonneg a q Hle) as [->|(r & -> & Hr)]; cbn [fdiv].
      * rewrite Hq0. exact Hinf.
      * rewrite Hq0. cbn [fsign].
        destruct (Qcompare_spec r 0) as [E|E|E]; cbn [inf_of_sign rounded].
        -- reflexivity.
        -- lra.
        -- exact Hinf.
    + unfold fsub64, fsub, fdiv64. cbn [fneg fadd rounded fdiv].
      rewrite Hq0. exact Hinf.
Qed.

Lemma optimize_lambda_zero_minimum_witness :
  optimize_lambda (Fin (5 # 100)) (np_array [ [Fin 0]; [Fin 1] ])
  = Raise IndexError.
Proof.
  apply (@optimize_lambda_zero_minimum _ _ 0).
  - simpl. lia.
  - split; [simpl; lia|]. split; [reflexivity|].
    split; intros j Hj; (destruct j as [|[|j]]; [cbv; auto ..|]);
      cbn in Hj; lia.
  - reflexivity.
  - discriminate.
Defined.

(** X3. A negative tolerance makes [optimize_lambda] raise [IndexError]
    when the first column has a positive finite minimum: not even the
    minimum itself is within the tolerance. *)
Theorem optimize_lambda_negative_leps (leps : f64) (M : ndarray2) (m : nat) :
  0 < ncols M ->
  col_min_at (column M 0) m ->
  pos_finite (nth m (column M 0) NaN) ->
  flt leps (Fin 0) = true ->
  optimize_lambda leps M = Raise IndexError.
Proof.
  intros Hc Hmin Hpos Hl.
  destruct (nth m (column M 0) NaN) as [| |q|] eqn:Eq;
    simpl in Hpos; try contradiction.
  apply (@optimize_lambda_no_tolerated_row leps M m Hc).
  - eapply nanargmin_at_finite_min; eauto.
  - intros v Hv. rewrite Eq.
    destruct Hmin as (_ & _ & Hle & _).
    destruct (In_nth _ _ NaN Hv) as (j & Hj & Hvj).
    specialize (Hle j Hj). rewrite Hvj, Eq in Hle.
    assert (Hq0 : Qeq_bool q 0 = false).
    { destruct (Qeq_bool q 0) eqn:E; auto.
      apply Qeq_bool_iff in E. lra. }
    destruct v as [| |a|].
    + reflexivity.
    + destruct Hle; discriminate.
    + destruct Hle as [Hle|Hle]; [discriminate|].
      simpl in Hle. apply Qle_bool_iff in Hle.
      apply nonneg_float_above; [|exact Hl].
      apply fdiv64_nonneg; [|exact Hpos]. now apply fsub64_nonneg.
    + apply nonneg_float_above; [|exact Hl].
      apply fdiv64_nonneg; [|exact Hpos]. now left.
Qed.

Lemma optimize_lambda_negative_leps_witness :
  optimize_lambda (Fin (- (1 # 10))) (np_array [ [Fin 1]; [Fin 2] ])
  = Raise IndexError.
Proof.
  apply (@optimize_lambda_negative_leps _ _ 0).
  - simpl. lia.
  - split; [simpl; lia|]. split; [reflexivity|].
    split; intros j Hj; (destruct j as [|[|j]]; [cbv; auto ..|]);
      cbn in Hj; lia.
  - reflexivity.
  - reflexivity.
Defined.

(** ** [get_outliers]: the cap, the fixed point and the frame *)

Lemma only_model_outmask_refl (s : Detrender) : only_model_outmask s s.
Proof. exists (model s), (outmask s). now destruct s. Qed.

Lemma only_model_outmask_trans (s1 s2 s3 : Detrender) :
  only_model_outmask s1 s2 -> only_model_outmask s2 s3 ->
  only_model_outmask s1 s3.
Proof. intros (m & o & ->) (m' & o' & ->). now exists m', o'. Qed.

Section GetOutliersMore.

Variable compute_model : Detrender -> result (list f64).
Variable SavGol : list f64 -> list f64.

Lemma clip_once_effect (t : list f64) (s : Detrender) :
  only_model_outmask s (snd (clip_once compute_model SavGol t s)) /\
  forall inds s1, clip_once compute_model SavGol t s = (Ok inds, s1) ->
                  outmask s1 = inds.
Proof.
  unfold clip_once, mbind, do_compute, mget, mlift, assign_outmask, mret.
  destruct (compute_model s) as [m|]; simpl.
  2:{ split; [apply only_model_outmask_refl|discriminate]. }
  assert (Hm : only_model_outmask s (set_model s m)).
  { exists m, (outmask s). now destruct s. }
  destruct (flux _) as [fl|]; simpl; [|split; [exact Hm|discriminate]].
  destruct (og_M _ _) as [mf|]; simpl; [|split; [exact Hm|discriminate]].
  destruct (project_inds _ _ _) as [ks|]; simpl;
    [|split; [exact Hm|discriminate]].
  split.
  - exists m, ks. reflexivity.
  - intros inds s1 H. inversion H; subst. reflexivity.
Qed.

Lemma outliers_loop_effect (fuel : nat) :
  forall (t : list f64) (h : list (list Z)) (s : Detrender) r s' n,
    outliers_loop compute_model SavGol fuel t h n s = Some (r, s') ->
    last h [] = outmask s ->
    only_model_outmask s s' /\
    forall e, r = Ok e ->
      last (history e) [] = outmask s' /\
      exists post, history e = h ++ post.
Proof.
  induction fuel as [|fuel IH]; intros t h s r s' n H Hlast; [discriminate|].
  cbn [outliers_loop] in H.
  assert (Hstop : forall x k,
            Some (Ok (mk_outliers_exit h x k), s) = Some (r, s') ->
            only_model_outmask s s' /\
            forall e, r = Ok e ->
              last (history e) [] = outmask s' /\
              exists post, history e = h ++ post).
  { intros x k Hx. inversion Hx; subst.
    split; [apply only_model_outmask_refl|].
    intros e He. inversion He; subst. simpl. split; [exact Hlast|].
    exists []. now rewrite app_nil_r. }
  destruct (rev h) as [|a [|b e0]].
  - inversion H; subst. split; [apply only_model_outmask_refl|discriminate].
  - inversion H; subst. split; [apply only_model_outmask_refl|discriminate].
  - destruct (array_equal b a); [now apply Hstop in H|].
    destruct (_ >? _)%Z; [now apply Hstop in H|].
    destruct (existsb _ _); [now apply Hstop in H|].
    destruct (clip_once_effect t s) as [Hc Ho].
    destruct (clip_once compute_model SavGol t s) as [[inds|ex] s1];
      simpl snd in Hc.
    + specialize (Ho inds s1 eq_refl).
      destruct (IH t (h ++ [inds]) s1 r s' _ H) as [Hf He].
      { rewrite last_last. now symmetry. }
      split; [eapply only_model_outmask_trans; eauto|].
      intros e Hre. destruct (He e Hre) as (Hl & post & Hp).
      split; [exact Hl|]. exists (inds :: post).
      rewrite Hp, <- app_assoc. reflexivity.
    + inversion H; subst. split; [exact Hc|discriminate].
Qed.

(** X4. With [oiter <= 0] the filter is switched off: no outlier set is
    computed and the object is left exactly as it was. *)
Theorem get_outliers_disabled (self : Detrender) (t : list f64) :
  og_M self (time self) = Ok t ->
  (oiter self <= 0)%Z ->
  get_outliers compute_model SavGol self = (Ok tt, self).
Proof.
  intros Ht Ho. unfold get_outliers, get_outliers_fuel. rewrite Ht.
  replace (Z.to_nat (oiter self) + 1) with 1 by lia.
  cbn [outliers_loop rev app length].
  destruct (array_equal [(-1)%Z] (outmask self)); [reflexivity|].
  replace (Z.of_nat 2 - 1 >? oiter self)%Z with true; [reflexivity|].
  symmetry. apply Z.gtb_lt. lia.
Qed.

(** X5. At a fixed point of the clipping step (the set it computes is the
    mask the object already holds) and with [oiter >= 1], the loop makes
    exactly one pass and stops because the last two sets are equal; the
    mask is the same after as before. *)
Theorem get_outliers_fixed_point (self s1 : Detrender) (t : list f64)
  (fuel : nat) :
  og_M self (time self) = Ok t ->
  clip_once compute_model SavGol t self = (Ok (outmask self), s1) ->
  (1 <= oiter self)%Z ->
  outmask self <> [(-1)%Z] ->
  2 <= fuel ->
  get_outliers_fuel compute_model SavGol fuel self =
    Some (Ok (mk_outliers_exit
                [[(-1)%Z]; outmask self; outmask self] FixedPoint 1), s1) /\
  outmask s1 = outmask self.
Proof.
  intros Ht Hc Ho Hne Hf. split.
  - unfold get_outliers_fuel. rewrite Ht.
    destruct fuel as [|[|fuel]]; try lia.
    assert (Hneq : array_equal [(-1)%Z] (outmask self) = false).
    { destruct (array_equal _ _) eqn:E; auto.
      apply array_equal_eq in E. congruence. }
    assert (Hneq' : array_equal (outmask self) [(-1)%Z] = false).
    { destruct (array_equal (outmask self) [(-1)%Z]) eqn:E; auto.
      apply array_equal_eq in E. congruence. }
    assert (Hgt : (Z.of_nat 2 - 1 >? oiter self)%Z = false)
      by (rewrite Z.gtb_ltb; apply Z.ltb_ge; lia).
    cbn [outliers_loop rev app length]. rewrite Hneq, Hgt.
    cbn [existsb]. rewrite Hneq'. cbn [orb]. rewrite Hc.
    cbn [outliers_loop rev app length].
    replace (array_equal (outmask self) (outmask self)) with true
      by (symmetry; now apply array_equal_eq).
    reflexivity.
  - exact (proj2 (clip_once_effect t self) _ _ Hc).
Qed.

(** X6. [get_outliers] assigns [self.model] and [self.outmask] and no other
    attribute, whether it returns or raises. *)
Theorem get_outliers_frame (self : Detrender) :
  only_model_outmask self (snd (get_outliers compute_model SavGol self)).
Proof.
  unfold get_outliers, get_outliers_fuel.
  destruct (og_M self (time self)) as [t|ex];
    [|apply only_model_outmask_refl].
  destruct (outliers_loop _ _ _ _ _ _ _) as [[r s']|] eqn:E;
    [|apply only_model_outmask_refl].
  apply outliers_loop_effect in E; [|reflexivity].
  destruct r; apply E.
Qed.

(** X7. When the loop of [get_outliers] is left, [self.outmask] is the last
    set of its history, and the history starts with the sentinel and the
    mask the call found. *)
Theorem get_outliers_mask_is_last (self s' : Detrender) (fuel : nat)
  (e : outliers_exit) :
  get_outliers_fuel compute_model SavGol fuel self = Some (Ok e, s') ->
  last (history e) [] = outmask s' /\
  exists post, history e = [(-1)%Z] :: outmask self :: post.
Proof.
  unfold get_outliers_fuel.
  destruct (og_M self (time self)) as [t|ex]; [|discriminate].
  intros H. apply outliers_loop_effect in H; [|reflexivity].
  destruct H as [_ H]. destruct (H e eq_refl) as (Hl & post & Hp).
  split; [exact Hl|]. exists post. exact Hp.
Qed.

End GetOutliersMore.

Lemma get_outliers_disabled_witness :
  let compute_model := fun s : Detrender => @Raise (list f64) LinAlgError in
  let self := set_outmask small_self [1%Z] in
  get_outliers compute_model (fun f => f)
    (mk_Detrender (lambda_arr self) (leps self) (osigma self) 0
       (cdivs self) (giter self) (optimize_gp self) (kernel_params self)
       (bpad self) (breakpoints self) (pld_order self) (lam_idx self)
       (lam self) (cdpp6_arr self) (cdppr_arr self) (cdppv_arr self)
       (cdpp6 self) (cdppv self) (time self) (fraw self) (fraw_err self)
       (model self) (nanmask self) (badmask self) (transitmask self)
       (outmask self))
  = (Ok tt,
     mk_Detrender (lambda_arr self) (leps self) (osigma self) 0
       (cdivs self) (giter self) (optimize_gp self) (kernel_params self)
       (bpad self) (breakpoints self) (pld_order self) (lam_idx self)
       (lam self) (cdpp6_arr self) (cdppr_arr self) (cdppv_arr self)
       (cdpp6 self) (cdppv self) (time self) (fraw self) (fraw_err self)
       (model self) (nanmask self) (badmask self) (transitmask self)
       (outmask self)).
Proof.
  intros compute_model self.
  apply (@get_outliers_disabled compute_model (fun f => f) _
           [Fin 0; Fin 1; Fin 2; Fin 3]).
  - reflexivity.
  - simpl. lia.
Defined.

Lemma get_outliers_fixed_point_witness :
  let compute_model := fun s : Detrender => Ok (map (fun _ => Fin 0) (time s)) in
  let self := set_outmask small_self [2%Z] in
  exists s1,
    get_outliers_fuel compute_model (fun f => f) 2 self =
      Some (Ok (mk_outliers_exit [[(-1)%Z]; [2%Z]; [2%Z]] FixedPoint 1), s1) /\
    outmask s1 = [2%Z].
Proof.
  intros compute_model self.
  destruct (clip_once compute_model (fun f => f)
              [Fin 0; Fin 1; Fin 2; Fin 3] self) as [r s1] eqn:Hc.
  exists s1.
  assert (Hr : r = Ok (outmask self)).
  { vm_compute in Hc. inversion Hc. reflexivity. }
  subst r.
  apply (@get_outliers_fixed_point compute_model (fun f => f) self s1
           [Fin 0; Fin 1; Fin 2; Fin 3] 2).
  - reflexivity.
  - exact Hc.
  - simpl. lia.
  - discriminate.
  - lia.
Defined.

Lemma get_outliers_mask_is_last_witness :
  let compute_model := fun s : Detrender => Ok (map (fun _ => Fin 0) (time s)) in
  exists e s',
    get_outliers_fuel compute_model (fun f => f) 4 small_self
      = Some (Ok e, s') /\
    last (history e) [] = outmask s' /\
    outmask s' = [2%Z].
Proof.
  intros compute_model.
  destruct (get_outliers_fuel compute_model (fun f => f) 4 small_self)
    as [[[e|ex] s']|] eqn:H;
    try (vm_compute in H; discriminate).
  exists e, s'. split; [reflexivity|].
  destruct (@get_outliers_mask_is_last compute_model (fun f => f)
              small_self s' 4 e H) as [Hl _].
  split; [exact Hl|].
  vm_compute in H. inversion H. reflexivity.
Defined.

(** ** [GetCovariance]: symmetry and shapes *)

Lemma entry_add_scalar (K : ndarray2) (s : f64) (i j : nat) :
  rectangular K -> i < len2 K -> j < ncols K ->
  entry (mk_ndarray2 (ncols K) (map (map (fun x => fadd x s)) (rows K))) i j
  = fadd (entry K i j) s.
Proof.
  intros Hr Hi Hj. unfold entry. simpl.
  rewrite nth_map_in with (d' := []) by exact Hi.
  rewrite nth_map_in with (d' := NaN)
    by (now rewrite (@rectangular_nth K i Hr Hi)).
  reflexivity.
Qed.

(** X8. With a symmetric kernel function, the matrix that [GetCovariance]
    returns is symmetric. *)
Theorem GetCovariance_symmetric
  (Matern32Kernel : f64 -> f64 -> f64 -> f64)
  (kernel_params : option (list f64)) (time errors : list f64)
  (K : ndarray2) :
  (forall metric t1 t2,
     Matern32Kernel metric t1 t2 = Matern32Kernel metric t2 t1) ->
  GetCovariance Matern32Kernel kernel_params time errors = Ok K ->
  forall i j, i < len2 K -> j < len2 K -> entry K i j = entry K j i.
Proof.
  intros Hsym HK. unfold GetCovariance in HK.
  destruct (unpack3 kernel_params) as [[[white amp] tau]|]; [|discriminate].
  cbn [rbind] in HK.
  set (D := np_diag (map fpow2 errors)) in *.
  set (G := gp_get_matrix Matern32Kernel amp tau time) in *.
  assert (HD : len2 D = length errors /\ ncols D = length errors).
  { unfold D, np_diag, len2. simpl. now rewrite !length_map, length_seq. }
  assert (HG : len2 G = length time /\ ncols G = length time).
  { unfold G, gp_get_matrix, len2. simpl. now rewrite length_map. }
  assert (HDr : rectangular D) by apply rectangular_tabulate.
  assert (HGr : rectangular G) by apply rectangular_gp_get_matrix.
  assert (HDe : forall i j, i < length errors -> j < length errors ->
                  entry D i j = entry D j i).
  { intros i j Hi Hj. unfold D.
    rewrite !entry_np_diag by (rewrite length_map; auto).
    rewrite (Nat.eqb_sym j i).
    destruct (Nat.eqb_spec i j) as [->|]; reflexivity. }
  destruct HD as [HD1 HD2], HG as [HG1 HG2].
  unfold iadd in HK. destruct (same_shape D G) eqn:Es.
  - unfold same_shape in Es. apply andb_true_iff in Es.
    destruct Es as [E1 E2]. apply Nat.eqb_eq in E1, E2.
    destruct (@mat_add_spec D G) as (K' & HK' & Hl & Hc & _ & He);
      try congruence.
    rewrite HK' in HK. inversion HK; subst K'.
    intros i j Hi Hj. rewrite Hl in Hi, Hj.
    rewrite !He by congruence.
    rewrite HDe by congruence. f_equal.
    unfold G. rewrite !entry_gp_get_matrix by congruence.
    now rewrite Hsym.
  - destruct ((len2 G =? 1) && (ncols G =? 1)); [|discriminate].
    cbn [add_nd] in HK.
    assert (HKeq : K = mk_ndarray2 (ncols D)
                         (map (map (fun x => fadd x (entry G 0 0))) (rows D)))
      by (inversion HK; reflexivity).
    rewrite HKeq. intros i j Hi Hj.
    unfold len2 in Hi, Hj. cbn [rows] in Hi, Hj.
    rewrite length_map in Hi, Hj. fold (len2 D) in Hi, Hj.
    rewrite !entry_add_scalar by congruence.
    rewrite HDe by congruence. reflexivity.
Qed.

Lemma GetCovariance_symmetric_witness :
  let k := fun metric _ _ : f64 => (Fin 1 / (Fin 1 + metric))%f64 in
  exists K,
    GetCovariance k (Some [Fin 7; Fin 2; Fin 3])
      [Fin 0; Fin 1; Fin 4] [Fin 2; Fin 3; Fin 5] = Ok K /\
    len2 K = 3 /\
    entry K 0 2 = entry K 2 0.
Proof.
  intros k.
  destruct (GetCovariance k (Some [Fin 7; Fin 2; Fin 3])
              [Fin 0; Fin 1; Fin 4] [Fin 2; Fin 3; Fin 5]) as [K|e] eqn:HK;
    [|vm_compute in HK; discriminate].
  exists K. split; [reflexivity|].
  assert (Hsym : forall metric t1 t2, k metric t1 t2 = k metric t2 t1)
    by reflexivity.
  assert (Hl : len2 K = 3).
  { vm_compute in HK. inversion HK. reflexivity. }
  split; [exact Hl|].
  apply (@GetCovariance_symmetric k _ _ _ K Hsym HK); lia.
Defined.

(** X9. When [errors] and [time] differ in length (and [time] has more
    than one element or none), the in-place addition of the kernel matrix
    cannot be broadcast: [GetCovariance] raises [ValueError]. *)
Theorem GetCovariance_length_mismatch
  (Matern32Kernel : f64 -> f64 -> f64 -> f64)
  (white amp tau : f64) (time errors : list f64) :
  length errors <> length time ->
  length time <> 1 ->
  GetCovariance Matern32Kernel (Some [white; amp; tau]) time errors
  = Raise ValueError.
Proof.
  intros Hne H1. unfold GetCovariance. cbn [unpack3 rbind].
  unfold iadd, same_shape, np_diag, gp_get_matrix, len2. simpl.
  rewrite !length_map, length_seq.
  destruct (Nat.eqb_spec (length errors) (length time)); [contradiction|].
  simpl. destruct (Nat.eqb_spec (length time) 1); [contradiction|].
  reflexivity.
Qed.

Lemma GetCovariance_length_mismatch_witness :
  GetCovariance (fun _ _ _ => Fin 0) (Some [Fin 1; Fin 1; Fin 30])
    [Fin 0; Fin 1] [Fin 2; Fin 3; Fin 5] = Raise ValueError.
Proof.
  apply GetCovariance_length_mismatch; simpl; lia.
Defined.

(** ** [cv_compute]: null orders and the median of the result *)

Lemma weighted_ignores_null (lam_b : list (option f64)) :
  forall (A A' : list (option ndarray2)),
    length A = length A' ->
    (forall n l, nth_error lam_b n = Some (Some l) ->
                 nth_error A n = nth_error A' n) ->
    weighted lam_b A = weighted lam_b A'.
Proof.
  induction lam_b as [|l lam' IH]; intros [|a A] [|a' A'] Hlen H;
    simpl in *; try discriminate; auto.
  assert (Ht : weighted lam' A = weighted lam' A').
  { apply IH; [lia|]. intros n l0 Hn. apply (H (S n) l0 Hn). }
  destruct l as [l|]; [|exact Ht].
  specialize (H 0 l eq_refl). simpl in H. inversion H; subst a'.
  now rewrite Ht.
Qed.

(** X10. The precomputed matrices of an order whose [lam[b][n]] is still
    [None] play no role in [cv_compute]: replacing them changes nothing. *)
Theorem cv_compute_ignores_null_orders
  (linalg_solve : ndarray2 -> list f64 -> result (list f64))
  (self : Detrender) (b : nat) (lam_b : list (option f64))
  (A A' B B' : list (option ndarray2)) (mK : ndarray2) (f : list f64) :
  nth_error (lam self) b = Some lam_b ->
  length A = length A' -> length B = length B' ->
  (forall n l, nth_error lam_b n = Some (Some l) ->
     nth_error A n = nth_error A' n /\ nth_error B n = nth_error B' n) ->
  cv_compute linalg_solve self b A B mK f =
  cv_compute linalg_solve self b A' B' mK f.
Proof.
  intros Hrow HA HB H. unfold cv_compute. rewrite Hrow.
  rewrite (@weighted_ignores_null lam_b A A' HA)
    by (intros n l Hn; apply (H n l Hn)).
  rewrite (@weighted_ignores_null lam_b B B' HB)
    by (intros n l Hn; apply (H n l Hn)).
  reflexivity.
Qed.

Lemma cv_compute_ignores_null_orders_witness :
  let solve1 := fun (M : ndarray2) (f : list f64) =>
    match rows M, f with
    | [[Fin a]], [Fin y] => Ok [Fin (Qred (y / a))]
    | _, _ => Raise LinAlgError
    end in
  let self := set_lam small_self [[Some (Fin 2); None]] in
  let A0 := mk_ndarray2 1 [[Fin 1]] in
  let B0 := mk_ndarray2 1 [[Fin 1]; [Fin 3]; [Fin 2]] in
  let mK := mk_ndarray2 1 [[Fin 2]] in
  cv_compute solve1 self 0 [Some A0; None] [Some B0; None] mK [Fin 8] =
  cv_compute solve1 self 0 [Some A0; Some B0] [Some B0; Some A0] mK [Fin 8].
Proof.
  intros solve1 self A0 B0 mK.
  apply (@cv_compute_ignores_null_orders solve1 self 0 [Some (Fin 2); None]);
    try reflexivity.
  intros n l Hn. destruct n as [|[|n]]; simpl in Hn; try discriminate.
  - split; reflexivity.
  - destruct n; discriminate.
Defined.

Lemma fle_shift (a b c : Q) :
  fle (Fin (a + - c)) (Fin (b + - c)) = fle (Fin a) (Fin b).
Proof.
  simpl. destruct (Qle_boolP (a + - c) (b + - c)), (Qle_boolP a b);
    auto; exfalso; lra.
Qed.

Lemma finite_inv (x : f64) : is_finite x = true -> exists q, x = Fin q.
Proof. destruct x; try discriminate. eauto. Qed.

Lemma insert_sorted_shift (c : Q) (x : f64) (l : list f64) :
  is_finite x = true -> Forall (fun y => is_finite y = true) l ->
  insert_sorted (fsub x (Fin c)) (map (fun y => fsub y (Fin c)) l) =
  map (fun y => fsub y (Fin c)) (insert_sorted x l).
Proof.
  intros Hx Hl. induction Hl as [|y l Hy Hl IH]; simpl; auto.
  destruct (@finite_inv _ Hx) as (a & ->).
  destruct (@finite_inv _ Hy) as (b & ->).
  change (fsub (Fin a) (Fin c)) with (Fin (a + - c)) in *.
  change (fsub (Fin b) (Fin c)) with (Fin (b + - c)).
  rewrite fle_shift.
  destruct (fle (Fin a) (Fin b)); simpl; [reflexivity|].
  now rewrite IH.
Qed.

Lemma insert_sorted_finite (x : f64) (l : list f64) :
  is_finite x = true -> Forall (fun y => is_finite y = true) l ->
  Forall (fun y => is_finite y = true) (insert_sorted x l) /\
  length (insert_sorted x l) = S (length l).
Proof.
  intros Hx Hl. induction Hl as [|y l Hy Hl [IH1 IH2]]; simpl.
  - split; auto.
  - destruct (fle x y); simpl; split; auto.
Qed.

Lemma np_sort_finite (l : list f64) :
  Forall (fun y => is_finite y = true) l ->
  Forall (fun y => is_finite y = true) (np_sort l) /\
  length (np_sort l) = length l.
Proof.
  intros Hl. induction Hl as [|y l Hy Hl [IH1 IH2]]; simpl; auto.
  destruct (@insert_sorted_finite y (np_sort l) Hy IH1) as [H1 H2]. split; auto.
  now rewrite H2, IH2.
Qed.

Lemma np_sort_shift (c : Q) (l : list f64) :
  Forall (fun y => is_finite y = true) l ->
  np_sort (map (fun y => fsub y (Fin c)) l) =
  map (fun y => fsub y (Fin c)) (np_sort l).
Proof.
  intros Hl. induction Hl as [|y l Hy Hl IH]; simpl; auto.
  rewrite IH. apply insert_sorted_shift; auto.
  apply np_sort_finite, Hl.
Qed.

Lemma filter_finite (l : list f64) :
  Forall (fun y => is_finite y = true) l ->
  filter (fun x => negb (is_nan x)) l = l.
Proof.
  intros Hl. induction Hl as [|y l Hy Hl IH]; simpl; auto.
  destruct y; try discriminate. simpl. now rewrite IH.
Qed.

Lemma nth_finite (l : list f64) (k : nat) :
  Forall (fun y => is_finite y = true) l -> k < length l ->
  exists q, nth k l NaN = Fin q.
Proof.
  intros Hl Hk. apply finite_inv.
  rewrite Forall_forall in Hl. apply Hl, nth_In, Hk.
Qed.

Lemma np_median_nonempty (l : list f64) :
  l <> [] ->
  np_median l =
  if Nat.even (length (np_sort l))
  then ((nth (length (np_sort l) / 2 - 1) (np_sort l) NaN +
         nth (length (np_sort l) / 2) (np_sort l) NaN) / Fin 2)%f64
  else nth (length (np_sort l) / 2) (np_sort l) NaN.
Proof. destruct l; [congruence|reflexivity]. Qed.

(** The median of an odd number of finite values is one of them, the
    middle one of the sorted list; subtracting it from each value keeps the
    order, so that the middle one of the differences is the difference of
    the median with itself, zero. *)
Lemma recenter_median (model : list f64) :
  Nat.odd (length model) = true ->
  Forall (fun y => is_finite y = true) (recenter model) ->
  feq (nanmedian (recenter model)) (Fin 0) = true.
Proof.
  intros Hodd Hout.
  assert (Hne : model <> []) by (intros ->; discriminate).
  unfold recenter in *.
  set (med := nanmedian model) in *.
  assert (Hboth : Forall (fun y => is_finite y = true) model /\
                  exists c, med = Fin c).
  { destruct model as [|x0 model]; [congruence|].
    assert (Hm : exists c, med = Fin c).
    { inversion Hout as [|? ? H0 _]; subst.
      destruct x0, med; try discriminate; eauto. }
    split; [|exact Hm]. destruct Hm as (c & Hc). rewrite Hc in Hout.
    apply Forall_forall. intros y Hy. rewrite Forall_forall in Hout.
    specialize (Hout (fsub y (Fin c))).
    assert (Hi : In (fsub y (Fin c))
                   (map (fun x => fsub x (Fin c)) (x0 :: model)))
      by (apply in_map_iff; eauto).
    specialize (Hout Hi). now destruct y. }
  destruct Hboth as [Hfin (c & Hc)].
  rewrite Hc in *. unfold nanmedian.
  rewrite (@filter_finite _ Hout).
  unfold med, nanmedian in Hc. rewrite (@filter_finite _ Hfin) in Hc.
  destruct (@np_sort_finite _ Hfin) as [Hsf Hsl].
  rewrite (@np_median_nonempty model Hne) in Hc.
  rewrite np_median_nonempty by (destruct model; [congruence|discriminate]).
  rewrite (@np_sort_shift c _ Hfin), length_map.
  assert (Hn : 0 < length (np_sort model)).
  { rewrite Hsl. destruct model; [congruence|simpl; lia]. }
  set (s := np_sort model) in *. set (n := length s) in *.
  assert (Hhalf : n / 2 < n) by (apply Nat.div_lt; lia).
  assert (Hev : Nat.even n = false).
  { rewrite <- Nat.negb_odd. fold n in Hsl. rewrite Hsl, Hodd. reflexivity. }
  rewrite Hev in *.
  destruct (@nth_finite s (n / 2) Hsf) as (a & Ha); [lia|].
  rewrite nth_map_in with (d' := NaN) by (fold n; lia).
  rewrite Ha in *. inversion Hc as [Hc'].
  simpl. apply Qeq_bool_iff. ring.
Qed.

(** X11. Whenever [cv_compute] returns a model of an odd number of finite
    values, the median of that model is zero: the median subtracted was
    one of the values, and the middle one of the differences is its
    difference with itself. (For an even number of values the median is
    the mean of the two middle ones, and whether the re-centred median
    is exactly zero then depends on the rounding of that mean.) *)
Theorem cv_compute_zero_median
  (linalg_solve : ndarray2 -> list f64 -> result (list f64))
  (self : Detrender) (b : nat) (A B : list (option ndarray2))
  (mK : ndarray2) (f out : list f64) :
  cv_compute linalg_solve self b A B mK f = Ok out ->
  Nat.odd (length out) = true ->
  Forall (fun y => is_finite y = true) out ->
  feq (nanmedian out) (Fin 0) = true.
Proof.
  unfold cv_compute.
  destruct (nth_error (lam self) b) as [lam_b|]; [|discriminate].
  destruct (weighted lam_b A) as [As|]; cbn [rbind]; [|discriminate].
  destruct (np_sum_axis0 As) as [At|]; cbn [rbind]; [|discriminate].
  destruct (weighted lam_b B) as [Bs|]; cbn [rbind]; [|discriminate].
  destruct (np_sum_axis0 Bs) as [Bt|]; cbn [rbind]; [|discriminate].
  destruct (add_nd mK At) as [KA|]; cbn [rbind]; [|discriminate].
  destruct (linalg_solve KA f) as [W|]; cbn [rbind]; [|discriminate].
  destruct (dot_nd Bt W) as [model|]; cbn [rbind]; [|discriminate].
  intros H Hodd Hfin. inversion H; subst out.
  rewrite length_map in Hodd.
  apply recenter_median; auto.
Qed.

Lemma cv_compute_zero_median_witness :
  let solve1 := fun (M : ndarray2) (f : list f64) =>
    match rows M, f with
    | [[Fin a]], [Fin y] => Ok [Fin (Qred (y / a))]
    | _, _ => Raise LinAlgError
    end in
  let self := set_lam small_self [[Some (Fin 2); None]] in
  let A := [Some (mk_ndarray2 1 [[Fin 1]]); None] in
  let B := [Some (mk_ndarray2 1 [[Fin 1]; [Fin 3]; [Fin 5]]); None] in
  let mK := mk_ndarray2 1 [[Fin 2]] in
  exists out,
    cv_compute solve1 self 0 A B mK [Fin 8] = Ok out /\
    length out = 3 /\
    feq (nanmedian out) (Fin 0) = true.
Proof.
  intros solve1 self A B mK.
  destruct (cv_compute solve1 self 0 A B mK [Fin 8]) as [out|e] eqn:H;
    [|vm_compute in H; discriminate].
  exists out. split; [reflexivity|].
  assert (Hv : length out = 3 /\
               Forall (fun y => is_finite y = true) out).
  { vm_compute in H. inversion H. split; [reflexivity|].
    repeat constructor. }
  destruct Hv as (Hl & Hfin). split; [exact Hl|].
  assert (Hodd : Nat.odd (length out) = true) by (rewrite Hl; reflexivity).
  exact (@cv_compute_zero_median solve1 self 0 A B mK [Fin 8] out H Hodd
           Hfin).
Defined.


(** ** The constructor, further *)

Lemma nth_error_repeat {A} (x : A) (n k : nat) :
  k < n -> nth_error (repeat x n) k = Some x.
Proof.
  revert k. induction n as [|n IH]; intros [|k] Hk; simpl; try lia; auto.
  apply IH. lia.
Qed.

Lemma init_lambda_arr_result (pow10 : Q -> f64) (kw : option (list f64)) :
  match init_lambda_arr pow10 kw with
  | Ok l => kw <> Some []
  | Raise e => kw = Some [] /\ e = IndexError
  end.
Proof.
  unfold init_lambda_arr.
  destruct kw as [[|x l]|]; simpl kw_get.
  - simpl. auto.
  - rewrite getitem_0. cbn [rbind]. destruct (fne x (Fin 0)); discriminate.
  - destruct (default_lambda_arr pow10) as [|x l] eqn:E.
    + pose proof (default_lambda_arr_length pow10) as Hl.
      rewrite E in Hl. discriminate.
    + rewrite getitem_0. cbn [rbind]. destruct (fne x (Fin 0)); discriminate.
Qed.

(** X12. The constructor returns an object exactly when the grid is not
    empty and the order is positive; an empty grid raises [IndexError],
    whatever the order, and an order that is not positive raises
    [AssertionError] otherwise. *)
Theorem Detrender_init_result
  (pow10 : Q -> f64) (mission_breakpoints : list Z) (kw : kwargs) :
  match Detrender_init pow10 mission_breakpoints kw with
  | Ok self =>
      kw_lambda_arr kw <> Some [] /\ (0 < kw_get (kw_pld_order kw) 3)%Z
  | Raise e =>
      (kw_lambda_arr kw = Some [] /\ e = IndexError) \/
      (kw_lambda_arr kw <> Some [] /\
       (kw_get (kw_pld_order kw) 3 <= 0)%Z /\ e = AssertionError)
  end.
Proof.
  unfold Detrender_init.
  pose proof (init_lambda_arr_result pow10 (kw_lambda_arr kw)) as Hl.
  destruct (init_lambda_arr pow10 (kw_lambda_arr kw)) as [l|e];
    cbn [rbind].
  - destruct (kw_get (kw_pld_order kw) 3 >? 0)%Z eqn:E; cbn [negb].
    + apply Z.gtb_lt in E. split; [exact Hl|lia].
    + right. split; [exact Hl|]. split; [|reflexivity].
      rewrite Z.gtb_ltb in E. apply Z.ltb_ge in E. exact E.
  - left. exact Hl.
Qed.

(** X13. The object that the constructor returns: the pointer is at -1,
    there is at least one segment and the last breakpoint is 999999, the
    table has one row per segment, and each row has [pld_order] cells of
    which the first holds 1e5 and the others hold nothing. *)
Theorem Detrender_init_table
  (pow10 : Q -> f64) (mission_breakpoints : list Z) (kw : kwargs)
  (self : Detrender) :
  Detrender_init pow10 mission_breakpoints kw = Ok self ->
  lam_idx self = (-1)%Z /\
  (0 < pld_order self)%Z /\
  1 <= length (breakpoints self) /\
  last (breakpoints self) 0%Z = 999999%Z /\
  length (lam self) = length (breakpoints self) /\
  length (cdppv_arr self) = length (breakpoints self) /\
  forall b, b < length (breakpoints self) ->
    cell self b 0 = Some (Some (Fin 100000)) /\
    (forall n, 0 < n < Z.to_nat (pld_order self) -> cell self b n = Some None) /\
    (forall n, Z.to_nat (pld_order self) <= n -> cell self b n = None).
Proof.
  unfold Detrender_init.
  destruct (init_lambda_arr pow10 (kw_lambda_arr kw)) as [l|e];
    cbn [rbind]; [|discriminate].
  destruct (kw_get (kw_pld_order kw) 3 >? 0)%Z eqn:E; cbn [negb];
    [|discriminate].
  apply Z.gtb_lt in E.
  set (bk := match kw_get (kw_breakpoints kw) BkTrue with
             | BkTrue => mission_breakpoints ++ [999999%Z]
             | BkList bkpts => bkpts ++ [999999%Z]
             | BkOther => [999999%Z]
             end).
  assert (Hbk : exists pre, bk = pre ++ [999999%Z]).
  { unfold bk. destruct (kw_get (kw_breakpoints kw) BkTrue);
      [eexists; reflexivity ..|exists []; reflexivity]. }
  intros H. inversion H; subst self; clear H.
  unfold cell. cbn [lam_idx pld_order breakpoints lam cdppv_arr].
  set (p := kw_get (kw_pld_order kw) 3%Z) in *.
  split; [reflexivity|]. split; [exact E|].
  destruct Hbk as (pre & Hpre).
  split; [rewrite Hpre, length_app; simpl; lia|].
  split; [rewrite Hpre; apply last_last|].
  unfold init_lam. rewrite !repeat_length.
  split; [reflexivity|]. split; [reflexivity|].
  intros b Hb. rewrite (nth_error_repeat _ Hb).
  split; [reflexivity|]. split.
  - intros [|n] Hn; [lia|]. simpl. apply nth_error_repeat. lia.
  - intros n Hn. apply nth_error_None. simpl. rewrite repeat_length. lia.
Qed.

Lemma Detrender_init_table_witness :
  let pow10 := fun q : Q => Fin (Qpower 10 (Qfloor q)) in
  let kw := {| kw_lambda_arr := None;
               kw_leps := None; kw_osigma := None; kw_oiter := None;
               kw_cdivs := None; kw_giter := None; kw_optimize_gp := None;
               kw_kernel_params := None; kw_bpad := None;
               kw_breakpoints := Some (BkList [1940%Z; 2800%Z]);
               kw_pld_order := None |} in
  exists self,
    Detrender_init pow10 [] kw = Ok self /\
    length (lam self) = 3 /\
    cell self 2 0 = Some (Some (Fin 100000)) /\
    cell self 2 2 = Some None /\
    cell self 2 3 = None.
Proof.
  intros pow10 kw.
  destruct (Detrender_init pow10 [] kw) as [self|e] eqn:H;
    [|vm_compute in H; discriminate].
  exists self. split; [reflexivity|].
  destruct (@Detrender_init_table pow10 [] kw self H)
    as (_ & _ & _ & _ & Hlen & _ & Hrows).
  assert (Hb : length (breakpoints self) = 3).
  { vm_compute in H. inversion H. reflexivity. }
  assert (Hp : pld_order self = 3%Z).
  { vm_compute in H. inversion H. reflexivity. }
  rewrite Hb in *. split; [exact Hlen|].
  destruct (Hrows 2) as (H0 & H1 & H2); [lia|].
  split; [exact H0|]. split; [apply H1|apply H2]; rewrite Hp; simpl; lia.
Defined.


(** ** [cv_precompute], further *)

Lemma mat_mul_T_shape (X Y a : ndarray2) :
  mat_mul_T X Y = Ok a -> ncols a = len2 Y /\ len2 a = len2 X.
Proof.
  unfold mat_mul_T. destruct (ncols X =? ncols Y); [|discriminate].
  intros H. inversion H. unfold len2. simpl. now rewrite length_map.
Qed.

(** What the loop over the orders leaves for the order at position [k] of
    its range. *)
Lemma precompute_orders_nth
  (X : Detrender -> nat -> list Z -> result ndarray2)
  (self : Detrender) (m1 m2 : list Z) (ns : list nat) :
  forall A B,
  precompute_orders X self m1 m2 ns = Ok (A, B) ->
  length A = length ns /\ length B = length ns /\
  forall k n, nth_error ns k = Some n ->
    ((Z.of_nat n <= lam_idx self)%Z ->
     exists a b, nth_error A k = Some (Some a) /\
                 nth_error B k = Some (Some b) /\
                 ncols a = len2 a /\ ncols b = ncols a) /\
    ((lam_idx self < Z.of_nat n)%Z ->
     nth_error A k = Some None /\ nth_error B k = Some None).
Proof.
  induction ns as [|n0 ns IH]; intros A B H; cbn [precompute_orders] in H.
  - inversion H. repeat split; auto; destruct k; discriminate.
  - destruct (precompute_order X self m1 m2 n0) as [[a0 b0]|] eqn:E0;
      cbn [rbind] in H; [|discriminate].
    destruct (precompute_orders X self m1 m2 ns) as [[A' B']|] eqn:E1;
      cbn [rbind] in H; [|discriminate].
    inversion H; subst A B; clear H.
    destruct (IH A' B' eq_refl) as (HA & HB & Hn).
    split; [simpl; lia|]. split; [simpl; lia|].
    intros [|k] n Hk; simpl in Hk; [|apply (Hn k n Hk)].
    inversion Hk; subst n0; clear Hk. simpl.
    unfold precompute_order in E0.
    destruct (lam_idx self >=? Z.of_nat n)%Z eqn:Ei.
    + destruct (X self n m2) as [X2|]; cbn [rbind] in E0; [|discriminate].
      destruct (X self n m1) as [X1|]; cbn [rbind] in E0; [|discriminate].
      destruct (mat_mul_T X2 X2) as [a|] eqn:Ea; cbn [rbind] in E0;
        [|discriminate].
      destruct (mat_mul_T X1 X2) as [b|] eqn:Eb; cbn [rbind] in E0;
        [|discriminate].
      inversion E0; subst a0 b0.
      apply mat_mul_T_shape in Ea, Eb. destruct Ea as [Ea1 Ea2].
      destruct Eb as [Eb1 Eb2]. split.
      * intros _. exists a, b. repeat split; congruence.
      * intros Hlt. apply Z.geb_le in Ei. lia.
    + inversion E0; subst a0 b0. split; [|auto].
      intros Hle. rewrite Z.geb_leb in Ei. apply Z.leb_gt in Ei. lia.
Qed.

(** X14. The arrays that [cv_precompute] returns have one entry per order
    of the model.  The entries of the orders up to the active one are
    matrices, [A[n]] square and [B[n]] with as many columns; the entries of
    the orders above the active one are [None]. *)
Theorem cv_precompute_orders
  (get_masked_chunk :
     list f64 -> list Z -> Z -> list Z -> list Z -> list Z -> list Z ->
     nat -> list Z)
  (X : Detrender -> nat -> list Z -> result ndarray2)
  (Matern32Kernel : f64 -> f64 -> f64 -> f64)
  (self : Detrender) (mask : list Z) (b : nat)
  (A B : list (option ndarray2)) (mK : ndarray2) (f : list f64) :
  cv_precompute get_masked_chunk X Matern32Kernel self mask b
    = Ok (A, B, mK, f) ->
  length A = Z.to_nat (pld_order self) /\
  length B = Z.to_nat (pld_order self) /\
  forall n, n < Z.to_nat (pld_order self) ->
    ((Z.of_nat n <= lam_idx self)%Z ->
     exists a b, nth_error A n = Some (Some a) /\
                 nth_error B n = Some (Some b) /\
                 ncols a = len2 a /\ ncols b = ncols a) /\
    ((lam_idx self < Z.of_nat n)%Z ->
     nth_error A n = Some None /\ nth_error B n = Some None).
Proof.
  unfold cv_precompute.
  set (m1 := masked_chunk get_masked_chunk self b).
  destruct (take (fraw self) m1) as [flux|]; cbn [rbind]; [|discriminate].
  destruct (take (time self) m1) as [tm|]; cbn [rbind]; [|discriminate].
  destruct (take (fraw_err self) m1) as [er|]; cbn [rbind]; [|discriminate].
  destruct (GetCovariance _ _ _ _) as [K|]; cbn [rbind]; [|discriminate].
  destruct (np_delete m1 mask) as [m2|]; cbn [rbind]; [|discriminate].
  destruct (delete_axis0 K mask) as [K0|]; cbn [rbind]; [|discriminate].
  destruct (delete_axis1 K0 mask) as [mK'|]; cbn [rbind]; [|discriminate].
  destruct (np_delete flux mask) as [fm|]; cbn [rbind]; [|discriminate].
  destruct (precompute_orders X self m1 m2 _) as [[A' B']|] eqn:E;
    cbn [rbind]; [|discriminate].
  intros H. inversion H; subst A' B'; clear H.
  destruct (precompute_orders_nth _ _ _ _ _ E) as (HA & HB & Hn).
  rewrite length_seq in HA, HB. split; [exact HA|]. split; [exact HB|].
  intros n Hlt. apply Hn.
  rewrite nth_error_nth' with (d := 0) by (rewrite length_seq; lia).
  now rewrite seq_nth.
Qed.

Lemma cv_precompute_orders_witness :
  let gmc := fun (_ : list f64) (_ : list Z) (_ : Z) (_ _ _ _ : list Z)
                 (_ : nat) => [0%Z; 1%Z; 3%Z] in
  let X := fun (_ : Detrender) (n : nat) (idx : list Z) =>
             Ok (mk_ndarray2 1
                   (map (fun i => [Fin (inject_Z (i + Z.of_nat n))]) idx)) in
  let k32 := fun _ _ _ : f64 => Fin 0 in
  exists A B mK f,
    cv_precompute gmc X k32 small_self [1%Z] 0 = Ok (A, B, mK, f) /\
    length A = 2 /\
    (exists a, nth_error A 0 = Some (Some a)) /\
    nth_error A 1 = Some None.
Proof.
  intros gmc X k32.
  destruct (cv_precompute gmc X k32 small_self [1%Z] 0)
    as [[[[A B] mK] f]|e] eqn:H; [|vm_compute in H; discriminate].
  exists A, B, mK, f. split; [reflexivity|].
  destruct (@cv_precompute_orders gmc X k32 small_self [1%Z] 0 A B mK f H)
    as (HA & _ & Hn).
  split; [exact HA|]. split.
  - destruct (Hn 0) as [H0 _]; [simpl; lia|].
    destruct H0 as (a & _ & Ha & _); [simpl; lia|]. eauto.
  - destruct (Hn 1) as [_ H1]; [simpl; lia|].
    destruct H1 as [H1 _]; [simpl; lia|]. exact H1.
Defined.


(** ** [GetKernelParams], further *)

Lemma flt_irrefl (x : f64) : flt x x = false.
Proof. f64_cases. q_reflect. Qed.

Lemma flt_raise (a b c : f64) :
  flt a b = true -> flt a c = false -> is_nan a = false -> flt b c = false.
Proof. intros H1 H2 H3. f64_cases; q_reflect. Qed.

Section KernelParamsMore.

Variable savgol_filter : list f64 -> nat -> nat -> result (list f64).
Variable nanstd : list f64 -> f64.
Variable Chunks : list f64 -> Z -> result (list (list f64)).
Variable randn : nat -> f64.
Variable random : nat -> f64.
Variable fmin_l_bfgs_b :
  list f64 -> bounds_t -> list f64 -> list f64 -> list f64 ->
  result (list f64 * f64).

Lemma jitter_in_bounds (budget : nat) :
  forall tries rng cur l h g x rng',
  unit_draws random -> (l <= h)%Q ->
  101 <= tries + budget -> 1 <= budget ->
  jitter randn random budget tries rng cur (Fin l) (Fin h) g = Ok (x, rng') ->
  in_bounds x (Fin l, Fin h).
Proof.
  induction budget as [|n IH];
    intros tries rng cur l h g x rng' Hu Hlh Hsum Hb H; [lia|].
  cbn [jitter] in H.
  destruct (flt cur (Fin l) || flt (Fin h) cur) eqn:E.
  - destruct g as [gj|]; cbn [rbind] in H; [|discriminate].
    destruct (100 <? S tries) eqn:Et.
    + inversion H; subst x rng'; clear H.
      destruct (Hu (S rng)) as (r & -> & Hr0 & Hr1).
      unfold in_bounds. simpl.
      assert (Hp : (0 <= r * (h + - l))%Q)
        by (apply Qmult_le_0_compat; lra).
      assert (Hq : (0 <= (1 - r) * (h + - l))%Q)
        by (apply Qmult_le_0_compat; lra).
      split; apply negb_false_iff, Qle_bool_iff; lra.
    + apply Nat.ltb_ge in Et. eapply IH; eauto; lia.
  - inversion H; subst x rng'. apply orb_false_iff in E. exact E.
Qed.

Lemma randomize_in_bounds (bounds : bounds_t) (guess : list f64) :
  forall j rng iguess rng',
  unit_draws random -> Forall ordered_bounds bounds ->
  randomize randn random j rng bounds guess = Ok (iguess, rng') ->
  Forall2 in_bounds iguess bounds.
Proof.
  induction bounds as [|[lo hi] bounds IH];
    intros j rng iguess rng' Hu Hb H; cbn [randomize] in H.
  - inversion H. constructor.
  - inversion Hb as [|? ? (l & h & Hlh & Hle) Hb']; subst.
    inversion Hlh; subst lo hi; clear Hlh.
    destruct (jitter randn random 101 0 rng PInf (Fin l) (Fin h) _)
      as [[x rng1]|] eqn:Ej; cbn [rbind] in H; [|discriminate].
    destruct (randomize randn random (S j) rng1 bounds guess)
      as [[xs rng2]|] eqn:Er; cbn [rbind] in H; [|discriminate].
    inversion H; subst iguess rng'; clear H. constructor.
    + eapply jitter_in_bounds with (budget := 101) (tries := 0);
        [exact Hu|exact Hle|lia|lia|exact Ej].
    + eapply IH; eauto.
Qed.

Lemma restart_loop_in_bounds (bounds : bounds_t)
  (guess time flux errors : list f64) (giter : nat) :
  unit_draws random -> Forall ordered_bounds bounds ->
  forall st st',
  restart_loop randn random fmin_l_bfgs_b giter st bounds guess
    time flux errors = Ok st' ->
  Forall (fun c => Forall2 in_bounds (fst c) (snd c)) (calls st) ->
  Forall (fun c => Forall2 in_bounds (fst c) (snd c)) (calls st').
Proof.
  intros Hu Hb. induction giter as [|g IH]; intros st st' H Hall;
    cbn [restart_loop] in H.
  - inversion H; subst. exact Hall.
  - destruct (randomize randn random 0 (rng_draws st) bounds guess)
      as [[iguess rng]|] eqn:Er; cbn [rbind] in H; [|discriminate].
    destruct (fmin_l_bfgs_b iguess bounds time flux errors) as [y|];
      cbn [rbind] in H; [|discriminate].
    apply IH in H; [exact H|].
    apply randomize_in_bounds in Er; auto.
    destruct (flt (llbest st) (fneg (snd y))); simpl;
      (apply Forall_app; split; [exact Hall|]); repeat constructor;
      exact Er.
Qed.

Lemma restart_loop_best (bounds : bounds_t)
  (guess time flux errors x0 : list f64) (giter : nat) :
  forall st st',
  restart_loop randn random fmin_l_bfgs_b giter st bounds guess
    time flux errors = Ok st' ->
  best_so_far fmin_l_bfgs_b time flux errors x0 st ->
  best_so_far fmin_l_bfgs_b time flux errors x0 st'.
Proof.
  induction giter as [|g IH]; intros st st' H Hinv; cbn [restart_loop] in H.
  - inversion H; subst. exact Hinv.
  - destruct (randomize randn random 0 (rng_draws st) bounds guess)
      as [[iguess rng]|] eqn:Er; cbn [rbind] in H; [|discriminate].
    destruct (fmin_l_bfgs_b iguess bounds time flux errors) as [[x v]|]
      eqn:Eo; cbn [rbind] in H; [|discriminate].
    apply IH in H; [exact H|]. clear H IH.
    destruct Hinv as (Hnan & Hmax & Hbest). cbn [fst snd].
    destruct (flt (llbest st) (fneg v)) eqn:E; unfold best_so_far;
      cbn [llbest xbest calls].
    + split; [apply (flt_nonnan _ _ E)|]. split.
      * intros c y Hc Hy. apply in_app_or in Hc. destruct Hc as [Hc|Hc].
        -- eapply flt_raise; eauto.
        -- destruct Hc as [<-|[]]. unfold optimized in Hy. simpl in Hy.
           rewrite Eo in Hy. inversion Hy. apply flt_irrefl.
      * right. exists (iguess, bounds), v. split; [|split; auto].
        apply in_or_app. right. left. reflexivity.
    + split; [exact Hnan|]. split.
      * intros c y Hc Hy. apply in_app_or in Hc. destruct Hc as [Hc|Hc].
        -- eapply Hmax; eauto.
        -- destruct Hc as [<-|[]]. unfold optimized in Hy. simpl in Hy.
           rewrite Eo in Hy. inversion Hy. exact E.
      * destruct Hbest as [Hb|(c & w & Hc & Hy & Hl)]; [left; exact Hb|].
        right. exists c, w. split; [|split; auto].
        apply in_or_app. left. exact Hc.
Qed.

(** X15. When the data give finite bounds ([white] finite and not
    negative, [10000 amp] finite and at least 1) and the uniform draws are
    in [[0, 1]], every starting point handed to the optimizer lies within
    the bounds handed with it, whatever the guess and the normal draws. *)
Theorem GetKernelParams_starts_in_bounds
  (rng : nat) (time flux errors : list f64) (mask : list Z) (giter : nat)
  (guess : option (list f64)) (time' flux' errors' : list f64) (w a : Q)
  (r : restarts) :
  clean_inputs savgol_filter time flux errors mask
    = Ok (time', flux', errors') ->
  data_white nanstd Chunks flux' = Ok (Fin w) -> (0 <= w)%Q ->
  data_amp nanstd flux' = Fin a -> (1 <= 10000 * a)%Q ->
  unit_draws random ->
  GetKernelParams savgol_filter nanstd Chunks randn random fmin_l_bfgs_b
    rng time flux errors mask giter guess = Ok r ->
  Forall (fun c => Forall2 in_bounds (fst c) (snd c)) (calls r).
Proof.
  intros Hclean Hwhite Hw Hamp Ha Hu.
  unfold GetKernelParams. rewrite Hclean. cbn [rbind].
  rewrite Hwhite. cbn [rbind]. rewrite Hamp. intros H.
  eapply restart_loop_in_bounds in H; eauto.
  unfold make_bounds. simpl. repeat constructor.
  - eexists _, _. split; [reflexivity|]. lra.
  - eexists _, _. split; [reflexivity|]. lra.
  - eexists _, _. split; [reflexivity|]. lra.
Qed.

(** X16. What [GetKernelParams] returns is the best of its restarts: no
    call of the optimizer reached a likelihood above the one retained, and
    the parameters returned are those found by a call that reached it, or,
    when no call did better than minus infinity, the guess. *)
Theorem GetKernelParams_best_restart
  (rng : nat) (time flux errors : list f64) (mask : list Z) (giter : nat)
  (guess : option (list f64)) (r : restarts) :
  GetKernelParams savgol_filter nanstd Chunks randn random fmin_l_bfgs_b
    rng time flux errors mask giter guess = Ok r ->
  exists time' flux' errors',
    clean_inputs savgol_filter time flux errors mask
      = Ok (time', flux', errors') /\
    (forall c y, In c (calls r) ->
                 optimized fmin_l_bfgs_b time' flux' errors' c = Ok y ->
                 flt (llbest r) (fneg (snd y)) = false) /\
    ((llbest r = NInf /\ forall g, guess = Some g -> xbest r = g) \/
     exists c v, In c (calls r) /\
                 optimized fmin_l_bfgs_b time' flux' errors' c = Ok (xbest r, v) /\
                 llbest r = fneg v).
Proof.
  unfold GetKernelParams.
  destruct (clean_inputs savgol_filter time flux errors mask)
    as [[[time' flux'] errors']|]; cbn [rbind]; [|discriminate].
  destruct (data_white nanstd Chunks flux') as [w|]; cbn [rbind];
    [|discriminate].
  intros H. exists time', flux', errors'. split; [reflexivity|].
  match type of H with
  | restart_loop _ _ _ _ (mk_restarts _ _ ?g0 _) _ _ _ _ _ = _ =>
      apply restart_loop_best with (x0 := g0) in H
  end.
  - destruct H as (_ & Hmax & Hbest). split; [exact Hmax|].
    destruct Hbest as [[Hx Hl]|Hb]; [left|right; exact Hb].
    split; [exact Hl|]. intros g ->. exact Hx.
  - split; [reflexivity|]. split; [intros c y []|].
    left. split; reflexivity.
Qed.

End KernelParamsMore.

Lemma GetKernelParams_starts_in_bounds_witness :
  let savgol := fun (x : list f64) (_ _ : nat) => Ok x in
  let nanstd := fun _ : list f64 => Fin 1 in
  let Chunks := fun (l : list f64) (n : Z) =>
    Ok (chunks_of (length l) (Z.to_nat n) l) in
  let fmin := fun (x0 : list f64) (_ : bounds_t) (_ _ _ : list f64) =>
    Ok (x0, Fin 0) in
  let flux := repeat (Fin 1000) 65 in
  exists r,
    GetKernelParams savgol nanstd Chunks (fun _ => Fin 0)
      (fun _ => Fin (1 # 2)) fmin 0 flux flux flux [] 2
      (Some [Fin 1000; Fin 20; Fin 30]) = Ok r /\
    length (calls r) = 2 /\
    Forall (fun c => Forall2 in_bounds (fst c) (snd c)) (calls r).
Proof.
  intros savgol nanstd Chunks fmin flux.
  assert (Hc : clean_inputs savgol flux flux flux [] = Ok (flux, flux, flux))
    by (vm_compute; reflexivity).
  assert (Hw : data_white nanstd Chunks flux = Ok (Fin 1))
    by (vm_compute; reflexivity).
  assert (Ha : data_amp nanstd flux = Fin 1) by reflexivity.
  assert (Hu : unit_draws (fun _ => Fin (1 # 2))).
  { intros k. exists (1 # 2)%Q. split; [reflexivity|]. lra. }
  destruct (GetKernelParams savgol nanstd Chunks (fun _ => Fin 0)
              (fun _ => Fin (1 # 2)) fmin 0 flux flux flux [] 2
              (Some [Fin 1000; Fin 20; Fin 30])) as [r|e] eqn:Hr;
    [|vm_compute in Hr; discriminate].
  exists r. split; [reflexivity|]. split.
  - vm_compute in Hr. inversion Hr. reflexivity.
  - refine (@GetKernelParams_starts_in_bounds savgol nanstd Chunks
              (fun _ => Fin 0) (fun _ => Fin (1 # 2)) fmin 0 flux flux flux
              [] 2 (Some [Fin 1000; Fin 20; Fin 30]) flux flux flux 1 1 r
              Hc Hw _ Ha _ Hu Hr); lra.
Defined.

Lemma GetKernelParams_best_restart_witness :
  let savgol := fun (x : list f64) (_ _ : nat) => Ok x in
  let nanstd := fun _ : list f64 => Fin 1 in
  let Chunks := fun (l : list f64) (n : Z) =>
    Ok (chunks_of (length l) (Z.to_nat n) l) in
  let fmin := fun (x0 : list f64) (_ : bounds_t) (_ _ _ : list f64) =>
    Ok (map (fun x => x + Fin 1)%f64 x0, Fin 7) in
  let flux := repeat (Fin 1000) 65 in
  exists r,
    GetKernelParams savgol nanstd Chunks (fun _ => Fin 0)
      (fun _ => Fin (1 # 2)) fmin 0 flux flux flux [] 2
      (Some [Fin 10; Fin 20; Fin 30]) = Ok r /\
    llbest r = Fin (-7) /\
    forall c y, In c (calls r) ->
                optimized fmin flux flux flux c = Ok y ->
                flt (llbest r) (fneg (snd y)) = false.
Proof.
  intros savgol nanstd Chunks fmin flux.
  destruct (GetKernelParams savgol nanstd Chunks (fun _ => Fin 0)
              (fun _ => Fin (1 # 2)) fmin 0 flux flux flux [] 2
              (Some [Fin 10; Fin 20; Fin 30])) as [r|e] eqn:Hr;
    [|vm_compute in Hr; discriminate].
  exists r. split; [reflexivity|]. split.
  - vm_compute in Hr. inversion Hr. reflexivity.
  - destruct (@GetKernelParams_best_restart savgol nanstd Chunks
                (fun _ => Fin 0) (fun _ => Fin (1 # 2)) fmin 0 flux flux
                flux [] 2 (Some [Fin 10; Fin 20; Fin 30]) r Hr)
      as (t' & f' & e' & Hc & Hmax & _).
    assert (Hc' : clean_inputs savgol flux flux flux []
                  = Ok (flux, flux, flux)) by (vm_compute; reflexivity).
    rewrite Hc' in Hc. inversion Hc; subst t' f' e'. exact Hmax.
Defined.


(** ** [cross_validate] fills the active cells *)

Lemma ensures_bind {A B} (m : M A) (f : A -> M B) (Q : Detrender -> Prop) :
  (forall a, ensures (f a) Q) -> ensures (mbind m f) Q.
Proof.
  intros Hf s b s' H. unfold mbind in H.
  destruct (m s) as [[a|e] s1]; [|discriminate].
  eapply Hf; eauto.
Qed.

Lemma ensures_seq {A B} (m : M A) (f : A -> M B) (Q1 Q : Detrender -> Prop) :
  ensures m Q1 ->
  (forall a s1 b s', Q1 s1 -> f a s1 = (Ok b, s') -> Q s') ->
  ensures (mbind m f) Q.
Proof.
  intros Hm Hf s b s' H. unfold mbind in H.
  destruct (m s) as [[a|e] s1] eqn:E; [|discriminate].
  eapply Hf; eauto.
Qed.

Ltac ensure_step :=
  lazymatch goal with
  | |- ensures (mbind mget _) _ => fail
  | |- ensures (mbind _ _) _ => apply ensures_bind; intros ?
  | |- ensures (match ?p with (_, _) => _ end) _ => destruct p
  end.

Lemma getitem_In {A} (l : list A) (i : Z) (v : A) :
  getitem l i = Ok v -> In v l.
Proof.
  unfold getitem. destruct (py_index (length l) i) as [k|]; [|discriminate].
  destruct (nth_error l k) as [x|] eqn:E; [|discriminate].
  intros H. inversion H; subst. eapply nth_error_In; eauto.
Qed.

Lemma assign_lam_filled (b : nat) (v : f64) (s s' : Detrender) (u : unit) :
  assign_lam b v s = (Ok u, s') ->
  v = NInf \/ In v (lambda_arr s) ->
  filled s' b.
Proof.
  unfold assign_lam.
  destruct (nth_error (lam s) b) as [row|] eqn:Er; [|discriminate].
  unfold setitem.
  destruct (py_index (length row) (lam_idx s)) as [k|] eqn:Ek;
    [|discriminate].
  intros H Hv. inversion H; subst s'; clear H.
  exists k. unfold full, active_cell, cell. simpl.
  rewrite nth_error_list_set_eq by (apply nth_error_Some; congruence).
  rewrite length_list_set. split; [exact Ek|].
  exists v. split; [|exact Hv].
  apply nth_error_list_set_eq. eapply py_index_lt; eauto.
Qed.

Lemma filled_segment_frame (b : nat) (s s' : Detrender) :
  segment_frame b s s' -> filled s b -> filled s' b.
Proof.
  intros (O & _ & N) (k & Ha & v & Hc & Hv).
  destruct O as (l & c & m & ->).
  exists k. unfold full, active_cell, cell in *. simpl in *.
  rewrite N. split; [exact Ha|]. exists v. split; assumption.
Qed.

Lemma lam_frame_active (b : nat) (s s' : Detrender) :
  lam_frame s s' -> active_cell s' b = active_cell s b.
Proof.
  intros [O F]. unfold active_cell. rewrite (only_lam_idx O).
  pose proof (Forall2_nth_error b F) as H.
  destruct (nth_error (lam s) b) as [row|].
  - destruct H as (row' & -> & [L _]). now rewrite L.
  - now rewrite H.
Qed.

Section CrossValidateFills.

Variable get_masked_chunk :
  list f64 -> list Z -> Z -> list Z -> list Z -> list Z -> list Z ->
  nat -> list Z.
Variable X : Detrender -> nat -> list Z -> result ndarray2.
Variable Chunks : list Z -> Z -> result (list (list Z)).
Variable Matern32Kernel : f64 -> f64 -> f64 -> f64.
Variable gp_predict :
  f64 -> f64 -> list f64 -> list f64 -> list f64 -> list f64 ->
  result (list f64).
Variable np_sqrt : f64 -> f64.
Variable linalg_solve : ndarray2 -> list f64 -> result (list f64).
Variable compute_model : Detrender -> result (list f64).
Variable np_log10 : f64 -> f64.
Variable power10 : f64 -> f64.
Variable np_linspace : f64 -> f64 -> nat -> list f64.
Variable draw : plot_cmd -> result unit.
Variable get_cdpp_arr : Detrender -> list f64.

Let segment :=
  cv_segment get_masked_chunk X Chunks Matern32Kernel gp_predict np_sqrt
    linalg_solve np_log10 power10 np_linspace draw.

(** Both ways out of a segment's turn end with an assignment to the active
    cell: of [-inf], or of the value of the grid that [optimize_lambda]
    chose. *)
Lemma cv_segment_fills (xticks : option (list f64)) (b : nat) :
  ensures (segment xticks b) (fun s' => filled s' b).
Proof.
  unfold segment, cv_segment.
  apply ensures_bind; intros self. cbv zeta.
  destruct (_ <? _)%Z.
  - apply ensures_bind; intros _. intros s a s' H.
    unfold mbind, mret in H.
    destruct (assign_lam b NInf s) as [[u|e] s2] eqn:Ea; [|discriminate].
    inversion H; subst s'.
    eapply assign_lam_filled; eauto.
  - repeat ensure_step.
    intros st u st' H. unfold mbind, mget, mlift, mret in H.
    destruct (getitem (lambda_arr st) _) as [l'|] eqn:E; [|discriminate].
    destruct (assign_lam b l' st) as [[u1|e] s2] eqn:Ea; [|discriminate].
    assert (Hs : st' = s2).
    { destruct (_ <=? _)%Z; [|now inversion H].
      destruct (plot_segment _ _ _ _ _ _ _ _ _ _ _ _); now inversion H. }
    subst st'.
    eapply assign_lam_filled; eauto. right. eapply getitem_In; eauto.
Qed.

Lemma cross_validate_all_filled (self self' : Detrender) :
  cross_validate get_masked_chunk X Chunks Matern32Kernel gp_predict
    np_sqrt linalg_solve compute_model np_log10 power10 np_linspace draw
      get_cdpp_arr self = (Ok tt, self') ->
  forall b, b < length (breakpoints self) -> filled self' b.
Proof.
  intros Hcv b Hb.
  rewrite cross_validate_steps in Hcv. fold segment in Hcv.
  set (n := length (breakpoints self)) in *.
  assert (Hsplit : seq 0 n = seq 0 b ++ b :: seq (S b) (n - S b)).
  { replace n with (b + S (n - S b)) at 1 by lia.
    rewrite seq_app. reflexivity. }
  rewrite Hsplit, mfold_app in Hcv.
  destruct (mfold (seq 0 b) None segment self) as [[xt1|e] s1];
    [|discriminate].
  cbn [mfold] in Hcv. unfold mbind at 1 in Hcv.
  destruct (segment xt1 b s1) as [[xt2|e] s2] eqn:Es; [|discriminate].
  pose proof (@cv_segment_fills xt1 b s1 xt2 s2 Es) as Hf. simpl in Hf.
  pose proof (@segments_keep_row get_masked_chunk X Chunks Matern32Kernel
                gp_predict np_sqrt linalg_solve np_log10 power10 np_linspace
                draw b (seq (S b) (n - S b)) xt2)
    as Hafter.
  specialize (Hafter ltac:(rewrite in_seq; lia) s2).
  fold segment in Hafter.
  destruct (mfold (seq (S b) (n - S b)) xt2 segment s2) as [[xt3|e] s3];
    [|discriminate].
  simpl snd in Hafter.
  pose proof (@cross_validate_finish_preserves compute_model np_log10 draw
                get_cdpp_arr (segment_frame b) xt3
                (segment_frame_refl b) (@segment_frame_trans b)
                (do_compute_segment_frame b compute_model) s3) as Hc.
  rewrite Hcv in Hc. simpl snd in Hc.
  eapply filled_segment_frame; [exact Hc|].
  eapply filled_segment_frame; [exact Hafter|exact Hf].
Qed.

(** X17. When [cross_validate] returns, every segment has a number in the
    cell that the pointer designates, the same cell as before the call:
    [-inf], or a value of [lambda_arr]. *)
Theorem cross_validate_fills_active_cells (self self' : Detrender) :
  cross_validate get_masked_chunk X Chunks Matern32Kernel gp_predict
    np_sqrt linalg_solve compute_model np_log10 power10 np_linspace draw
      get_cdpp_arr self = (Ok tt, self') ->
  forall b, b < length (breakpoints self) ->
    exists k v,
      active_cell self b = Some k /\
      cell self' b k = Some (Some v) /\
      (v = NInf \/ In v (lambda_arr self)).
Proof.
  intros Hcv b Hb.
  pose proof (@cross_validate_lam_frame get_masked_chunk X Chunks
                Matern32Kernel gp_predict np_sqrt linalg_solve compute_model
                  np_log10 power10 np_linspace draw get_cdpp_arr
                self) as HF.
  rewrite Hcv in HF. simpl snd in HF.
  destruct (@cross_validate_all_filled self self' Hcv b Hb)
    as (k & Ha & v & Hc & Hv).
  exists k, v. rewrite <- (lam_frame_active b HF). split; [exact Ha|].
  split; [exact Hc|].
  destruct HF as [(l & c & m & E) _]. rewrite E in Hv. exact Hv.
Qed.

End CrossValidateFills.

Lemma cross_validate_fills_active_cells_witness :
  let gmc := fun (_ : list f64) (_ : list Z) (_ : Z) (_ _ _ _ : list Z)
                 (_ : nat) => [0%Z; 1%Z; 2%Z; 3%Z] in
  let X := fun (_ : Detrender) (_ : nat) (idx : list Z) =>
             Ok (mk_ndarray2 1 (map (fun _ : Z => [Fin 1]) idx)) in
  let Chunks := fun (l : list Z) (n : Z) =>
                  Ok (chunks_of (length l) (Z.to_nat n) l) in
  let k32 := fun _ _ _ : f64 => Fin 0 in
  let predict := fun (_ _ : f64) (_ _ _ : list f64) (t : list f64) =>
                   Ok (map (fun _ : f64 => Fin 0) t) in
  let solve := fun (_ : ndarray2) (f : list f64) =>
                 Ok (map (fun _ : f64 => Fin 0) f) in
  let compute_model := fun s : Detrender => Ok (model s) in
  exists self',
    cross_validate gmc X Chunks k32 predict (fun x => x) solve compute_model
      (fun x => x) (fun x => x)
           (fun a b _ => [a; b]) (fun _ => Ok tt) (fun _ => [Fin 1])
      varied_self = (Ok tt, self') /\
    lam self' = [[Some (Fin 0); None]] /\
    exists k v,
      active_cell varied_self 0 = Some k /\
      cell self' 0 k = Some (Some v) /\
      (v = NInf \/ In v (lambda_arr varied_self)).
Proof.
  intros gmc X Chunks k32 predict solve compute_model.
  destruct (cross_validate gmc X Chunks k32 predict (fun x => x) solve
              compute_model (fun x => x) (fun x => x)
           (fun a b _ => [a; b]) (fun _ => Ok tt) (fun _ => [Fin 1])
             varied_self) as [[[]|e] self'] eqn:H;
    [|vm_compute in H; discriminate].
  exists self'. split; [reflexivity|]. split.
  - vm_compute in H. inversion H. reflexivity.
  - assert (Hb : 0 < length (breakpoints varied_self)) by (simpl; lia).
    exact (@cross_validate_fills_active_cells gmc X Chunks k32 predict
             (fun x => x) solve compute_model (fun x => x) (fun x => x)
           (fun a b _ => [a; b]) (fun _ => Ok tt) (fun _ => [Fin 1])
             varied_self self' H 0 Hb).
Defined.

(** ** The order loop, further *)

Lemma steady_refl (s : Detrender) : steady s s.
Proof. repeat split. Qed.

Lemma steady_trans (s1 s2 s3 : Detrender) :
  steady s1 s2 -> steady s2 s3 -> steady s1 s3.
Proof.
  intros (A1 & B1 & C1 & D1) (A2 & B2 & C2 & D2).
  repeat split; congruence.
Qed.

Lemma kernel_same_refl (s : Detrender) : kernel_same s s.
Proof. split; reflexivity. Qed.

Lemma kernel_same_trans (s1 s2 s3 : Detrender) :
  kernel_same s1 s2 -> kernel_same s2 s3 -> kernel_same s1 s3.
Proof. intros [A1 B1] [A2 B2]. split; congruence. Qed.

Lemma only_model_outmask_steady (s s' : Detrender) :
  only_model_outmask s s' ->
  steady s s' /\ kernel_same s s' /\ lam s' = lam s.
Proof. intros (m & o & ->). repeat split. Qed.

Lemma only_table_metric_model_steady (s s' : Detrender) :
  only_table_metric_model s s' -> steady s s' /\ kernel_same s s'.
Proof. intros (l & c & m & ->). repeat split. Qed.

Lemma all_filled_keep (s s' : Detrender) :
  steady s s' -> lam s' = lam s -> all_filled s -> all_filled s'.
Proof.
  intros (Hi & Hg & Hb & _) Hl Hall b Hlt.
  rewrite Hb in Hlt. destruct (Hall b Hlt) as (k & Ha & v & Hc & Hv).
  exists k. unfold full, active_cell, cell in *.
  rewrite Hl, Hi, Hg. eauto.
Qed.

Section OrderLoopMore.

Variable get_masked_chunk :
  list f64 -> list Z -> Z -> list Z -> list Z -> list Z -> list Z ->
  nat -> list Z.
Variable X : Detrender -> nat -> list Z -> result ndarray2.
Variable ChunksZ : list Z -> Z -> result (list (list Z)).
Variable Matern32Kernel : f64 -> f64 -> f64 -> f64.
Variable gp_predict :
  f64 -> f64 -> list f64 -> list f64 -> list f64 -> list f64 ->
  result (list f64).
Variable np_sqrt : f64 -> f64.
Variable linalg_solve : ndarray2 -> list f64 -> result (list f64).
Variable compute_model : Detrender -> result (list f64).
Variable np_log10 : f64 -> f64.
Variable power10 : f64 -> f64.
Variable np_linspace : f64 -> f64 -> nat -> list f64.
Variable draw : plot_cmd -> result unit.
Variable SavGol : list f64 -> list f64.
Variable savgol_filter : list f64 -> nat -> nat -> result (list f64).
Variable nanstd : list f64 -> f64.
Variable Chunks : list f64 -> Z -> result (list (list f64)).
Variable randn : nat -> f64.
Variable random : nat -> f64.
Variable fmin_l_bfgs_b :
  list f64 -> bounds_t -> list f64 -> list f64 -> list f64 ->
  result (list f64 * f64).
Variable get_mask : Detrender -> list Z.
Variable get_cdpp_arr : Detrender -> list f64.
Variable get_cdpp : Detrender -> f64.

Let cross_validate' :=
  cross_validate get_masked_chunk X ChunksZ Matern32Kernel gp_predict
    np_sqrt linalg_solve compute_model np_log10 power10 np_linspace draw
      get_cdpp_arr.

Let update_gp' :=
  update_gp savgol_filter nanstd Chunks randn random fmin_l_bfgs_b get_mask.

Let run_order' :=
  run_order get_masked_chunk X ChunksZ Matern32Kernel gp_predict np_sqrt
    linalg_solve compute_model np_log10 power10 np_linspace draw SavGol
      savgol_filter nanstd Chunks randn
    random fmin_l_bfgs_b get_mask get_cdpp_arr get_cdpp.

Let run_loop' :=
  run_loop get_masked_chunk X ChunksZ Matern32Kernel gp_predict np_sqrt
    linalg_solve compute_model np_log10 power10 np_linspace draw SavGol
      savgol_filter nanstd Chunks randn
    random fmin_l_bfgs_b get_mask get_cdpp_arr get_cdpp.

Lemma get_outliers_only :
  preserves only_model_outmask (get_outliers compute_model SavGol).
Proof.
  intros s. unfold get_outliers, get_outliers_fuel.
  destruct (og_M s (time s)) as [t|ex]; [|apply only_model_outmask_refl].
  destruct (outliers_loop _ _ _ _ _ _ _) as [[r s']|] eqn:E;
    [|apply only_model_outmask_refl].
  apply outliers_loop_effect in E; [|reflexivity].
  destruct r; apply E.
Qed.

Lemma update_gp_steady (rng : nat) :
  preserves (fun s s' => steady s s' /\ lam s' = lam s) (update_gp' rng).
Proof.
  intros s. unfold update_gp', update_gp.
  destruct (flux s) as [fl|]; [|repeat split].
  destruct (GetKernelParams _ _ _ _ _ _ _ _ _ _ _ _ _) as [r|];
    repeat split.
Qed.

Lemma cross_validate_steady :
  preserves (fun s s' => steady s s' /\ kernel_same s s') cross_validate'.
Proof.
  intros s. apply only_table_metric_model_steady.
  apply (@cross_validate_lam_frame get_masked_chunk X ChunksZ Matern32Kernel
           gp_predict np_sqrt linalg_solve compute_model np_log10 power10
             np_linspace draw get_cdpp_arr s).
Qed.

(** One turn of the order loop: the pointer moves one step, the settings
    stay. *)
Lemma run_order_steady (n rng : nat) (s : Detrender) :
  steady (set_lam_idx s (lam_idx s + 1)) (snd (run_order' n rng s)).
Proof.
  unfold run_order', run_order.
  unfold mbind at 1. unfold bump_lam_idx at 1.
  set (s1 := set_lam_idx s (lam_idx s + 1)).
  match goal with
  | |- steady s1 (snd (?rest s1)) => assert (Hrest : preserves steady rest)
  end.
  { pose proof steady_refl as Hrefl.
    pose proof steady_trans as Htrans.
    assert (Hset : forall f : Detrender -> Detrender,
               (forall x, steady x (f x)) ->
               preserves steady (fun x => (Ok tt, f x))).
    { intros f Hf x. apply Hf. }
    repeat preserve_step;
      try solve [apply Hset; intros x; repeat split].
    - apply preserves_weaken with (R := only_model_outmask);
        [apply only_model_outmask_steady|apply get_outliers_only].
    - eapply preserves_weaken; [|apply update_gp_steady].
      intros x y H. apply H.
    - eapply preserves_weaken; [|apply cross_validate_steady].
      intros x y H. apply H. }
  apply Hrest.
Qed.

(** When a turn of the order loop returns, every active cell is full. *)
Lemma run_order_all_filled (n rng : nat) :
  ensures (run_order' n rng) all_filled.
Proof.
  unfold run_order', run_order.
  do 4 (apply ensures_bind; intros ?).
  apply ensures_seq with (Q1 := all_filled).
  - intros s [] s' H b Hb.
    pose proof (cross_validate_steady s) as [(_ & _ & Hbk & _) _].
    fold cross_validate' in H. rewrite H in Hbk. simpl snd in Hbk.
    rewrite Hbk in Hb.
    exact (@cross_validate_all_filled get_masked_chunk X ChunksZ
             Matern32Kernel gp_predict np_sqrt linalg_solve compute_model
               np_log10 power10 np_linspace draw get_cdpp_arr
             s s' H b Hb).
  - intros _ s1 r s' Hall H.
    match type of H with
    | ?rest s1 = _ =>
        assert (Hrest : preserves (fun x y => steady x y /\ lam y = lam x)
                          rest)
    end.
    { assert (Hrefl : forall x : Detrender, steady x x /\ lam x = lam x)
        by (intros x; split; [apply steady_refl|reflexivity]).
      assert (Htrans : forall x y z : Detrender,
                 steady x y /\ lam y = lam x ->
                 steady y z /\ lam z = lam y ->
                 steady x z /\ lam z = lam x).
      { intros x y z [S1 L1] [S2 L2]. split; [|congruence].
        eapply steady_trans; eauto. }
      assert (Hset : forall f : Detrender -> Detrender,
                 (forall x, steady x (f x) /\ lam (f x) = lam x) ->
                 preserves (fun x y => steady x y /\ lam y = lam x)
                   (fun x => (Ok tt, f x))).
      { intros f Hf x. apply Hf. }
      repeat preserve_step;
        try solve [apply Hset; intros x; repeat split]. }
    specialize (Hrest s1). rewrite H in Hrest. simpl snd in Hrest.
    destruct Hrest as [Hs Hl]. eapply all_filled_keep; eauto.
Qed.

Lemma run_loop_fills (ns : list nat) :
  forall rng s r s',
  run_loop' ns rng s = (Ok r, s') ->
  (-1 <= lam_idx s)%Z ->
  lam_idx s' = (lam_idx s + Z.of_nat (length ns))%Z /\
  lambda_arr s' = lambda_arr s /\
  breakpoints s' = breakpoints s /\
  forall b k, b < length (breakpoints s) ->
              (lam_idx s < Z.of_nat k <= lam_idx s')%Z ->
              full s' b k.
Proof.
  induction ns as [|n ns IH]; intros rng s r s' H Hi.
  - inversion H; subst. split; [cbn [length]; lia|].
    split; [reflexivity|]. split; [reflexivity|].
    intros b k _ Hk. cbn [length] in Hk. lia.
  - unfold run_loop' in H. cbn [run_loop] in H. unfold mbind in H.
    fold run_order' in H.
    pose proof (run_order_steady n rng s) as (S1 & S2 & S3 & _).
    destruct (run_order' n rng s) as [[rng1|e] s1] eqn:E1; [|discriminate].
    simpl snd in *. simpl lam_idx in S1. simpl lambda_arr in S2.
    simpl breakpoints in S3.
    pose proof (@run_order_all_filled n rng s rng1 s1 E1) as Hall.
    fold run_loop' in H.
    destruct (IH rng1 s1 r s' H ltac:(lia)) as (T1 & T2 & T3 & T4).
    split; [cbn [length]; lia|]. split; [congruence|].
    split; [congruence|].
    intros b k Hb Hk.
    destruct (Z.eq_dec (Z.of_nat k) (lam_idx s1)) as [Heq|Hne].
    + destruct (Hall b ltac:(now rewrite S3))
        as (k0 & Ha & v & Hc & Hv).
      assert (k0 = k).
      { unfold active_cell in Ha.
        destruct (nth_error (lam s1) b) as [row|]; [|discriminate].
        apply py_index_nonneg in Ha; lia. }
      subst k0.
      pose proof (@run_loop_order_frame get_masked_chunk X ChunksZ
                    Matern32Kernel gp_predict np_sqrt linalg_solve
                    compute_model np_log10 power10 np_linspace draw SavGol
                      savgol_filter nanstd Chunks randn
                    random fmin_l_bfgs_b get_mask get_cdpp_arr get_cdpp
                    (S k) ns rng1 s1) as [_ Hkeep].
      fold run_loop' in Hkeep. rewrite H in Hkeep. simpl snd in Hkeep.
      exists v. rewrite Hkeep by lia. rewrite T2. auto.
    + apply T4; [now rewrite S3|lia].
Qed.

(** One turn of the order loop leaves the kernel as it is when the
    optimization is switched off, and at the first order. *)
Lemma run_order_kernel (n rng : nat) (s : Detrender) :
  optimize_gp s = false \/ n = 0 ->
  kernel_same s (snd (run_order' n rng s)).
Proof.
  intros Hoff. unfold run_order', run_order.
  unfold mbind at 1. unfold bump_lam_idx at 1.
  set (s1 := set_lam_idx s (lam_idx s + 1)).
  unfold mbind at 1.
  pose proof (get_outliers_only s1) as O2.
  apply only_model_outmask_steady in O2. destruct O2 as (_ & [K2 G2] & _).
  destruct (get_outliers compute_model SavGol s1) as [[u|e] s2];
    simpl snd in *; [|split; assumption].
  unfold mbind at 1. unfold mget at 1.
  assert (Hc : (0 <? n) && optimize_gp s2 = false).
  { destruct Hoff as [Ho| ->]; [|reflexivity].
    rewrite G2. simpl. rewrite Ho. apply andb_false_r. }
  rewrite Hc. unfold mbind at 1. unfold mret at 1.
  match goal with
  | |- kernel_same s (snd (?rest s2)) =>
      assert (Hrest : preserves kernel_same rest)
  end.
  { pose proof kernel_same_refl as Hrefl.
    pose proof kernel_same_trans as Htrans.
    assert (Hset : forall f : Detrender -> Detrender,
               (forall x, kernel_same x (f x)) ->
               preserves kernel_same (fun x => (Ok tt, f x))).
    { intros f Hf x. apply Hf. }
    repeat preserve_step;
      try solve [apply Hset; intros x; repeat split].
    eapply preserves_weaken; [|apply cross_validate_steady].
    intros x y H. apply H. }
  eapply kernel_same_trans; [|apply Hrest]. split; assumption.
Qed.

Lemma run_loop_kernel (ns : list nat) :
  forall rng s,
  optimize_gp s = false \/ (forall n, In n ns -> n = 0) ->
  kernel_same s (snd (run_loop' ns rng s)).
Proof.
  induction ns as [|n ns IH]; intros rng s Hoff.
  - apply kernel_same_refl.
  - unfold run_loop'. cbn [run_loop]. unfold mbind. fold run_order'.
    assert (H1 : kernel_same s (snd (run_order' n rng s))).
    { apply run_order_kernel. destruct Hoff as [Ho|Hz]; [now left|].
      right. apply Hz. now left. }
    destruct (run_order' n rng s) as [[rng1|e] s1]; simpl snd in *;
      [|exact H1].
    fold run_loop'. eapply kernel_same_trans; [exact H1|]. apply IH.
    destruct Hoff as [Ho|Hz].
    + left. destruct H1 as [_ G]. congruence.
    + right. intros m Hm. apply Hz. now right.
Qed.

(** X18. When the order loop of [run], started with the pointer at -1,
    goes through, the pointer is at the last order and the table is
    complete: every cell of every segment, at every order of the model,
    holds [-inf] or a value of [lambda_arr]; no cell is left at [None], and
    the initial 1e5 is gone unless the grid has it. *)
Theorem run_orders_fills_table (rng r : nat) (self self' : Detrender) :
  lam_idx self = (-1)%Z ->
  run_orders get_masked_chunk X ChunksZ Matern32Kernel gp_predict np_sqrt
    linalg_solve compute_model np_log10 power10 np_linspace draw SavGol
      savgol_filter nanstd Chunks randn
    random fmin_l_bfgs_b get_mask get_cdpp_arr get_cdpp rng self
    = (Ok r, self') ->
  lam_idx self' = (Z.of_nat (Z.to_nat (pld_order self)) - 1)%Z /\
  forall b k, b < length (breakpoints self) ->
              k < Z.to_nat (pld_order self) ->
              exists v, cell self' b k = Some (Some v) /\
                        (v = NInf \/ In v (lambda_arr self)).
Proof.
  intros Hi H. unfold run_orders in H. unfold mbind, mget in H.
  fold run_loop' in H.
  destruct (@run_loop_fills _ rng self r self' H ltac:(lia))
    as (T1 & T2 & _ & T4).
  rewrite length_seq in T1. split; [lia|].
  intros b k Hb Hk. destruct (T4 b k Hb ltac:(lia)) as (v & Hc & Hv).
  exists v. rewrite <- T2. auto.
Qed.

(** X19. With the optimization of the kernel switched off, or with a model
    of order 1, the order loop of [run] leaves [kernel_params] as it found
    it, whether it goes through or raises. *)
Theorem run_orders_keeps_kernel (rng : nat) (self : Detrender) :
  optimize_gp self = false \/ (pld_order self <= 1)%Z ->
  kernel_params
    (snd (run_orders get_masked_chunk X ChunksZ Matern32Kernel gp_predict
            np_sqrt linalg_solve compute_model np_log10 power10 np_linspace
              draw SavGol savgol_filter nanstd
            Chunks randn random fmin_l_bfgs_b get_mask get_cdpp_arr get_cdpp
            rng self))
  = kernel_params self.
Proof.
  intros Hoff. unfold run_orders. unfold mbind, mget. fold run_loop'.
  apply run_loop_kernel. destruct Hoff as [Ho|Hp]; [now left|].
  right. intros n Hn. apply in_seq in Hn. lia.
Qed.

End OrderLoopMore.

Lemma run_orders_fills_table_witness :
  let gmc := fun (_ : list f64) (_ : list Z) (_ : Z) (_ _ _ _ : list Z)
                 (_ : nat) => [0%Z; 1%Z; 2%Z; 3%Z] in
  let X := fun (_ : Detrender) (_ : nat) (idx : list Z) =>
             Ok (mk_ndarray2 1 (map (fun _ : Z => [Fin 1]) idx)) in
  let ChunksZ := fun (l : list Z) (n : Z) =>
                   Ok (chunks_of (length l) (Z.to_nat n) l) in
  let k32 := fun _ _ _ : f64 => Fin 0 in
  let predict := fun (_ _ : f64) (_ _ _ : list f64) (t : list f64) =>
                   Ok (map (fun _ : f64 => Fin 0) t) in
  let solve := fun (_ : ndarray2) (f : list f64) =>
                 Ok (map (fun _ : f64 => Fin 0) f) in
  let compute_model := fun s : Detrender => Ok (model s) in
  let savgol := fun (x : list f64) (_ _ : nat) => Ok x in
  let Chunks := fun (l : list f64) (n : Z) =>
                  Ok (chunks_of (length l) (Z.to_nat n) l) in
  let fmin := fun (x0 : list f64) (_ : bounds_t) (_ _ _ : list f64) =>
                Ok (x0, Fin 0) in
  let self := set_lam_idx varied_self (-1) in
  exists r self',
    run_orders gmc X ChunksZ k32 predict (fun x => x) solve compute_model
      (fun x => x) (fun x => x)
           (fun a b _ => [a; b]) (fun _ => Ok tt)
      (fun f => f) savgol (fun _ => Fin 0) Chunks (fun _ => Fin 0)
      (fun _ => Fin (1 # 2)) fmin (fun s => outmask s)
      (fun _ => [Fin 1]) (fun _ => Fin 1) 0 self = (Ok r, self') /\
    lam self' = [[Some (Fin 0); Some (Fin 0)]] /\
    lam_idx self' = 1%Z /\
    exists v, cell self' 0 1 = Some (Some v) /\
              (v = NInf \/ In v (lambda_arr self)).
Proof.
  intros gmc X ChunksZ k32 predict solve compute_model savgol Chunks fmin
         self.
  destruct (run_orders gmc X ChunksZ k32 predict (fun x => x) solve
              compute_model (fun x => x) (fun x => x)
           (fun a b _ => [a; b]) (fun _ => Ok tt) (fun f => f) savgol
             (fun _ => Fin 0) Chunks
              (fun _ => Fin 0) (fun _ => Fin (1 # 2)) fmin
              (fun s => outmask s) (fun _ => [Fin 1]) (fun _ => Fin 1)
              0 self) as [[r|e] self'] eqn:H;
    [|vm_compute in H; discriminate].
  exists r, self'. split; [reflexivity|]. split.
  { vm_compute in H. inversion H. reflexivity. }
  destruct (@run_orders_fills_table gmc X ChunksZ k32 predict (fun x => x)
              solve compute_model (fun x => x) (fun x => x)
           (fun a b _ => [a; b]) (fun _ => Ok tt) (fun f => f) savgol
             (fun _ => Fin 0)
              Chunks (fun _ => Fin 0) (fun _ => Fin (1 # 2)) fmin
              (fun s => outmask s) (fun _ => [Fin 1]) (fun _ => Fin 1)
              0 r self self' eq_refl H) as [Hp Hc].
  split; [exact Hp|]. apply Hc; simpl; lia.
Defined.

Lemma run_orders_keeps_kernel_witness :
  let gmc := fun (_ : list f64) (_ : list Z) (_ : Z) (_ _ _ _ : list Z)
                 (_ : nat) => [0%Z; 1%Z; 3%Z] in
  let X := fun (_ : Detrender) (_ : nat) (_ : list Z) =>
             @Raise ndarray2 ValueError in
  let ChunksZ := fun (_ : list Z) (_ : Z) => Ok (@nil (list Z)) in
  let k32 := fun _ _ _ : f64 => Fin 0 in
  let predict := fun (_ _ : f64) (_ _ _ _ : list f64) =>
                   @Raise (list f64) ValueError in
  let solve := fun (_ : ndarray2) (_ : list f64) =>
                 @Raise (list f64) LinAlgError in
  let compute_model := fun s : Detrender => Ok (model s) in
  let savgol := fun (x : list f64) (_ _ : nat) => Ok x in
  let Chunks := fun (l : list f64) (n : Z) =>
                  Ok (chunks_of (length l) (Z.to_nat n) l) in
  let fmin := fun (x0 : list f64) (_ : bounds_t) (_ _ _ : list f64) =>
                Ok (x0, Fin 0) in
  let self := set_lam_idx small_self (-1) in
  optimize_gp self = false /\
  kernel_params
    (snd (run_orders gmc X ChunksZ k32 predict (fun x => x) solve
            compute_model (fun x => x) (fun x => x)
           (fun a b _ => [a; b]) (fun _ => Ok tt) (fun f => f) savgol
             (fun _ => Fin 0) Chunks
            (fun _ => Fin 0) (fun _ => Fin (1 # 2)) fmin
            (fun s => outmask s) (fun _ => [Fin 1]) (fun _ => Fin 1)
            0 self))
  = Some [Fin 1; Fin 1; Fin 30].
Proof.
  intros gmc X ChunksZ k32 predict solve compute_model savgol Chunks fmin
         self.
  split; [reflexivity|].
  exact (@run_orders_keeps_kernel gmc X ChunksZ k32 predict (fun x => x)
           solve compute_model (fun x => x) (fun x => x)
           (fun a b _ => [a; b]) (fun _ => Ok tt) (fun f => f) savgol
             (fun _ => Fin 0)
           Chunks (fun _ => Fin 0) (fun _ => Fin (1 # 2)) fmin
           (fun s => outmask s) (fun _ => [Fin 1]) (fun _ => Fin 1)
           0 self (or_introl eq_refl)).
Defined.


(** ** [get_ylim] *)

Lemma insert_sorted_length (x : f64) (l : list f64) :
  length (insert_sorted x l) = S (length l).
Proof.
  induction l as [|y l IH]; simpl; [reflexivity|].
  destruct (fle x y); simpl; auto.
Qed.

Lemma np_sort_length (l : list f64) : length (np_sort l) = length l.
Proof.
  induction l as [|y l IH]; simpl; [reflexivity|].
  now rewrite insert_sorted_length, IH.
Qed.

Lemma sort_nan_last_length (l : list f64) :
  length (sort_nan_last l) = length l.
Proof.
  unfold sort_nan_last. rewrite length_app, np_sort_length.
  induction l as [|x l IH]; simpl; [reflexivity|].
  destruct (is_nan x); simpl; lia.
Qed.

Lemma sort_nan_last_finite (l : list f64) :
  Forall (fun y => is_finite y = true) l ->
  sort_nan_last l = np_sort l.
Proof.
  intros Hl. unfold sort_nan_last. rewrite (@filter_finite _ Hl).
  assert (Hn : filter is_nan l = []).
  { induction Hl as [|y l Hy Hl IH]; simpl; [reflexivity|].
    destruct y; try discriminate. exact IH. }
  now rewrite Hn, app_nil_r.
Qed.

Lemma insert_sorted_In (x y : f64) (l : list f64) :
  In y (insert_sorted x l) -> y = x \/ In y l.
Proof.
  induction l as [|z l IH]; simpl.
  - intros [H|[]]; auto.
  - destruct (fle x z); simpl.
    + intros [H|[H|H]]; auto.
    + intros [H|H]; auto. destruct (IH H); auto.
Qed.

Lemma insert_sorted_ascending (x : f64) (l : list f64) :
  is_finite x = true -> Forall (fun y => is_finite y = true) l ->
  StronglySorted (fun a b => fle a b = true) l ->
  StronglySorted (fun a b => fle a b = true) (insert_sorted x l).
Proof.
  intros Hx Hl Hs. induction Hs as [|y l Hs IH Hy]; simpl.
  - repeat constructor.
  - inversion Hl as [|? ? Fy Fl]; subst.
    destruct (fle x y) eqn:E.
    + constructor; [constructor; assumption|].
      constructor; [exact E|].
      rewrite Forall_forall in *. intros z Hz.
      eapply fle_trans; [exact E|]. now apply Hy.
    + constructor; [now apply IH|].
      rewrite Forall_forall in *. intros z Hz.
      apply insert_sorted_In in Hz. destruct Hz as [->|Hz]; [|now apply Hy].
      destruct x, y; try discriminate. simpl in *.
      destruct (Qle_boolP q q0); [discriminate|].
      apply Qle_bool_iff. lra.
Qed.

Lemma np_sort_ascending (l : list f64) :
  Forall (fun y => is_finite y = true) l ->
  StronglySorted (fun a b => fle a b = true) (np_sort l).
Proof.
  intros Hl. induction Hl as [|y l Hy Hl IH]; simpl; [constructor|].
  apply insert_sorted_ascending; auto. apply np_sort_finite, Hl.
Qed.

Lemma ascending_nth (l : list f64) :
  StronglySorted (fun a b => fle a b = true) l ->
  Forall (fun y => is_finite y = true) l ->
  forall i j, i <= j -> j < length l ->
  fle (nth i l NaN) (nth j l NaN) = true.
Proof.
  intros Hs. induction Hs as [|y l Hs IH Hy]; intros Hf i j Hij Hj;
    [simpl in Hj; lia|].
  inversion Hf as [|? ? Fy Fl]; subst.
  destruct i as [|i], j as [|j]; simpl in *; try lia.
  - apply fle_refl. now destruct y.
  - rewrite Forall_forall in Hy. apply Hy, nth_In. lia.
  - apply IH; auto; lia.
Qed.

Lemma drop_positions_Forall {A} (P : A -> Prop) (ks : list nat) (x : list A) :
  forall i, Forall P x -> Forall P (drop_positions i ks x).
Proof.
  induction x as [|a x IH]; intros i Hx; simpl; [constructor|].
  inversion Hx; subst. destruct (existsb (Nat.eqb i) ks); auto.
Qed.

Lemma np_delete_Forall {A} (P : A -> Prop) (x y : list A) (idx : list Z) :
  Forall P x -> np_delete x idx = Ok y -> Forall P y.
Proof.
  unfold np_delete. intros Hx.
  destruct (positions (length x) idx) as [ks|]; cbn [rbind]; [|discriminate].
  intros H. inversion H; subst. now apply drop_positions_Forall.
Qed.

Lemma map2_fsub_finite (a b : list f64) :
  Forall (fun y => is_finite y = true) a ->
  Forall (fun y => is_finite y = true) b ->
  Forall (fun y => is_finite y = true) (map2 fsub a b).
Proof.
  intros Ha. revert b. induction Ha as [|x a Hx Ha IH]; intros b Hb;
    simpl; [constructor|].
  destruct Hb as [|y b Hy Hb]; [constructor|].
  constructor; [|now apply IH].
  destruct x, y; try discriminate. reflexivity.
Qed.

Lemma int_frac_nonneg (c : Q) (n : nat) :
  (0 <= c)%Q -> (0 <= int_frac c n)%Z.
Proof.
  intros Hc. unfold int_frac. change 0%Z with (Qfloor 0).
  apply Qfloor_resp_le. apply Qmult_le_0_compat; [exact Hc|].
  change 0%Q with (inject_Z 0). rewrite <- Zle_Qle. lia.
Qed.

Lemma int_frac_mono (c c' : Q) (n : nat) :
  (c <= c')%Q -> (int_frac c n <= int_frac c' n)%Z.
Proof.
  intros Hc. unfold int_frac. apply Qfloor_resp_le.
  apply Qmult_le_compat_r; [exact Hc|].
  change 0%Q with (inject_Z 0). rewrite <- Zle_Qle. lia.
Qed.

Lemma getitem_nonneg {A} (l : list A) (i : Z) (x d : A) :
  (0 <= i)%Z -> getitem l i = Ok x ->
  Z.to_nat i < length l /\ x = nth (Z.to_nat i) l d.
Proof.
  intros Hi. unfold getitem.
  destruct (py_index (length l) i) as [k|] eqn:Ek; [|discriminate].
  pose proof (py_index_lt _ _ Ek) as Hk.
  apply py_index_nonneg in Ek; [|exact Hi]. subst k.
  destruct (nth_error l (Z.to_nat i)) as [y|] eqn:En; [|discriminate].
  intros H. inversion H; subst. split; [exact Hk|].
  symmetry. now apply nth_error_nth.
Qed.

Lemma getitem_finite (l : list f64) (i : Z) (x : f64) :
  Forall (fun y => is_finite y = true) l -> getitem l i = Ok x ->
  is_finite x = true.
Proof.
  intros Hl H. apply getitem_In in H. rewrite Forall_forall in Hl. auto.
Qed.

(** X21. With fewer than four cadences left once the bad and the NaN
    cadences are removed, [get_ylim] raises [IndexError]. *)
Theorem get_ylim_too_few (self : Detrender) (fr : list f64) :
  np_delete (fraw self) (get_ylim_bn self) = Ok fr ->
  length fr < 4 ->
  get_ylim self = Raise IndexError.
Proof.
  intros Hd Hlen. unfold get_ylim. rewrite Hd. cbn [rbind].
  unfold getitem at 1. rewrite sort_nan_last_length.
  destruct (py_index (length fr) 3) as [k|] eqn:E; [|reflexivity].
  pose proof (py_index_lt _ _ E) as Hk.
  apply py_index_nonneg in E; lia.
Qed.

(** X22. On finite data, the limits that [get_ylim] returns are in order
    and hold the bulk of the light curve: every flux between the 1st and
    the 99th percentile rank lies within them. *)
Theorem get_ylim_holds_bulk (self : Detrender) (lo hi : f64) :
  get_ylim self = Ok (lo, hi) ->
  Forall (fun y => is_finite y = true) (fraw self) ->
  Forall (fun y => is_finite y = true) (model self) ->
  fle lo hi = true /\
  exists fl fm,
    flux self = Ok fl /\
    np_delete fl (get_ylim_bn self) = Ok fm /\
    forall k,
      (int_frac (1 # 100) (length fm) <= Z.of_nat k
       <= int_frac (99 # 100) (length fm))%Z ->
      fle lo (nth k (sort_nan_last fm) NaN) = true /\
      fle (nth k (sort_nan_last fm) NaN) hi = true.
Proof.
  intros H Hfraw Hmodel. unfold get_ylim in H.
  destruct (np_delete (fraw self) (get_ylim_bn self)) as [fr|] eqn:Efr;
    cbn [rbind] in H; [|discriminate].
  pose proof (@np_delete_Forall _ _ _ _ _ Hfraw Efr) as Hfr.
  rewrite (@sort_nan_last_finite _ Hfr) in H.
  destruct (@np_sort_finite _ Hfr) as [Hsr _].
  destruct (getitem (np_sort fr) 3) as [lo0|] eqn:Elo; cbn [rbind] in H;
    [|discriminate].
  destruct (getitem (np_sort fr) (-3)) as [hi0|] eqn:Ehi; cbn [rbind] in H;
    [|discriminate].
  pose proof (@getitem_finite _ _ _ Hsr Elo) as Flo.
  pose proof (@getitem_finite _ _ _ Hsr Ehi) as Fhi.
  destruct (flux self) as [fl|] eqn:Efl; cbn [rbind] in H; [|discriminate].
  assert (Hfl : Forall (fun y => is_finite y = true) fl).
  { unfold flux, vec_op in Efl.
    destruct (length (fraw self) =? length (model self)); [|discriminate].
    inversion Efl. now apply map2_fsub_finite. }
  destruct (np_delete fl (get_ylim_bn self)) as [fm|] eqn:Efm;
    cbn [rbind] in H; [|discriminate].
  pose proof (@np_delete_Forall _ _ _ _ _ Hfl Efm) as Hfm.
  rewrite (@sort_nan_last_finite _ Hfm) in *.
  destruct (@np_sort_finite _ Hfm) as [Hsf Hsl].
  pose proof (@np_sort_ascending _ Hfm) as Hasc.
  set (fs := np_sort fm) in *. rewrite Hsl in H.
  set (i1 := int_frac (1 # 100) (length fm)) in *.
  set (i2 := int_frac (99 # 100) (length fm)) in *.
  assert (H1 : (0 <= i1)%Z) by (apply int_frac_nonneg; lra).
  assert (H12 : (i1 <= i2)%Z) by (apply int_frac_mono; lra).
  destruct (getitem fs i1) as [p1|] eqn:E1; cbn [rbind] in H;
    [|discriminate].
  destruct (getitem fs i2) as [p99|] eqn:E2; cbn [rbind] in H;
    [|discriminate].
  destruct (@getitem_nonneg _ _ _ _ NaN H1 E1) as [L1 N1].
  assert (H2 : (0 <= i2)%Z) by lia.
  destruct (@getitem_nonneg _ _ _ _ NaN H2 E2) as [L2 N2].
  assert (Hin : forall k, (i1 <= Z.of_nat k <= i2)%Z ->
                  fle p1 (nth k fs NaN) = true /\
                  fle (nth k fs NaN) p99 = true).
  { intros k Hk. subst p1 p99.
    split; apply ascending_nth; auto; lia. }
  pose proof (@getitem_finite _ _ _ Hsf E1) as F1.
  pose proof (@getitem_finite _ _ _ Hsf E2) as F2.
  assert (Hp : fle p1 p99 = true).
  { destruct (Hin (Z.to_nat i1) ltac:(lia)) as [_ Hq].
    rewrite <- N1 in Hq. exact Hq. }
  set (lo' := if flt p1 lo0 then p1 else lo0) in *.
  set (hi' := if flt hi0 p99 then p99 else hi0) in *.
  assert (Hlo : exists a b l h,
             p1 = Fin a /\ p99 = Fin b /\ lo' = Fin l /\ hi' = Fin h /\
             (l <= a)%Q /\ (a <= b)%Q /\ (b <= h)%Q).
  { destruct p1 as [| |a|], p99 as [| |b|], lo0 as [| |l0|], hi0 as [| |h0|];
      try discriminate.
    unfold lo', hi'. simpl in *.
    exists a, b.
    destruct (Qle_boolP l0 a), (Qle_boolP b h0), (Qle_boolP a b);
      try discriminate; simpl; eexists _, _;
      (split; [reflexivity|]); (split; [reflexivity|]);
      (split; [reflexivity|]); (split; [reflexivity|]); lra. }
  destruct Hlo as (a & b & l & h & -> & -> & El & Eh & Hla & Hab & Hbh).
  rewrite El, Eh in H. simpl in H. inversion H; subst lo hi; clear H.
  assert (Hpad : (0 <= (h + - l) * (5 # 100))%Q)
    by (apply Qmult_le_0_compat; lra).
  split.
  - simpl. apply Qle_bool_iff. lra.
  - exists fl, fm. split; [first [reflexivity|exact Efl]|].
    split; [exact Efm|].
    intros k Hk. rewrite (@sort_nan_last_finite _ Hfm). fold fs.
    destruct (Hin k Hk) as [Ha Hb].
    destruct (nth k fs NaN) as [| |x|]; try discriminate.
    simpl in *. apply Qle_bool_iff in Ha, Hb.
    split; apply Qle_bool_iff; lra.
Qed.

Lemma get_ylim_too_few_witness :
  np_delete (fraw small_self_bad) (get_ylim_bn small_self_bad)
    = Ok [Fin 10; Fin 50; Fin 10] /\
  get_ylim small_self_bad = Raise IndexError.
Proof.
  assert (Hd : np_delete (fraw small_self_bad) (get_ylim_bn small_self_bad)
               = Ok [Fin 10; Fin 50; Fin 10]) by reflexivity.
  split; [exact Hd|].
  apply (@get_ylim_too_few small_self_bad _ Hd). simpl. lia.
Defined.

Lemma get_ylim_holds_bulk_witness :
  exists lo hi,
    get_ylim small_self = Ok (lo, hi) /\
    feq lo (Fin 8) = true /\ feq hi (Fin 52) = true /\
    fle lo hi = true.
Proof.
  destruct (get_ylim small_self) as [[lo hi]|e] eqn:H;
    [|vm_compute in H; discriminate].
  exists lo, hi. split; [reflexivity|].
  assert (Hv : feq lo (Fin 8) = true /\ feq hi (Fin 52) = true).
  { vm_compute in H. inversion H. split; reflexivity. }
  destruct Hv as [Hl Hh]. split; [exact Hl|]. split; [exact Hh|].
  apply (@get_ylim_holds_bulk small_self lo hi H); repeat constructor.
Defined.


(** ** Error paths of the cross-validation *)

(** X23. With [cdivs = 0] no segment can be short of data, and the first
    segment's turn stops at [len(time) // self.cdivs] at the latest:
    [cross_validate] raises, and leaves the object as it was. *)
Theorem cross_validate_zero_cdivs
  (get_masked_chunk :
     list f64 -> list Z -> Z -> list Z -> list Z -> list Z -> list Z ->
     nat -> list Z)
  (X : Detrender -> nat -> list Z -> result ndarray2)
  (Chunks : list Z -> Z -> result (list (list Z)))
  (Matern32Kernel : f64 -> f64 -> f64 -> f64)
  (gp_predict :
     f64 -> f64 -> list f64 -> list f64 -> list f64 -> list f64 ->
     result (list f64))
  (np_sqrt : f64 -> f64)
  (linalg_solve : ndarray2 -> list f64 -> result (list f64))
  (compute_model : Detrender -> result (list f64))
  (np_log10 power10 : f64 -> f64)
  (np_linspace : f64 -> f64 -> nat -> list f64)
  (draw : plot_cmd -> result unit)
  (get_cdpp_arr : Detrender -> list f64)
  (self : Detrender) :
  cdivs self = 0%Z ->
  breakpoints self <> [] ->
  exists e,
    cross_validate get_masked_chunk X Chunks Matern32Kernel gp_predict
      np_sqrt linalg_solve compute_model np_log10 power10 np_linspace draw
        get_cdpp_arr self = (Raise e, self).
Proof.
  intros Hc Hb. rewrite cross_validate_steps.
  destruct (breakpoints self) as [|b0 bs]; [congruence|].
  cbn [length seq mfold].
  assert (Hseg : exists e,
             cv_segment get_masked_chunk X Chunks Matern32Kernel gp_predict
               np_sqrt linalg_solve np_log10 power10 np_linspace draw None
               0 self = (Raise e, self)).
  { unfold cv_segment. unfold mbind at 1. unfold mget at 1. cbv zeta.
    rewrite Hc.
    replace (Z.of_nat _ <? 3 * 0)%Z with false
      by (symmetry; apply Z.ltb_ge; lia).
    unfold mbind, mlift.
    destruct (take (time self) _) as [tm|e]; [|eauto].
    destruct (take (fraw self) _) as [fl|e]; [|eauto].
    destruct (take (fraw_err self) _) as [fe|e]; [|eauto].
    destruct (unpack3 (kernel_params self)) as [[[w amp] tau]|e]; [|eauto].
    unfold floordiv. simpl. eauto. }
  destruct Hseg as (e & He). exists e.
  unfold mbind. rewrite He. reflexivity.
Qed.

Lemma cross_validate_zero_cdivs_witness :
  let gmc := fun (_ : list f64) (_ : list Z) (_ : Z) (_ _ _ _ : list Z)
                 (_ : nat) => [0%Z; 1%Z; 3%Z] in
  let X := fun (_ : Detrender) (_ : nat) (_ : list Z) =>
             @Raise ndarray2 ValueError in
  let Chunks := fun (_ : list Z) (_ : Z) => Ok (@nil (list Z)) in
  let k32 := fun _ _ _ : f64 => Fin 0 in
  let predict := fun (_ _ : f64) (_ _ _ _ : list f64) =>
                   @Raise (list f64) ValueError in
  let solve := fun (_ : ndarray2) (_ : list f64) =>
                 @Raise (list f64) LinAlgError in
  let compute_model := fun s : Detrender => Ok (model s) in
  cross_validate gmc X Chunks k32 predict (fun x => x) solve compute_model
    (fun x => x) (fun x => x)
           (fun a b _ => [a; b]) (fun _ => Ok tt) (fun _ => [Fin 1])
    small_self_nodivs = (Raise ZeroDivisionError, small_self_nodivs).
Proof.
  intros gmc X Chunks k32 predict solve compute_model.
  destruct (@cross_validate_zero_cdivs gmc X Chunks k32 predict
              (fun x => x) solve compute_model (fun x => x) (fun x => x)
           (fun a b _ => [a; b]) (fun _ => Ok tt) (fun _ => [Fin 1])
             small_self_nodivs
              eq_refl ltac:(discriminate)) as (e & He).
  rewrite He. vm_compute in He. inversion He. reflexivity.
Defined.

Lemma weighted_number_on_null (lam_b : list (option f64)) :
  forall (A : list (option ndarray2)) (n : nat) (l : f64),
  nth_error lam_b n = Some (Some l) ->
  nth_error A n = Some None ->
  weighted lam_b A = Raise TypeError.
Proof.
  induction lam_b as [|c lam' IH]; intros [|a A] [|n] l Hl Ha;
    simpl in *; try discriminate.
  - inversion Hl; subst. inversion Ha; subst. reflexivity.
  - rewrite (IH A n l Hl Ha). destruct c as [c|]; [|reflexivity].
    destruct a as [a|]; reflexivity.
Qed.

(** X24. [cv_compute] needs the cells above the active order to be empty:
    when a cell of the segment's row holds a number at an order whose
    pre-computed matrix is [None], the call raises [TypeError]. *)
Theorem cv_compute_number_above_order
  (linalg_solve : ndarray2 -> list f64 -> result (list f64))
  (self : Detrender) (b n : nat) (l : f64)
  (A B : list (option ndarray2)) (mK : ndarray2) (f : list f64) :
  cell self b n = Some (Some l) ->
  nth_error A n = Some None ->
  cv_compute linalg_solve self b A B mK f = Raise TypeError.
Proof.
  unfold cell, cv_compute. intros Hc Ha.
  destruct (nth_error (lam self) b) as [lam_b|]; [|discriminate].
  now rewrite (@weighted_number_on_null lam_b A n l Hc Ha).
Qed.

Lemma cv_compute_number_above_order_witness :
  let solve := fun (_ : ndarray2) (f : list f64) => Ok f in
  let self := set_lam small_self [[Some (Fin 2); Some (Fin 3)]] in
  let A := [Some (mk_ndarray2 1 [[Fin 1]]); None] in
  cell self 0 1 = Some (Some (Fin 3)) /\
  cv_compute solve self 0 A A (mk_ndarray2 1 [[Fin 2]]) [Fin 8]
    = Raise TypeError.
Proof.
  intros solve self A. split; [reflexivity|].
  apply (@cv_compute_number_above_order solve self 0 1 (Fin 3) A A
           (mk_ndarray2 1 [[Fin 2]]) [Fin 8]); reflexivity.
Defined.
